(** * flowmate: the execution orchestration core

    A shallow embedding of the orchestrator's IPC channel
    ([packages/shared/src/ipc.ts]), budget tracker
    ([orchestrator/services/cost-tracker]), worker backends
    ([orchestrator/container/manager], [orchestrator/container/local-runner])
    and execution service ([orchestrator/services/execution.ts]), together
    with the properties the specification states about them; and of what
    surrounds them: the worker's side of the channel and the prompt it builds
    ([packages/runner/src/index.ts]), the line reader between worker and
    backend ([node:readline]), the command line of the MCP server
    ([packages/mcp/src/index.ts]), the orphan scanner
    ([orchestrator/container/cleanup.ts]), the conversation store
    ([orchestrator/context/thread-manager]) and the draining of the service
    at shutdown.

    Conventions of the embedding:
    - a JavaScript string is the list of its UTF-16 code units ([jsstring]);
    - a number inside a JSON text or a message is [number]: NaN, the two
      infinities, the two zeros, or a finite non-zero value given by the
      decimal digits and exponent that ECMA-262 [Number::toString] is defined
      on;
    - a number the program computes with (budgets, costs, what SQLite stores
      in a REAL column) is an IEEE 754 binary64 value, [float], with the
      rounding of every operation; [Double.of_number] reads a decimal as the
      nearest double and [Double.to_number] gives the shortest decimal that
      reads back;
    - mutable objects are threaded as explicit state; every callback a
      component invokes is recorded in a trace. *)

From Stdlib Require Import ZArith NArith QArith Qround List String Ascii Lia Bool Decimal DecimalN DecimalPos Floats.
From stdpp Require Import base list gmap.
Import ListNotations.
Open Scope Z_scope.
Set Warnings "-register-all".

(** ** JavaScript values *)

Module Js.

(** A string is a sequence of UTF-16 code units. *)
Definition jsstring := list N.

(** The code units of an ASCII literal. *)
Definition js (s : string) : jsstring := map N_of_ascii (list_ascii_of_string s).

Definition jsstring_eqb (a b : jsstring) : bool := bool_decide (a = b).

Fixpoint startsWith (prefix s : jsstring) : bool :=
  match prefix, s with
  | [], _ => true
  | p :: prefix', c :: s' => (p =? c)%N && startsWith prefix' s'
  | _ :: _, [] => false
  end.

(** [Array.prototype.slice(start)] and [String.prototype.slice(start)] with
    one argument: a negative start counts from the end, and both ends clamp. *)
Definition slice {A} (start : Z) (l : list A) : list A :=
  let len := Z.of_nat (length l) in
  let k := if start <? 0 then Z.max (len + start) 0 else Z.min start len in
  drop (Z.to_nat k) l.

(** WhiteSpace and LineTerminator code units, the ones [trim] strips. *)
Definition is_trim_space (c : N) : bool :=
  ((9 <=? c) && (c <=? 13) || (c =? 32) || (c =? 160) || (c =? 5760)
   || (8192 <=? c) && (c <=? 8202) || (c =? 8232) || (c =? 8233)
   || (c =? 8239) || (c =? 8287) || (c =? 12288) || (c =? 65279))%N.

Fixpoint trimStart (s : jsstring) : jsstring :=
  match s with
  | c :: s' => if is_trim_space c then trimStart s' else s
  | [] => []
  end.

Definition trim (s : jsstring) : jsstring := rev (trimStart (rev (trimStart s))).

(** [number]: [Dec neg ds n] is the finite non-zero value
    [(-1)^neg * 0.d1...dk * 10^n], with [ds = [d1; ...; dk]] its shortest
    digit string; these are the integers [s], [k], [n] of [Number::toString]. *)
Inductive number :=
| NaN
| Infinity (neg : bool)
| Zero (neg : bool)
| Dec (neg : bool) (digits : list N) (n : Z).

(** The digit string of a well-formed [Dec] is not empty, holds decimal
    digits only, and neither starts nor ends with 0. *)
Definition digits_ok (ds : list N) : bool :=
  forallb (fun d => d <? 10)%N ds
  && match ds with [] => false | d :: _ => negb (d =? 0)%N end
  && match rev ds with [] => false | d :: _ => negb (d =? 0)%N end.

Definition number_ok (x : number) : bool :=
  match x with
  | Dec _ ds _ => digits_ok ds
  | _ => true
  end.

Definition isFinite (x : number) : bool :=
  match x with
  | NaN | Infinity _ => false
  | Zero _ | Dec _ _ _ => true
  end.

Definition digit_char (d : N) : N := (48 + d)%N.

Fixpoint chars_of_uint (u : uint) : jsstring :=
  match u with
  | Nil => []
  | D0 u' => 48%N :: chars_of_uint u'
  | D1 u' => 49%N :: chars_of_uint u'
  | D2 u' => 50%N :: chars_of_uint u'
  | D3 u' => 51%N :: chars_of_uint u'
  | D4 u' => 52%N :: chars_of_uint u'
  | D5 u' => 53%N :: chars_of_uint u'
  | D6 u' => 54%N :: chars_of_uint u'
  | D7 u' => 55%N :: chars_of_uint u'
  | D8 u' => 56%N :: chars_of_uint u'
  | D9 u' => 57%N :: chars_of_uint u'
  end.

(** The decimal numeral of a natural number, as [ToString] prints an integer
    below 10^21. *)
Definition decimal (n : N) : jsstring := chars_of_uint (N.to_uint n).

Definition zeros (k : nat) : list N := repeat 0%N k.

(** ECMA-262 [Number::toString] in radix 10. *)
Definition Number_toString (x : number) : jsstring :=
  match x with
  | NaN => js "NaN"
  | Infinity neg => (if neg then js "-" else []) ++ js "Infinity"
  | Zero _ => js "0"
  | Dec neg ds n =>
    let k := Z.of_nat (length ds) in
    let body :=
      if (-6 <? n) && (n <=? 21) then
        if k <=? n then
          map digit_char (ds ++ zeros (Z.to_nat (n - k)))
        else if 0 <? n then
          map digit_char (take (Z.to_nat n) ds) ++ js "."
            ++ map digit_char (drop (Z.to_nat n) ds)
        else
          js "0." ++ map digit_char (zeros (Z.to_nat (- n)) ++ ds)
      else
        let e := n - 1 in
        let mant :=
          match ds with
          | [] => []
          | [d] => [digit_char d]
          | d :: rest => digit_char d :: js "." ++ map digit_char rest
          end in
        mant ++ js "e" ++ (if e <? 0 then js "-" else js "+")
             ++ decimal (Z.to_N (Z.abs e))
    in
    (if neg then js "-" else []) ++ body
  end.

(** The values [JSON.parse] produces and [JSON.stringify] consumes. An
    object keeps its properties in insertion order (the keys the code uses are
    names, none is an array index); a property that is absent reads as
    [undefined], which is [None] here. *)
Inductive json :=
| JNull
| JBool (b : bool)
| JNum (x : number)
| JStr (s : jsstring)
| JArr (items : list json)
| JObj (fields : list (jsstring * json)).

Fixpoint lookup_field (key : jsstring) (fields : list (jsstring * json)) : option json :=
  match fields with
  | [] => None
  | (k, v) :: rest => if jsstring_eqb k key then Some v else lookup_field key rest
  end.

(** Property read [obj.key] on a parsed value; [key] is never array-like. *)
Definition get (key : string) (v : option json) : option json :=
  match v with
  | Some (JObj fields) => lookup_field (js key) fields
  | _ => None
  end.

(** ["key" in obj], for an [obj] that is an object or an array. *)
Definition has (key : string) (v : json) : bool :=
  match get key (Some v) with Some _ => true | None => false end.

Inductive jstype := TUndefined | TObject | TBoolean | TNumber | TString.

Definition typeof (v : option json) : jstype :=
  match v with
  | None => TUndefined
  | Some JNull | Some (JArr _) | Some (JObj _) => TObject
  | Some (JBool _) => TBoolean
  | Some (JNum _) => TNumber
  | Some (JStr _) => TString
  end.

Definition jstype_eqb (a b : jstype) : bool :=
  match a, b with
  | TUndefined, TUndefined | TObject, TObject | TBoolean, TBoolean
  | TNumber, TNumber | TString, TString => true
  | _, _ => false
  end.

(** [ToBoolean]. *)
Definition truthy (v : option json) : bool :=
  match v with
  | None | Some JNull => false
  | Some (JBool b) => b
  | Some (JNum NaN) | Some (JNum (Zero _)) => false
  | Some (JNum _) => true
  | Some (JStr s) => match s with [] => false | _ => true end
  | Some (JArr _) | Some (JObj _) => true
  end.

(** [v === "lit"]. *)
Definition is_str (lit : string) (v : option json) : bool :=
  match v with
  | Some (JStr s) => jsstring_eqb s (js lit)
  | _ => false
  end.

End Js.

(** ** The built-in JSON object (ECMA-262, 25.5) *)

Module JSON.
Import Js.

Definition hex_char (d : N) : N := (if d <? 10 then 48 + d else 87 + d)%N.

(** [UnicodeEscape]: a backslash, [u] and four lowercase hexadecimal digits. *)
Definition unicode_escape (c : N) : jsstring :=
  [92; 117; hex_char (c / 4096 mod 16); hex_char (c / 256 mod 16);
   hex_char (c / 16 mod 16); hex_char (c mod 16)]%N.

Definition is_high_surrogate (c : N) : bool := ((55296 <=? c) && (c <=? 56319))%N.
Definition is_low_surrogate (c : N) : bool := ((56320 <=? c) && (c <=? 57343))%N.

(** The part of [QuoteJSONString] that handles one code unit which is not
    half of a surrogate pair. *)
Definition quote_unit (c : N) : jsstring :=
  (if c =? 8 then js "\b"
   else if c =? 9 then js "\t"
   else if c =? 10 then js "\n"
   else if c =? 12 then js "\f"
   else if c =? 13 then js "\r"
   else if c =? 34 then [92; 34]
   else if c =? 92 then [92; 92]
   else if (c <? 32) || is_high_surrogate c || is_low_surrogate c then unicode_escape c
   else [c])%N.

(** The characters between the quotes: a surrogate pair is copied, a lone
    surrogate is escaped (well-formed [JSON.stringify]). *)
Fixpoint quote_chars (s : jsstring) : jsstring :=
  match s with
  | [] => []
  | c :: rest =>
    if is_high_surrogate c then
      match rest with
      | d :: rest' =>
        if is_low_surrogate d then c :: d :: quote_chars rest'
        else quote_unit c ++ quote_chars rest
      | [] => quote_unit c
      end
    else quote_unit c ++ quote_chars rest
  end.

Definition QuoteJSONString (s : jsstring) : jsstring := (34 :: quote_chars s ++ [34])%N.

Definition join_comma (parts : list jsstring) : jsstring :=
  match parts with
  | [] => []
  | p :: rest => p ++ concat (map (fun q => 44%N :: q) rest)
  end.

(** [JSON.stringify(value)] with neither replacer nor indentation. A number
    that is not finite is written as [null]. *)
Fixpoint stringify (v : json) : jsstring :=
  match v with
  | JNull => js "null"
  | JBool true => js "true"
  | JBool false => js "false"
  | JNum x => if isFinite x then Number_toString x else js "null"
  | JStr s => QuoteJSONString s
  | JArr items => (91 :: join_comma (map stringify items) ++ [93])%N
  | JObj fields =>
    (123 :: join_comma (map (fun kv => QuoteJSONString (fst kv) ++ 58 :: stringify (snd kv)) fields)
         ++ [125])%N
  end.

(** *** JSON.parse *)

Definition is_ws (c : N) : bool := ((c =? 32) || (c =? 9) || (c =? 10) || (c =? 13))%N.

Fixpoint skip_ws (s : jsstring) : jsstring :=
  match s with
  | c :: rest => if is_ws c then skip_ws rest else s
  | [] => []
  end.

Definition is_digit (c : N) : bool := ((48 <=? c) && (c <=? 57))%N.

(** The longest run of decimal digits at the head of [s], as digit values. *)
Fixpoint span_digits (s : jsstring) : list N * jsstring :=
  match s with
  | c :: rest =>
    if is_digit c then
      let '(ds, rest') := span_digits rest in ((c - 48)%N :: ds, rest')
    else ([], s)
  | [] => ([], [])
  end.

Definition hex_value (c : N) : option N :=
  (if (48 <=? c) && (c <=? 57) then Some (c - 48)
   else if (97 <=? c) && (c <=? 102) then Some (c - 87)
   else if (65 <=? c) && (c <=? 70) then Some (c - 55)
   else None)%N.

Definition hex4 (a b c d : N) : option N :=
  match hex_value a, hex_value b, hex_value c, hex_value d with
  | Some x, Some y, Some z, Some w => Some (x * 4096 + y * 256 + z * 16 + w)%N
  | _, _, _, _ => None
  end.

(** The character an escape letter stands for. *)
Definition unescape (e : N) : option N :=
  (if e =? 34 then Some 34
   else if e =? 92 then Some 92
   else if e =? 47 then Some 47
   else if e =? 98 then Some 8
   else if e =? 102 then Some 12
   else if e =? 110 then Some 10
   else if e =? 114 then Some 13
   else if e =? 116 then Some 9
   else None)%N.

Definition cons_fst {A B} (a : A) (r : option (list A * B)) : option (list A * B) :=
  match r with
  | Some (l, b) => Some (a :: l, b)
  | None => None
  end.

(** A string literal after its opening quote, up to and including the
    closing quote. *)
Fixpoint parse_chars (s : jsstring) : option (jsstring * jsstring) :=
  match s with
  | [] => None
  | c :: rest =>
    if (c =? 34)%N then Some ([], rest)
    else if (c =? 92)%N then
      match rest with
      | e :: rest1 =>
        if (e =? 117)%N then
          match rest1 with
          | h1 :: h2 :: h3 :: h4 :: rest2 =>
            match hex4 h1 h2 h3 h4 with
            | Some u => cons_fst u (parse_chars rest2)
            | None => None
            end
          | _ => None
          end
        else
          match unescape e with
          | Some u => cons_fst u (parse_chars rest1)
          | None => None
          end
      | [] => None
      end
    else if (c <? 32)%N then None
    else cons_fst c (parse_chars rest)
  end.

Definition uint_digit (d : N) (u : uint) : uint :=
  (if d =? 0 then D0 u else if d =? 1 then D1 u else if d =? 2 then D2 u
   else if d =? 3 then D3 u else if d =? 4 then D4 u else if d =? 5 then D5 u
   else if d =? 6 then D6 u else if d =? 7 then D7 u else if d =? 8 then D8 u
   else D9 u)%N.

Definition uint_of_digits (ds : list N) : uint := fold_right uint_digit Nil ds.

(** Leading zeros of a digit string: how many, and what follows them. *)
Fixpoint strip_zeros (ds : list N) : nat * list N :=
  match ds with
  | d :: rest =>
    if (d =? 0)%N then let '(k, rest') := strip_zeros rest in (S k, rest')
    else (O, ds)
  | [] => (O, [])
  end.

(** The number a literal denotes: integer digits [int], fraction digits
    [frac] and exponent [e], brought to the shortest digit string. *)
Definition make_number (neg : bool) (int frac : list N) (e : Z) : number :=
  let '(z, ds) := strip_zeros (int ++ frac) in
  match rev (snd (strip_zeros (rev ds))) with
  | [] => Zero neg
  | ds' => Dec neg ds' (Z.of_nat (length int) + e - Z.of_nat z)
  end.

Definition parse_exponent (s : jsstring) : option (Z * jsstring) :=
  match s with
  | c :: rest =>
    if ((c =? 101) || (c =? 69))%N then
      let '(neg, rest1) :=
        match rest with
        | sg :: rest' =>
          if (sg =? 45)%N then (true, rest')
          else if (sg =? 43)%N then (false, rest')
          else (false, rest)
        | [] => (false, rest)
        end in
      match span_digits rest1 with
      | ([], _) => None
      | (ds, rest2) =>
        let v := Z.of_N (N.of_uint (uint_of_digits ds)) in
        Some (if neg then - v else v, rest2)
      end
    else Some (0, s)
  | [] => Some (0, s)
  end.

Definition parse_fraction (s : jsstring) : option (list N * jsstring) :=
  match s with
  | c :: rest =>
    if (c =? 46)%N then
      match span_digits rest with
      | ([], _) => None
      | (fs, rest') => Some (fs, rest')
      end
    else Some ([], s)
  | [] => Some ([], s)
  end.

(** A JSON number: an optional minus sign; then a single 0, or a digit 1-9
    and any digits; then optionally a point and one or more digits; then
    optionally e or E, an optional sign and one or more digits. *)
Definition parse_int (s : jsstring) : option (list N * jsstring) :=
  match s with
  | c :: rest =>
    if is_digit c then Some (if (c =? 48)%N then ([0%N], rest) else span_digits s)
    else None
  | [] => None
  end.

Definition parse_unsigned (neg : bool) (s : jsstring) : option (number * jsstring) :=
  match parse_int s with
  | Some (int, rest1) =>
    match parse_fraction rest1 with
    | Some (frac, rest2) =>
      match parse_exponent rest2 with
      | Some (e, rest3) => Some (make_number neg int frac e, rest3)
      | None => None
      end
    | None => None
    end
  | None => None
  end.

Definition parse_number (s : jsstring) : option (number * jsstring) :=
  match s with
  | c :: rest => if (c =? 45)%N then parse_unsigned true rest else parse_unsigned false s
  | [] => None
  end.

(** [CreateDataProperty] while an object literal is read: a repeated key
    keeps its place and takes the later value. *)
Fixpoint set_field (fields : list (jsstring * json)) (kv : jsstring * json) : list (jsstring * json) :=
  match fields with
  | [] => [kv]
  | (k, v) :: rest =>
    if jsstring_eqb k (fst kv) then (k, snd kv) :: rest else (k, v) :: set_field rest kv
  end.

(** The recursive-descent reader; [fuel] bounds the nesting of calls. Each
    function expects its input with leading white space already skipped. *)
Fixpoint parse_value (fuel : nat) (s : jsstring) : option (json * jsstring) :=
  match fuel with
  | O => None
  | S fuel' =>
    match s with
    | [] => None
    | c :: rest =>
      if (c =? 123)%N then
        match skip_ws rest with
        | d :: rest1 =>
          if (d =? 125)%N then Some (JObj [], rest1)
          else
            match parse_members fuel' (d :: rest1) with
            | Some (fs, rest2) => Some (JObj (fold_left set_field fs []), rest2)
            | None => None
            end
        | [] => None
        end
      else if (c =? 91)%N then
        match skip_ws rest with
        | d :: rest1 =>
          if (d =? 93)%N then Some (JArr [], rest1)
          else
            match parse_elements fuel' (d :: rest1) with
            | Some (vs, rest2) => Some (JArr vs, rest2)
            | None => None
            end
        | [] => None
        end
      else if (c =? 34)%N then
        match parse_chars rest with
        | Some (str, rest1) => Some (JStr str, rest1)
        | None => None
        end
      else if startsWith (js "true") s then Some (JBool true, drop 4 s)
      else if startsWith (js "false") s then Some (JBool false, drop 5 s)
      else if startsWith (js "null") s then Some (JNull, drop 4 s)
      else
        match parse_number s with
        | Some (x, rest1) => Some (JNum x, rest1)
        | None => None
        end
    end
  end
with parse_elements (fuel : nat) (s : jsstring) : option (list json * jsstring) :=
  match fuel with
  | O => None
  | S fuel' =>
    match parse_value fuel' s with
    | Some (v, rest) =>
      match skip_ws rest with
      | c :: rest1 =>
        if (c =? 44)%N then cons_fst v (parse_elements fuel' (skip_ws rest1))
        else if (c =? 93)%N then Some ([v], rest1)
        else None
      | [] => None
      end
    | None => None
    end
  end
with parse_members (fuel : nat) (s : jsstring) : option (list (jsstring * json) * jsstring) :=
  match fuel with
  | O => None
  | S fuel' =>
    match s with
    | q :: rest =>
      if (q =? 34)%N then
        match parse_chars rest with
        | Some (k, rest1) =>
          match skip_ws rest1 with
          | c :: rest2 =>
            if (c =? 58)%N then
              match parse_value fuel' (skip_ws rest2) with
              | Some (v, rest3) =>
                match skip_ws rest3 with
                | d :: rest4 =>
                  if (d =? 44)%N then cons_fst (k, v) (parse_members fuel' (skip_ws rest4))
                  else if (d =? 125)%N then Some ([(k, v)], rest4)
                  else None
                | [] => None
                end
              | None => None
              end
            else None
          | [] => None
          end
        | None => None
        end
      else None
    | [] => None
    end
  end.

(** [JSON.parse(text)]: one value, white space around it, nothing else. A
    [SyntaxError] is [None]. The fuel is more than any text needs: a call
    spends at most two units of it for each code unit it reads
    ([parse_fuel_enough] below). *)
Definition parse (text : jsstring) : option json :=
  match parse_value (2 * length text + 2) (skip_ws text) with
  | Some (v, rest) =>
    match skip_ws rest with
    | [] => Some v
    | _ :: _ => None
    end
  | None => None
  end.

End JSON.

(** ** packages/shared/src/ipc.ts *)

Module Ipc.
Import Js.

(** Prefix that marks a stderr line as an IPC message. *)
Definition IPC_PREFIX : jsstring := js "@flowmate ".

(** [IPC_TYPES.has(v)]. *)
Definition IPC_TYPES_has (v : option json) : bool :=
  is_str "progress" v || is_str "result" v || is_str "error" v.

(** Runtime check that a parsed value conforms to the [IpcMessage] union. *)
Definition isValidIpcMessage (obj : json) : bool :=
  if negb (truthy (Some obj)) || negb (jstype_eqb (typeof (Some obj)) TObject)
     || negb (has "type" obj) then false
  else
    let msg := Some obj in
    if negb (IPC_TYPES_has (get "type" msg)) then false
    else if is_str "progress" (get "type" msg) then
      jstype_eqb (typeof (get "text" msg)) TString
    else if negb (jstype_eqb (typeof (get "costUsd" msg)) TNumber)
            || negb (jstype_eqb (typeof (get "durationMs" msg)) TNumber) then false
    else if negb (truthy (get "tokensUsed" msg))
            || negb (jstype_eqb (typeof (get "tokensUsed" msg)) TObject) then false
    else if is_str "result" (get "type" msg) then
      jstype_eqb (typeof (get "text" msg)) TString
    else
      jstype_eqb (typeof (get "message" msg)) TString.

(** Parse one IPC line (prefix already stripped); [None] is [null]. *)
Definition parseIpcLine (line : jsstring) : option json :=
  let trimmed := trim line in
  match trimmed with
  | [] => None
  | _ :: _ =>
    match JSON.parse trimmed with
    | Some parsed => if isValidIpcMessage parsed then Some parsed else None
    | None => None
    end
  end.

Definition serializeIpc (msg : json) : jsstring := JSON.stringify msg.

(** The message interfaces, and the objects the runner builds for them
    (packages/runner/src/index.ts lists the properties in this order). *)
Record TokenUsage := {
  input : number;
  output : number;
  cacheRead : number;
  cacheWrite : number
}.

Inductive IpcMessage :=
| IpcProgressMessage (text timestamp : jsstring)
| IpcResultMessage (text : jsstring) (costUsd : number) (tokensUsed : TokenUsage)
                   (durationMs numTurns : number)
| IpcErrorMessage (message : jsstring) (costUsd : number) (tokensUsed : TokenUsage)
                  (durationMs numTurns : number).

Definition tokens_object (t : TokenUsage) : json :=
  JObj [(js "input", JNum (input t)); (js "output", JNum (output t));
        (js "cacheRead", JNum (cacheRead t)); (js "cacheWrite", JNum (cacheWrite t))].

Definition message_object (m : IpcMessage) : json :=
  match m with
  | IpcProgressMessage text timestamp =>
    JObj [(js "type", JStr (js "progress")); (js "text", JStr text);
          (js "timestamp", JStr timestamp)]
  | IpcResultMessage text costUsd tokensUsed durationMs numTurns =>
    JObj [(js "type", JStr (js "result")); (js "text", JStr text);
          (js "costUsd", JNum costUsd); (js "tokensUsed", tokens_object tokensUsed);
          (js "durationMs", JNum durationMs); (js "numTurns", JNum numTurns)]
  | IpcErrorMessage message costUsd tokensUsed durationMs numTurns =>
    JObj [(js "type", JStr (js "error")); (js "message", JStr message);
          (js "costUsd", JNum costUsd); (js "tokensUsed", tokens_object tokensUsed);
          (js "durationMs", JNum durationMs); (js "numTurns", JNum numTurns)]
  end.

End Ipc.

(** ** Vocabulary of the JSON round-trip statements *)

Module JsonFacts.
Import Js JSON.

(** What may follow a value inside a text: nothing, a comma, or a closing
    bracket or brace. *)
Definition value_end (rest : jsstring) : bool :=
  match rest with
  | [] => true
  | c :: _ => ((c =? 44) || (c =? 93) || (c =? 125))%N
  end.

(** The numbers JSON text can carry: finite, not negative zero, and with a
    well-formed digit string. *)
Definition representable (x : number) : bool :=
  match x with
  | NaN | Infinity _ => false
  | Zero neg => negb neg
  | Dec _ ds _ => digits_ok ds
  end.

Fixpoint distinct (keys : list jsstring) : bool :=
  match keys with
  | [] => true
  | k :: rest => negb (existsb (jsstring_eqb k) rest) && distinct rest
  end.

(** A value [JSON.stringify] writes without loss: its numbers are
    representable and, as in any JavaScript object, no object has a key twice. *)
Fixpoint json_ok (v : json) : bool :=
  match v with
  | JNull | JBool _ | JStr _ => true
  | JNum x => representable x
  | JArr items => forallb json_ok items
  | JObj fields => distinct (map fst fields) && forallb (fun kv => json_ok (snd kv)) fields
  end.

(** Fuel that [parse_value] needs to read the text of a value. *)
Fixpoint weight (v : json) : nat :=
  match v with
  | JArr items => S (list_sum (map (fun x => S (weight x)) items))
  | JObj fields => S (list_sum (map (fun kv => S (weight (snd kv))) fields))
  | _ => 1%nat
  end.

(** The text of one property of an object. *)
Definition print_member (kv : jsstring * json) : jsstring :=
  QuoteJSONString (fst kv) ++ 58%N :: stringify (snd kv).

(** [parse_value] reads the text of [v] back, whatever follows it. *)
Definition reads_back (v : json) : Prop :=
  forall fuel rest,
    (weight v <= fuel)%nat -> value_end rest = true ->
    parse_value fuel (stringify v ++ rest) = Some (v, rest).

(** What JSON text makes of a number: the sign of a zero is not written. *)
Definition plus_zero (x : number) : number :=
  match x with
  | Zero _ => Zero false
  | _ => x
  end.

Definition read_back_tokens (t : Ipc.TokenUsage) : Ipc.TokenUsage :=
  {| Ipc.input := plus_zero (Ipc.input t); Ipc.output := plus_zero (Ipc.output t);
     Ipc.cacheRead := plus_zero (Ipc.cacheRead t);
     Ipc.cacheWrite := plus_zero (Ipc.cacheWrite t) |}.

(** The message with every negative zero replaced by 0; a message without
    a negative zero is left as it is. *)
Definition read_back (m : Ipc.IpcMessage) : Ipc.IpcMessage :=
  match m with
  | Ipc.IpcProgressMessage _ _ => m
  | Ipc.IpcResultMessage text costUsd tokensUsed durationMs numTurns =>
    Ipc.IpcResultMessage text (plus_zero costUsd) (read_back_tokens tokensUsed)
                         (plus_zero durationMs) (plus_zero numTurns)
  | Ipc.IpcErrorMessage message costUsd tokensUsed durationMs numTurns =>
    Ipc.IpcErrorMessage message (plus_zero costUsd) (read_back_tokens tokensUsed)
                        (plus_zero durationMs) (plus_zero numTurns)
  end.

Definition no_negative_zero (x : number) : bool :=
  match x with Zero true => false | _ => true end.

Definition message_numbers (m : Ipc.IpcMessage) : list number :=
  match m with
  | Ipc.IpcProgressMessage _ _ => []
  | Ipc.IpcResultMessage _ costUsd t durationMs numTurns
  | Ipc.IpcErrorMessage _ costUsd t durationMs numTurns =>
    [costUsd; Ipc.input t; Ipc.output t; Ipc.cacheRead t; Ipc.cacheWrite t;
     durationMs; numTurns]
  end.

(** Every number in the message is finite. *)
Definition message_finite (m : Ipc.IpcMessage) : bool := forallb isFinite (message_numbers m).

(** The invariant of the embedding: every digit string is well formed. *)
Definition message_wf (m : Ipc.IpcMessage) : bool := forallb number_ok (message_numbers m).

End JsonFacts.

(** ** JavaScript numbers as the machine holds them: IEEE 754 binary64 *)

Module Double.
Import Js.

(** The double nearest to an integer; exact up to 2^53. *)
Definition of_Z (z : Z) : float := SF2Prim (binary_normalize prec emax z 0 false).

(** The double nearest to the fraction [p / q], ties to the even mantissa. *)
Definition of_ratio (neg : bool) (p q : positive) : float :=
  SF2Prim (SFdiv prec emax (S754_finite neg p 0) (S754_finite false q 0)).

Definition digits_value (ds : list N) : N := fold_left (fun acc d => acc * 10 + d)%N ds 0%N.

(** The Number value of a decimal: what [JSON.parse] hands to the program
    for the digits in the text. *)
Definition of_number (x : number) : float :=
  match x with
  | NaN => nan
  | Infinity neg => if neg then neg_infinity else infinity
  | Zero neg => if neg then neg_zero else zero
  | Dec neg ds n =>
    let e := n - Z.of_nat (length ds) in
    match digits_value ds with
    | Npos p =>
      if 0 <=? e then of_ratio neg (p * Z.to_pos (10 ^ e)) 1
      else of_ratio neg p (Z.to_pos (10 ^ (- e)))
    | N0 => if neg then neg_zero else zero
    end
  end.

(** The real number a finite double is. *)
Definition exact (x : float) : option Q :=
  match Prim2SF x with
  | S754_zero _ => Some 0%Q
  | S754_finite s m e =>
    let v := (inject_Z (Zpos m) * Qpower 2 e)%Q in
    Some (if s then (- v)%Q else v)
  | _ => None
  end.

Definition is_negative_zero (x : float) : bool := is_zero x && get_sign x.
Definition is_positive_zero (x : float) : bool := is_zero x && negb (get_sign x).

(** [Math.max(a, b)] and [Math.min(a, b)]: NaN when either is; +0 is
    above -0. *)
Definition Math_max (a b : float) : float :=
  if is_nan a || is_nan b then nan
  else if is_negative_zero a && is_positive_zero b then b
  else if PrimFloat.ltb a b then b else a.

Definition Math_min (a b : float) : float :=
  if is_nan a || is_nan b then nan
  else if is_positive_zero a && is_negative_zero b then b
  else if PrimFloat.ltb b a then b else a.

(** *** Number::toString on a double *)

Definition digits_of (s : N) : list N := map (fun c => (c - 48)%N) (decimal s).

Fixpoint drop_trailing_zeros (rev_ds : list N) : list N :=
  match rev_ds with
  | 0%N :: rest => drop_trailing_zeros rest
  | _ => rev_ds
  end.

(** The least [n] from [n0] on with [p / q < 10 ^ n]; [to_number] starts
    it just below the mark, from the binary logarithms. *)
Fixpoint magnitude (fuel : nat) (p q : Z) (n : Z) : Z :=
  match fuel with
  | O => n
  | S fuel' =>
    let below := if 0 <=? n then p <? q * 10 ^ n else p * 10 ^ (- n) <? q in
    if below then n else magnitude fuel' p q (n + 1)
  end.

(** [s * 10 ^ e] for a positive [s], as a double. *)
Definition of_scaled (s : positive) (e : Z) : float :=
  if 0 <=? e then of_ratio false (s * Z.to_pos (10 ^ e)) 1
  else of_ratio false s (Z.to_pos (10 ^ (- e))).

(** The candidates with [k] digits for the positive value [p / q] of
    magnitude [n], and the one of them that reads back as [x] and is nearest
    to the value (the even one when both are as near). *)
Definition candidate (x : float) (p q : Z) (n : Z) (k : Z) : option (N * Z) :=
  let e := n - k in
  let num := if 0 <=? e then p else p * 10 ^ (- e) in
  let den := if 0 <=? e then q * 10 ^ e else q in
  let lo := num / den in
  let r := num - lo * den in
  let hi := lo + 1 in
  let ok s := match s with Zpos sp => PrimFloat.eqb (of_scaled sp e) x | _ => false end in
  let pick s := if s =? 10 ^ k then Some (Z.to_N (10 ^ (k - 1)), n + 1) else Some (Z.to_N s, n) in
  match ok lo, ok hi with
  | true, true =>
    match 2 * r ?= den with
    | Lt => pick lo
    | Gt => pick hi
    | Eq => if Z.even lo then pick lo else pick hi
    end
  | true, false => pick lo
  | false, true => pick hi
  | false, false => None
  end.

Fixpoint shortest (fuel : nat) (x : float) (p q : Z) (n : Z) (k : Z) : option (N * Z) :=
  match fuel with
  | O => None
  | S fuel' =>
    match candidate x p q n k with
    | Some r => Some r
    | None => shortest fuel' x p q n (k + 1)
    end
  end.

(** The digits and exponent [Number::toString] works with: the shortest
    decimal that reads back as the double. *)
Definition to_number (x : float) : number :=
  match Prim2SF x with
  | S754_nan => NaN
  | S754_infinity s => Infinity s
  | S754_zero s => Zero s
  | S754_finite s m e =>
    let p := if 0 <=? e then Zpos m * 2 ^ e else Zpos m in
    let q := if 0 <=? e then 1 else 2 ^ (- e) in
    let n := magnitude 8 p q ((Z.log2 p - Z.log2 q - 1) * 30103 / 100000 - 1) in
    match shortest 17 (PrimFloat.abs x) p q n 1 with
    | Some (digits, n') => Dec s (rev (drop_trailing_zeros (rev (digits_of digits)))) n'
    | None => NaN
    end
  end.

(** [String(x)]. *)
Definition toString (x : float) : jsstring := Number_toString (to_number x).

End Double.

(** ** packages/db/src/schema.ts: the tables the orchestrator writes *)

Module Db.
Import Js.

Inductive ExecutionStatus :=
| StatusPending | StatusRunning | StatusCompleted | StatusFailed | StatusError | StatusTimeout.

Definition is_terminal (s : ExecutionStatus) : bool :=
  match s with
  | StatusPending | StatusRunning => false
  | _ => true
  end.

(** A row of [executions]. Columns filled from a worker message hold the
    JavaScript value handed to the driver; [None] is NULL. *)
Record ExecutionRow := {
  id : Z;
  conversationId : Z;
  containerId : option jsstring;
  model : option jsstring;
  status : ExecutionStatus;
  prompt : jsstring;
  resultText : option json;
  errorMessage : option json;
  costUsd : option json;
  inputTokens : option json;
  outputTokens : option json;
  cacheReadTokens : option json;
  cacheWriteTokens : option json;
  durationMs : option json;
  numTurns : option json;
  startedAt : option jsstring;
  finishedAt : option jsstring
}.

(** The object given to [.set(...)]: a column that is absent or [undefined]
    is [None] and is left as it was. *)
Record ExecutionPatch := {
  set_containerId : option jsstring;
  set_status : option ExecutionStatus;
  set_resultText : option json;
  set_errorMessage : option json;
  set_costUsd : option json;
  set_inputTokens : option json;
  set_outputTokens : option json;
  set_cacheReadTokens : option json;
  set_cacheWriteTokens : option json;
  set_durationMs : option json;
  set_numTurns : option json;
  set_finishedAt : option jsstring
}.

Definition no_patch : ExecutionPatch :=
  {| set_containerId := None; set_status := None; set_resultText := None;
     set_errorMessage := None; set_costUsd := None; set_inputTokens := None;
     set_outputTokens := None; set_cacheReadTokens := None; set_cacheWriteTokens := None;
     set_durationMs := None; set_numTurns := None; set_finishedAt := None |}.

Definition or_keep {A} (new old : option A) : option A :=
  match new with Some _ => new | None => old end.

Definition apply_patch (p : ExecutionPatch) (r : ExecutionRow) : ExecutionRow :=
  {| id := id r;
     conversationId := conversationId r;
     containerId := or_keep (set_containerId p) (containerId r);
     model := model r;
     status := match set_status p with Some s => s | None => status r end;
     prompt := prompt r;
     resultText := or_keep (set_resultText p) (resultText r);
     errorMessage := or_keep (set_errorMessage p) (errorMessage r);
     costUsd := or_keep (set_costUsd p) (costUsd r);
     inputTokens := or_keep (set_inputTokens p) (inputTokens r);
     outputTokens := or_keep (set_outputTokens p) (outputTokens r);
     cacheReadTokens := or_keep (set_cacheReadTokens p) (cacheReadTokens r);
     cacheWriteTokens := or_keep (set_cacheWriteTokens p) (cacheWriteTokens r);
     durationMs := or_keep (set_durationMs p) (durationMs r);
     numTurns := or_keep (set_numTurns p) (numTurns r);
     startedAt := startedAt r;
     finishedAt := or_keep (set_finishedAt p) (finishedAt r) |}.

Inductive MessageRole := RoleUser | RoleAssistant | RoleSystem.

(** A row of [messages]. [created_at] is filled by the column's default,
    [new Date().toISOString()] at the insert; the list is in order of
    insertion, which is the order of the row ids. *)
Record MessageRow := {
  msg_conversationId : Z;
  msg_role : MessageRole;
  msg_content : jsstring;
  msg_createdAt : jsstring
}.

(** What SQLite holds in a cell of the REAL column [cost_usd] that is not
    NULL: a double, or a text that was bound to it. *)
Inductive Stored :=
| Real (x : float)
| Text (s : jsstring).

(** The database, with the journal of every UPDATE of [executions] that
    was run (oldest first). [SUM] is the engine's aggregate over the cost
    cells that are not NULL, each given with the [started_at] of its row, in
    order of the row ids: the order in which the engine visits the rows (by
    row id, or by [started_at] along [exec_started_at_idx]) and the way it
    adds doubles belong to the SQLite build, not to this program. *)
Record FlowmateDb := {
  executions : list ExecutionRow;
  messages : list MessageRow;
  journal : list (Z * ExecutionPatch);
  SUM : list (jsstring * Stored) -> float
}.

(** [db.insert(executions).values(...).returning().get()]: the new row
    takes the next autoincrement id. *)
Definition next_id (db : FlowmateDb) : Z :=
  1 + fold_right Z.max 0 (map id (executions db)).

Definition insert_execution (conv : Z) (mdl prm started : jsstring) (db : FlowmateDb)
  : FlowmateDb * ExecutionRow :=
  let row :=
    {| id := next_id db; conversationId := conv; containerId := None;
       model := Some mdl; status := StatusPending; prompt := prm;
       resultText := None; errorMessage := None; costUsd := None;
       inputTokens := None; outputTokens := None; cacheReadTokens := None;
       cacheWriteTokens := None; durationMs := None; numTurns := None;
       startedAt := Some started; finishedAt := None |} in
  ({| executions := executions db ++ [row]; messages := messages db;
      journal := journal db; SUM := SUM db |}, row).

(** The columns of a patch that take their value from a worker message,
    in the order of the table, which is the order of the SET clause. *)
Inductive Column :=
| ColResultText | ColErrorMessage | ColCostUsd | ColInputTokens | ColOutputTokens
| ColCacheReadTokens | ColCacheWriteTokens | ColDurationMs | ColNumTurns.

Definition columns : list Column :=
  [ColResultText; ColErrorMessage; ColCostUsd; ColInputTokens; ColOutputTokens;
   ColCacheReadTokens; ColCacheWriteTokens; ColDurationMs; ColNumTurns].

Definition Column_eqb (a b : Column) : bool :=
  match a, b with
  | ColResultText, ColResultText | ColErrorMessage, ColErrorMessage
  | ColCostUsd, ColCostUsd | ColInputTokens, ColInputTokens
  | ColOutputTokens, ColOutputTokens | ColCacheReadTokens, ColCacheReadTokens
  | ColCacheWriteTokens, ColCacheWriteTokens | ColDurationMs, ColDurationMs
  | ColNumTurns, ColNumTurns => true
  | _, _ => false
  end.

Definition column (c : Column) (p : ExecutionPatch) : option json :=
  match c with
  | ColResultText => set_resultText p
  | ColErrorMessage => set_errorMessage p
  | ColCostUsd => set_costUsd p
  | ColInputTokens => set_inputTokens p
  | ColOutputTokens => set_outputTokens p
  | ColCacheReadTokens => set_cacheReadTokens p
  | ColCacheWriteTokens => set_cacheWriteTokens p
  | ColDurationMs => set_durationMs p
  | ColNumTurns => set_numTurns p
  end.

(** The parameters of the statement that come from the message, one for
    each column that is set. *)
Definition parameters (p : ExecutionPatch) : list (Column * json) :=
  omap (fun c => option_map (pair c) (column c p)) columns.

(** A value the driver binds to one parameter: a number, a string or
    null. *)
Definition bindable (v : json) : bool :=
  match v with
  | JNull | JNum _ | JStr _ => true
  | _ => false
  end.

Definition is_object (v : json) : bool :=
  match v with JObj _ => true | _ => false end.

(** What one argument of [stmt.run(...params)] gives the driver to bind: an
    array gives its elements, each one a value by itself; a plain object
    stands for named parameters, of which the statement has none; a boolean
    is refused. *)
Definition bound_values (v : json) : option (list json) :=
  match v with
  | JBool _ => None
  | JArr items => if forallb bindable items then Some items else None
  | JObj _ => Some []
  | _ => Some [v]
  end.

Fixpoint all_bound_values (args : list json) : option (list json) :=
  match args with
  | [] => Some []
  | v :: rest =>
    match bound_values v, all_bound_values rest with
    | Some vs, Some ws => Some (vs ++ ws)
    | _, _ => None
    end
  end.

Definition assigned (c : Column) (l : list (Column * json)) : option json :=
  option_map snd (List.find (fun e => Column_eqb (fst e) c) l).

(** The binding of a patch by the driver: [None] when [run] throws (a
    value it cannot bind, a second plain object, or values too few or too
    many for the parameters), and otherwise the patch as SQLite receives it,
    the values taken in order (so that an array of two values next to an
    object fills two columns). The status, the container id and the finish
    time are strings, and no statement of the program has one of them
    between two columns of the message. *)
Definition bind (p : ExecutionPatch) : option ExecutionPatch :=
  let params := parameters p in
  match all_bound_values (map snd params) with
  | Some values =>
    if (1 <? length (filter (fun v => is_object v = true) (map snd params)))%nat then None
    else if (length values =? length params)%nat then
      let l := combine (map fst params) values in
      Some {| set_containerId := set_containerId p;
              set_status := set_status p;
              set_resultText := assigned ColResultText l;
              set_errorMessage := assigned ColErrorMessage l;
              set_costUsd := assigned ColCostUsd l;
              set_inputTokens := assigned ColInputTokens l;
              set_outputTokens := assigned ColOutputTokens l;
              set_cacheReadTokens := assigned ColCacheReadTokens l;
              set_cacheWriteTokens := assigned ColCacheWriteTokens l;
              set_durationMs := assigned ColDurationMs l;
              set_numTurns := assigned ColNumTurns l;
              set_finishedAt := set_finishedAt p |}
    else None
  | None => None
  end.

(** [db.update(executions).set(p).where(eq(executions.id, i)).run()], for a
    patch the driver has bound. *)
Definition update_execution (i : Z) (p : ExecutionPatch) (db : FlowmateDb) : FlowmateDb :=
  {| executions := map (fun r => if (id r =? i)%Z then apply_patch p r else r) (executions db);
     messages := messages db;
     journal := journal db ++ [(i, p)];
     SUM := SUM db |}.

Definition find_execution (i : Z) (db : FlowmateDb) : option ExecutionRow :=
  List.find (fun r => (id r =? i)%Z) (executions db).

(** The statuses written to execution [i], oldest first. *)
Definition status_writes (i : Z) (db : FlowmateDb) : list ExecutionStatus :=
  omap (fun e => if (fst e =? i)%Z then set_status (snd e) else None) (journal db).

Definition terminal_writes (i : Z) (db : FlowmateDb) : list ExecutionStatus :=
  filter (fun s => is_terminal s = true) (status_writes i db).

End Db.

(** ** orchestrator/services/cost-tracker *)

Module CostTracker.
Import Js.

(** What the driver stores in [cost_usd] for the value it was given: a
    number goes in as the double it is, a string as text (what the column's
    REAL affinity makes of a text that reads as a number is the engine's
    affair); a NaN, like null, gives NULL. No other value is ever bound. *)
Definition cell (c : option json) : option Db.Stored :=
  match c with
  | Some (JNum x) =>
    let d := Double.of_number x in
    if is_nan d then None else Some (Db.Real d)
  | Some (JStr s) => Some (Db.Text s)
  | _ => None
  end.

(** Comparison of TEXT values, code unit by code unit. *)
Fixpoint text_compare (a b : jsstring) : comparison :=
  match a, b with
  | [], [] => Eq
  | [], _ :: _ => Lt
  | _ :: _, [] => Gt
  | x :: a', y :: b' =>
    match (x ?= y)%N with
    | Eq => text_compare a' b'
    | c => c
    end
  end.

(** [started_at >= start AND started_at < end]; a NULL never matches. *)
Definition in_range (range : jsstring * jsstring) (startedAt : option jsstring) : bool :=
  match startedAt with
  | Some s =>
    match text_compare s (fst range) with Lt => false | _ => true end
    && match text_compare s (snd range) with Lt => true | _ => false end
  | None => false
  end.

(** The cost cells the query of [getDailyCost] adds up: those of the
    executions started within the range that are not NULL. *)
Definition cost_cells (db : Db.FlowmateDb) (range : jsstring * jsstring)
  : list (jsstring * Db.Stored) :=
  omap (fun r =>
          match Db.startedAt r, cell (Db.costUsd r) with
          | Some started, Some v =>
            if in_range range (Some started) then Some (started, v) else None
          | _, _ => None
          end)
       (Db.executions db).

(** [getDailyCost()]: [COALESCE(SUM(cost_usd), 0)] over the executions
    started today; SUM is NULL when it has no value to add. [today] is
    [dateRangeInTz(todayInTz(tz), tz)], which the runtime's time-zone
    database determines. *)
Definition getDailyCost (db : Db.FlowmateDb) (today : jsstring * jsstring) : float :=
  match cost_cells db today with
  | [] => zero
  | cells => Db.SUM db cells
  end.

(** The tracker's own state: the counter, and the [released] flag of
    every release function handed out so far, by order of creation. *)
Record t := {
  pendingReservations : Z;
  released : list bool
}.

Definition new : t := {| pendingReservations := 0; released := [] |}.

Record Budget := {
  allowed : bool;
  remaining : float
}.

(** [checkBudget(dailyLimit, maxBudgetPerTask = 0)]. The count of pending
    reservations is a whole number far below 2^53, which [Double.of_Z]
    gives exactly. *)
Definition checkBudget (db : Db.FlowmateDb) (today : jsstring * jsstring) (tr : t)
    (dailyLimit : float) (maxBudgetPerTask : option float) : Budget :=
  let cap := match maxBudgetPerTask with Some c => c | None => zero end in
  let used := getDailyCost db today in
  let reserved := PrimFloat.mul (Double.of_Z (pendingReservations tr)) cap in
  let remaining :=
    Double.Math_max zero (PrimFloat.sub (PrimFloat.sub dailyLimit used) reserved) in
  {| allowed := PrimFloat.leb cap remaining; remaining := remaining |}.

(** [reserve()]: the result names the release function that was created. *)
Definition reserve (tr : t) : t * nat :=
  ({| pendingReservations := pendingReservations tr + 1;
      released := released tr ++ [false] |},
   length (released tr)).

(** A call of release function [h]. *)
Definition release (h : nat) (tr : t) : t :=
  match released tr !! h with
  | Some false =>
    {| pendingReservations := pendingReservations tr - 1;
       released := <[h := true]> (released tr) |}
  | _ => tr
  end.

End CostTracker.

(** ** orchestrator/container: the two worker backends *)

Module Runner.
Import Js.

(** What the runtime reports about a spawned child: a chunk of stdout, one
    line of stderr (readline), the process exit, and the closing of all its
    streams. *)
Inductive ChildEvent :=
| StdoutData (chunk : jsstring)
| StderrLine (line : jsstring)
| ChildExit (code : option Z) (signal : option jsstring)
| ChildClose (code : option Z) (signal : option jsstring).

(** [RunCallbacks]: what a backend calls back. *)
Inductive Callback :=
| onMessage (msg : json)
| onExit (code : option Z) (signal : option jsstring).

Inductive LogLine :=
| DebugStdout (chunk : jsstring)
| DebugStderr (line : jsstring)
| WarnMalformed (line : jsstring)
| ErrorFailed (code : option Z) (stderr : jsstring).

(** The state one [run] call closes over, with the trace of the callbacks
    it has made (oldest first). *)
Record Child := {
  containerId : jsstring;
  tmpPath : option jsstring;
  files : list jsstring;
  stderrBuf : jsstring;
  processes : list jsstring;
  calls : list Callback;
  log : list LogLine
}.

Definition Z_toString (z : Z) : jsstring :=
  if z <? 0 then js "-" ++ decimal (Z.to_N (- z)) else decimal (Z.to_N z).

Definition with_call (c : Callback) (st : Child) : Child :=
  {| containerId := containerId st; tmpPath := tmpPath st; files := files st;
     stderrBuf := stderrBuf st; processes := processes st;
     calls := calls st ++ [c]; log := log st |}.

Definition with_log (l : LogLine) (st : Child) : Child :=
  {| containerId := containerId st; tmpPath := tmpPath st; files := files st;
     stderrBuf := stderrBuf st; processes := processes st;
     calls := calls st; log := log st ++ [l] |}.

Definition with_stderrBuf (b : jsstring) (st : Child) : Child :=
  {| containerId := containerId st; tmpPath := tmpPath st; files := files st;
     stderrBuf := b; processes := processes st;
     calls := calls st; log := log st |}.

(** [fs.unlinkSync(tmpPath)] when a temporary file was written; an error is
    ignored. *)
Definition unlink_tmp (st : Child) : Child :=
  match tmpPath st with
  | Some p =>
    {| containerId := containerId st; tmpPath := tmpPath st;
       files := filter (fun f => f <> p) (files st);
       stderrBuf := stderrBuf st; processes := processes st;
       calls := calls st; log := log st |}
  | None => st
  end.

Definition forget_process (st : Child) : Child :=
  {| containerId := containerId st; tmpPath := tmpPath st; files := files st;
     stderrBuf := stderrBuf st;
     processes := filter (fun p => p <> containerId st) (processes st);
     calls := calls st; log := log st |}.

(** The interface both backends implement: how [run] starts, and what its
    listeners do with an event. *)
Class RunnerBackend := {
  run : Z -> option jsstring -> Child;
  handle : Child -> ChildEvent -> Child
}.

Definition deliver `{RunnerBackend} (st : Child) (evs : list ChildEvent) : Child :=
  fold_left handle evs st.

End Runner.

Module ContainerManager.
Import Js Ipc Runner.

(** [run]: the child is [podman run ...]; [tmp] is the temporary file the
    task configuration went to when it was over 128 KB. *)
Definition run (executionId : Z) (tmp : option jsstring) : Child :=
  {| containerId := js "flowmate-" ++ Z_toString executionId;
     tmpPath := tmp;
     files := match tmp with Some p => [p] | None => [] end;
     stderrBuf := [];
     processes := [];
     calls := [];
     log := [] |}.

(** The [rl.on("line", ...)] listener. *)
Definition on_line (st : Child) (line : jsstring) : Child :=
  if startsWith IPC_PREFIX line then
    match parseIpcLine (slice (Z.of_nat (length IPC_PREFIX)) line) with
    | Some msg => with_call (onMessage msg) st
    | None => with_log (WarnMalformed line) st
    end
  else with_log (DebugStderr line) st.

(** The [child.on("close", ...)] listener. *)
Definition on_close (st : Child) (code : option Z) (signal : option jsstring) : Child :=
  with_call (onExit code signal) (unlink_tmp st).

Definition handle (st : Child) (ev : ChildEvent) : Child :=
  match ev with
  | StdoutData chunk => with_log (DebugStdout chunk) st
  | StderrLine line => on_line st line
  | ChildExit _ _ => st
  | ChildClose code signal => on_close st code signal
  end.

#[export] Instance backend : RunnerBackend := {| Runner.run := run; Runner.handle := handle |}.

End ContainerManager.

Module LocalRunner.
Import Js Ipc Runner.

(** Maximum stderr buffer size. *)
Definition MAX_STDERR_BUF : Z := 10 * 1024.

Definition run (executionId : Z) (tmp : option jsstring) : Child :=
  let processId := js "local-" ++ Z_toString executionId in
  {| containerId := processId;
     tmpPath := tmp;
     files := match tmp with Some p => [p] | None => [] end;
     stderrBuf := [];
     processes := [processId];
     calls := [];
     log := [] |}.

Definition on_line (st : Child) (line : jsstring) : Child :=
  if startsWith IPC_PREFIX line then
    match parseIpcLine (slice (Z.of_nat (length IPC_PREFIX)) line) with
    | Some msg => with_call (onMessage msg) st
    | None => with_log (WarnMalformed line) st
    end
  else
    let buf := stderrBuf st ++ line ++ [10%N] in
    let buf := if MAX_STDERR_BUF <? Z.of_nat (length buf)
               then slice (- MAX_STDERR_BUF) buf else buf in
    with_log (DebugStderr line) (with_stderrBuf buf st).

Definition on_close (st : Child) (code : option Z) (signal : option jsstring) : Child :=
  let st := unlink_tmp (forget_process st) in
  let failed :=
    negb (bool_decide (code = Some 0))
    && match trim (stderrBuf st) with [] => false | _ => true end in
  let st := if failed then with_log (ErrorFailed code (trim (stderrBuf st))) st else st in
  with_call (onExit code signal) st.

Definition handle (st : Child) (ev : ChildEvent) : Child :=
  match ev with
  | StdoutData chunk => with_log (DebugStdout chunk) st
  | StderrLine line => on_line st line
  | ChildExit _ _ => st
  | ChildClose code signal => on_close st code signal
  end.

#[export] Instance backend : RunnerBackend := {| Runner.run := run; Runner.handle := handle |}.

End LocalRunner.

(** ** packages/shared/src/types.ts *)

Module Types.
Import Js.

(** A single message in the conversation history passed to the runner. *)
Record ConversationMessage := {
  role : Db.MessageRole;
  content : jsstring
}.

Record Attachment := {
  filename : jsstring;
  mimeType : jsstring;
  base64 : jsstring
}.

(** One argument of an MCP server command: a string, or [String(x)] of an
    amount [x]. *)
Inductive McpArg :=
| ArgText (s : jsstring)
| ArgAmount (x : float).

Record McpServerConfig := {
  command : jsstring;
  args : list McpArg
}.

(** Per-execution resource limits. *)
Record TaskLimits := {
  maxBudgetPerTask : float;
  maxTurnsPerTask : Z;
  taskTimeoutMs : Z
}.

End Types.

Module TaskConfig.
Import Js Types.

(** Complete configuration passed to the runner process. *)
Record t := {
  executionId : Z;
  model : jsstring;
  conversationMessages : list ConversationMessage;
  prompt : jsstring;
  attachments : option (list Attachment);
  workingDirectory : jsstring;
  allowedDirectories : list jsstring;
  mcpServers : list (jsstring * McpServerConfig);
  limits : TaskLimits;
  tools : list jsstring;
  skills_enabled : bool
}.

End TaskConfig.

Module FlowmateConfig.
Import Js Types.

Record Limits := {
  maxBudgetPerTask : float;
  maxTurnsPerTask : Z;
  taskTimeoutMs : Z;
  dailyBudgetLimit : float;
  maxHistoryMessages : Z
}.

(** Top-level application configuration; [database_path] is the resolved
    path of the database file. *)
Record t := {
  model : jsstring;
  timezone : jsstring;
  database_path : jsstring;
  allowedDirectories : list jsstring;
  defaultWorkingDirectory : jsstring;
  limits : Limits;
  tools : list jsstring;
  skills_enabled : bool;
  mcpServers : list (jsstring * McpServerConfig)
}.

End FlowmateConfig.

(** ** orchestrator/context/thread-manager *)

Module ThreadManager.
Import Js Types.

Record Conversation := {
  id : Z;
  channelId : jsstring;
  threadTs : jsstring;
  userId : jsstring
}.

(** [ORDER BY created_at]: the rows in ascending order of their stamp,
    rows of the same stamp in the order of their row ids, which is the order
    [msg_conversation_created_idx] has them in. A row is put before the first
    row whose stamp is strictly later. (The stamps are ISO timestamps, on
    which SQLite's order of TEXT is the order of the code units.) *)
Fixpoint insert_by_createdAt (r : Db.MessageRow) (sorted : list Db.MessageRow)
  : list Db.MessageRow :=
  match sorted with
  | [] => [r]
  | x :: rest =>
    match CostTracker.text_compare (Db.msg_createdAt r) (Db.msg_createdAt x) with
    | Lt => r :: x :: rest
    | _ => x :: insert_by_createdAt r rest
    end
  end.

Definition order_by_createdAt (rows : list Db.MessageRow) : list Db.MessageRow :=
  fold_left (fun sorted r => insert_by_createdAt r sorted) rows [].

(** Load all messages for a conversation in chronological order. *)
Definition getConversationHistory (db : Db.FlowmateDb) (conversationId : Z)
  : list ConversationMessage :=
  map (fun r => {| role := Db.msg_role r; content := Db.msg_content r |})
      (order_by_createdAt
         (filter (fun r => Db.msg_conversationId r = conversationId) (Db.messages db))).

End ThreadManager.

(** ** orchestrator/services/execution.ts *)

Module Execution.
Import Js Types.

(** Keep only the most recent messages when history exceeds the limit, and
    prepend a system note. (The log line it writes is not modelled.) *)
Definition truncateHistory (history : list ConversationMessage) (maxMessages : Z)
  : list ConversationMessage :=
  if Z.of_nat (length history) <=? maxMessages then history
  else
    let omitted := Z.of_nat (length history) - maxMessages in
    let recent := slice (- maxMessages) history in
    {| role := Db.RoleSystem;
       content := js "[" ++ Runner.Z_toString omitted
                    ++ js " earlier messages omitted for context window efficiency]" |}
    :: recent.

(** Successful execution outcome returned to the caller. *)
Record ExecutionResult := {
  text : option json;
  costUsd : option json;
  executionId : Z
}.

(** How the promise [execute] returns settles; an [Error] is given by its
    message. *)
Inductive Outcome :=
| Resolved (r : ExecutionResult)
| Rejected (message : jsstring).

(** Calls made on the runner backend. *)
Inductive RunnerCall :=
| CallRun (taskConfig : TaskConfig.t)
| CallKill (containerId : jsstring).

(** The service object: the database and the tracker it shares, the
    in-flight map (execution id to [entry.runnerId]) and the calls it has
    made on the backend. *)
Record Service := {
  db : Db.FlowmateDb;
  costTracker : CostTracker.t;
  activeExecutions : gmap Z (option jsstring);
  runner : list RunnerCall
}.

(** The variables one [execute] call closes over. [timer] tells whether
    the timeout is still scheduled; [settled] is the state of the promise;
    [progress] lists the calls of [params.onProgress], oldest first. *)
Record Closure := {
  execution : Z;
  releaseReservation : nat;
  onProgress : bool;
  resultReceived : bool;
  runnerId : option jsstring;
  timer : bool;
  lastProgressTime : Z;
  settled : option Outcome;
  progress : list (option json)
}.

Record Params := {
  conversation : ThreadManager.Conversation;
  prompt : jsstring;
  attachments : option (list Attachment);
  has_onProgress : bool
}.

(** What the runtime provides at a call: [Date.now()] and
    [new Date().toISOString()]. *)
Record Clock := {
  Date_now : Z;
  toISOString : jsstring
}.

(** [x.toFixed(2)]: the nearest number of hundredths to the exact value
    of [x], the larger of two that are equally near; a value that is not
    finite, or of magnitude 10^21 or more, is printed as [String(x)]. *)
Definition toFixed2 (x : float) : jsstring :=
  match Double.exact x with
  | None => Double.toString x
  | Some q =>
    let neg := match (q ?= 0)%Q with Lt => true | _ => false end in
    let a := if neg then (- q)%Q else q in
    if Qle_bool (inject_Z (10 ^ 21)) a then Double.toString x
    else
      let n := Qfloor (a * 100 + (1 # 2))%Q in
      let ds := decimal (Z.to_N n) in
      let ds := repeat 48%N (3 - length ds) ++ ds in
      (if neg then js "-" else [])
        ++ take (length ds - 2) ds ++ js "." ++ drop (length ds - 2) ds
  end.

(** [ToString] of a value, as [new Error(v)] and template literals apply
    it; an absent value gives the empty message. *)
Fixpoint ToString (v : json) : jsstring :=
  match v with
  | JNull => js "null"
  | JBool true => js "true"
  | JBool false => js "false"
  | JNum x => Number_toString x
  | JStr s => s
  | JArr items =>
    JSON.join_comma (map (fun x => match x with JNull => [] | _ => ToString x end) items)
  | JObj _ => js "[object Object]"
  end.

Definition Error_message (v : option json) : jsstring :=
  match v with Some x => ToString x | None => [] end.

Definition or_null (s : option jsstring) : jsstring :=
  match s with Some x => x | None => js "null" end.

(** [{ ...config.mcpServers, flowmate: entry }]. *)
Fixpoint with_flowmate (servers : list (jsstring * McpServerConfig)) (entry : McpServerConfig)
  : list (jsstring * McpServerConfig) :=
  match servers with
  | [] => [(js "flowmate", entry)]
  | (k, v) :: rest =>
    if jsstring_eqb k (js "flowmate") then (k, entry) :: rest
    else (k, v) :: with_flowmate rest entry
  end.

Definition set_settled (o : option Outcome) (c : Closure) : Closure :=
  {| execution := execution c; releaseReservation := releaseReservation c;
     onProgress := onProgress c; resultReceived := resultReceived c;
     runnerId := runnerId c; timer := timer c;
     lastProgressTime := lastProgressTime c; settled := o; progress := progress c |}.

Definition set_timer (b : bool) (c : Closure) : Closure :=
  {| execution := execution c; releaseReservation := releaseReservation c;
     onProgress := onProgress c; resultReceived := resultReceived c;
     runnerId := runnerId c; timer := b;
     lastProgressTime := lastProgressTime c; settled := settled c; progress := progress c |}.

Definition set_resultReceived (b : bool) (c : Closure) : Closure :=
  {| execution := execution c; releaseReservation := releaseReservation c;
     onProgress := onProgress c; resultReceived := b;
     runnerId := runnerId c; timer := timer c;
     lastProgressTime := lastProgressTime c; settled := settled c; progress := progress c |}.

Definition set_runnerId (r : option jsstring) (c : Closure) : Closure :=
  {| execution := execution c; releaseReservation := releaseReservation c;
     onProgress := onProgress c; resultReceived := resultReceived c;
     runnerId := r; timer := timer c;
     lastProgressTime := lastProgressTime c; settled := settled c; progress := progress c |}.

Definition call_onProgress (now : Z) (v : option json) (c : Closure) : Closure :=
  {| execution := execution c; releaseReservation := releaseReservation c;
     onProgress := onProgress c; resultReceived := resultReceived c;
     runnerId := runnerId c; timer := timer c;
     lastProgressTime := now; settled := settled c; progress := progress c ++ [v] |}.

Definition with_db (d : Db.FlowmateDb) (s : Service) : Service :=
  {| db := d; costTracker := costTracker s; activeExecutions := activeExecutions s;
     runner := runner s |}.

Definition with_runner_call (k : RunnerCall) (s : Service) : Service :=
  {| db := db s; costTracker := costTracker s; activeExecutions := activeExecutions s;
     runner := runner s ++ [k] |}.

(** [resolve]/[reject]: only the first call settles the promise; the
    [finally] callback then drops the execution from the in-flight map and
    calls [releaseReservation]. *)
Definition settle (o : Outcome) (sc : Service * Closure) : Service * Closure :=
  let '(s, c) := sc in
  match settled c with
  | Some _ => (s, c)
  | None =>
    ({| db := db s;
        costTracker := CostTracker.release (releaseReservation c) (costTracker s);
        activeExecutions := delete (execution c) (activeExecutions s);
        runner := runner s |},
     set_settled (Some o) c)
  end.

Definition PROGRESS_DEBOUNCE_MS : Z := 3000.

(** The callback given to [setTimeout]. *)
Definition on_timeout (clock : Clock) (sc : Service * Closure) : Service * Closure :=
  let '(s, c) := sc in
  let c := set_timer false c in
  if negb (resultReceived c) then
    let s := match runnerId c with
             | Some (u :: r) => with_runner_call (CallKill (u :: r)) s
             | _ => s
             end in
    let s := with_db (Db.update_execution (execution c)
                {| Db.set_containerId := None;
                   Db.set_status := Some Db.StatusTimeout;
                   Db.set_resultText := None;
                   Db.set_errorMessage := Some (JStr (js "Task timed out"));
                   Db.set_costUsd := None; Db.set_inputTokens := None;
                   Db.set_outputTokens := None; Db.set_cacheReadTokens := None;
                   Db.set_cacheWriteTokens := None; Db.set_durationMs := None;
                   Db.set_numTurns := None;
                   Db.set_finishedAt := Some (toISOString clock) |} (db s)) s in
    settle (Rejected (js "Task timed out")) (s, c)
  else (s, c).

(** [msg === null]: reading a property of it throws a TypeError. *)
Definition is_null (msg : json) : bool :=
  match msg with JNull => true | _ => false end.

(** What a callback can throw: the TypeError of a property read on
    [undefined] or null, and the error (a TypeError or a RangeError) with
    which the driver refuses the parameters of a statement. *)
Inductive Exception :=
| TypeError
| BindError.

(** The object literal given to [.set(...)] for a result or an error
    message. Reading [msg.tokensUsed.input] throws a TypeError when
    [tokensUsed] is absent or null; a property of any other value that does
    not have it is [undefined], and the column is left out. *)
Definition report (status : Db.ExecutionStatus) (msg : json) (clock : Clock)
  : Exception + Db.ExecutionPatch :=
  let m := Some msg in
  match get "tokensUsed" m with
  | None | Some JNull => inl TypeError
  | Some _ =>
    inr {| Db.set_containerId := None;
           Db.set_status := Some status;
           Db.set_resultText :=
             match status with Db.StatusCompleted => get "text" m | _ => None end;
           Db.set_errorMessage :=
             match status with Db.StatusCompleted => None | _ => get "message" m end;
           Db.set_costUsd := get "costUsd" m;
           Db.set_inputTokens := get "input" (get "tokensUsed" m);
           Db.set_outputTokens := get "output" (get "tokensUsed" m);
           Db.set_cacheReadTokens := get "cacheRead" (get "tokensUsed" m);
           Db.set_cacheWriteTokens := get "cacheWrite" (get "tokensUsed" m);
           Db.set_durationMs := get "durationMs" m;
           Db.set_numTurns := get "numTurns" m;
           Db.set_finishedAt := Some (toISOString clock) |}
  end.

(** The patch of a report as SQLite receives it, or what building it or
    running the statement throws. *)
Definition prepare (status : Db.ExecutionStatus) (msg : json) (clock : Clock)
  : Exception + Db.ExecutionPatch :=
  match report status msg clock with
  | inl e => inl e
  | inr patch =>
    match Db.bind patch with
    | Some bound => inr bound
    | None => inl BindError
    end
  end.

(** The [onMessage] callback given to [runner.run]: the state it leaves,
    and the exception it throws, if any. A result or an error message first
    sets [resultReceived] and clears the timer; when the UPDATE then throws,
    nothing is written and the promise is not settled. Reading [msg.type]
    of null throws before anything is done. *)
Definition on_message (msg : json) (clock : Clock) (sc : Service * Closure)
  : Service * Closure * option Exception :=
  let '(s, c) := sc in
  let m := Some msg in
  if is_null msg then (s, c, Some TypeError)
  else if is_str "progress" (get "type" m) && onProgress c then
    let now := Date_now clock in
    if PROGRESS_DEBOUNCE_MS <=? now - lastProgressTime c then
      (s, call_onProgress now (get "text" m) c, None)
    else (s, c, None)
  else if is_str "result" (get "type" m) then
    let c := set_timer false (set_resultReceived true c) in
    match prepare Db.StatusCompleted msg clock with
    | inl e => (s, c, Some e)
    | inr patch =>
      let s := with_db (Db.update_execution (execution c) patch (db s)) s in
      (settle (Resolved {| text := get "text" m; costUsd := get "costUsd" m;
                           executionId := execution c |}) (s, c), None)
    end
  else if is_str "error" (get "type" m) then
    let c := set_timer false (set_resultReceived true c) in
    match prepare Db.StatusFailed msg clock with
    | inl e => (s, c, Some e)
    | inr patch =>
      let s := with_db (Db.update_execution (execution c) patch (db s)) s in
      (settle (Rejected (Error_message (get "message" m))) (s, c), None)
    end
  else (s, c, None).

(** The [onExit] callback given to [runner.run]. *)
Definition on_exit (code : option Z) (signal : option jsstring) (clock : Clock)
    (sc : Service * Closure) : Service * Closure :=
  let '(s, c) := sc in
  let c := set_timer false c in
  if negb (resultReceived c) then
    let errorMsg :=
      js "Runner exited without IPC result (code="
        ++ match code with Some z => Runner.Z_toString z | None => js "null" end
        ++ js ", signal=" ++ or_null signal
        ++ js ", containerId=" ++ or_null (runnerId c) ++ js ")" in
    let s := with_db (Db.update_execution (execution c)
                {| Db.set_containerId := None;
                   Db.set_status := Some Db.StatusError;
                   Db.set_resultText := None;
                   Db.set_errorMessage := Some (JStr errorMsg);
                   Db.set_costUsd := None; Db.set_inputTokens := None;
                   Db.set_outputTokens := None; Db.set_cacheReadTokens := None;
                   Db.set_cacheWriteTokens := None; Db.set_durationMs := None;
                   Db.set_numTurns := None;
                   Db.set_finishedAt := Some (toISOString clock) |} (db s)) s in
    settle (Rejected errorMsg) (s, c)
  else (s, c).

(** The [.then] callback: [runner.run] gave a handle. *)
Definition on_spawned (containerId : jsstring) (sc : Service * Closure) : Service * Closure :=
  let '(s, c) := sc in
  let c := set_runnerId (Some containerId) c in
  let s :=
    {| db := Db.update_execution (execution c)
               {| Db.set_containerId := Some containerId;
                  Db.set_status := None; Db.set_resultText := None;
                  Db.set_errorMessage := None; Db.set_costUsd := None;
                  Db.set_inputTokens := None; Db.set_outputTokens := None;
                  Db.set_cacheReadTokens := None; Db.set_cacheWriteTokens := None;
                  Db.set_durationMs := None; Db.set_numTurns := None;
                  Db.set_finishedAt := None |} (db s);
       costTracker := costTracker s;
       activeExecutions := alter (fun _ => Some containerId) (execution c) (activeExecutions s);
       runner := runner s |} in
  (s, c).

(** The [.catch] callback: [runner.run] failed with an error of message
    [err]. *)
Definition on_launch_failed (err : jsstring) (clock : Clock) (sc : Service * Closure)
  : Service * Closure :=
  let '(s, c) := sc in
  let c := set_timer false c in
  let s := with_db (Db.update_execution (execution c)
              {| Db.set_containerId := None;
                 Db.set_status := Some Db.StatusError;
                 Db.set_resultText := None;
                 Db.set_errorMessage := Some (JStr err);
                 Db.set_costUsd := None; Db.set_inputTokens := None;
                 Db.set_outputTokens := None; Db.set_cacheReadTokens := None;
                 Db.set_cacheWriteTokens := None; Db.set_durationMs := None;
                 Db.set_numTurns := None;
                 Db.set_finishedAt := Some (toISOString clock) |} (db s)) s in
  settle (Rejected err) (s, c).

(** What can happen to an execution after [execute] has returned its
    promise, each with the clock reading at that moment. *)
Inductive Event :=
| TimerFired (clock : Clock)
| Message (msg : json) (clock : Clock)
| Exited (code : option Z) (signal : option jsstring) (clock : Clock)
| Spawned (containerId : jsstring)
| LaunchFailed (err : jsstring) (clock : Clock).

(** The runtime runs the timeout callback only while the timer is
    scheduled; every other event runs its callback. The state after an event
    is the state its callback leaves, whether it returns or throws. (Nothing
    in the service catches what [onMessage] throws; when the process ends for
    it, no later event comes, and what holds after every list of events holds
    after the events there were.) *)
Definition step (sc : Service * Closure) (ev : Event) : Service * Closure :=
  match ev with
  | TimerFired clock => if timer (snd sc) then on_timeout clock sc else sc
  | Message msg clock => fst (on_message msg clock sc)
  | Exited code signal clock => on_exit code signal clock sc
  | Spawned containerId => on_spawned containerId sc
  | LaunchFailed err clock => on_launch_failed err clock sc
  end.

Definition run_events (sc : Service * Closure) (evs : list Event) : Service * Closure :=
  fold_left step evs sc.

(** [execute(params)], up to the return of the promise. [today] is the
    date range the budget tracker's clock gives; [mcpEntryPath] is the
    constructor argument. The result is the new service state and either
    the closure of the pending promise or the error thrown. *)
Definition execute (config : FlowmateConfig.t) (mcpEntryPath : jsstring)
    (today : jsstring * jsstring) (clock : Clock) (params : Params) (s : Service)
  : Service * (Closure + jsstring) :=
  let budget :=
    CostTracker.checkBudget (db s) today (costTracker s)
      (FlowmateConfig.dailyBudgetLimit (FlowmateConfig.limits config))
      (Some (FlowmateConfig.maxBudgetPerTask (FlowmateConfig.limits config))) in
  if negb (CostTracker.allowed budget) then
    (s, inr (js "Daily budget exceeded. Remaining: $"
               ++ toFixed2 (CostTracker.remaining budget)))
  else
    let '(tracker, releaseReservation) := CostTracker.reserve (costTracker s) in
    let fullHistory :=
      ThreadManager.getConversationHistory (db s) (ThreadManager.id (conversation params)) in
    let conversationMessages :=
      truncateHistory fullHistory
        (FlowmateConfig.maxHistoryMessages (FlowmateConfig.limits config)) in
    let '(db1, execution) :=
      Db.insert_execution (ThreadManager.id (conversation params))
        (FlowmateConfig.model config) (prompt params) (toISOString clock) (db s) in
    let mcpServers :=
      with_flowmate (FlowmateConfig.mcpServers config)
        {| command := js "node";
           args := [ArgText mcpEntryPath;
                    ArgText (js "--db"); ArgText (FlowmateConfig.database_path config);
                    ArgText (js "--budget");
                    ArgAmount (FlowmateConfig.dailyBudgetLimit (FlowmateConfig.limits config));
                    ArgText (js "--timezone"); ArgText (FlowmateConfig.timezone config)] |} in
    let taskConfig :=
      {| TaskConfig.executionId := Db.id execution;
         TaskConfig.model := FlowmateConfig.model config;
         TaskConfig.conversationMessages := conversationMessages;
         TaskConfig.prompt := prompt params;
         TaskConfig.attachments := attachments params;
         TaskConfig.workingDirectory := FlowmateConfig.defaultWorkingDirectory config;
         TaskConfig.allowedDirectories := FlowmateConfig.allowedDirectories config;
         TaskConfig.mcpServers := mcpServers;
         TaskConfig.limits :=
           {| maxBudgetPerTask :=
                Double.Math_min
                  (FlowmateConfig.maxBudgetPerTask (FlowmateConfig.limits config))
                  (CostTracker.remaining budget);
              maxTurnsPerTask := FlowmateConfig.maxTurnsPerTask (FlowmateConfig.limits config);
              taskTimeoutMs := FlowmateConfig.taskTimeoutMs (FlowmateConfig.limits config) |};
         TaskConfig.tools := FlowmateConfig.tools config;
         TaskConfig.skills_enabled := FlowmateConfig.skills_enabled config |} in
    let db2 :=
      Db.update_execution (Db.id execution)
        {| Db.set_containerId := None;
           Db.set_status := Some Db.StatusRunning;
           Db.set_resultText := None; Db.set_errorMessage := None;
           Db.set_costUsd := None; Db.set_inputTokens := None;
           Db.set_outputTokens := None; Db.set_cacheReadTokens := None;
           Db.set_cacheWriteTokens := None; Db.set_durationMs := None;
           Db.set_numTurns := None; Db.set_finishedAt := None |} db1 in
    ({| db := db2;
        costTracker := tracker;
        activeExecutions := <[Db.id execution := None]> (activeExecutions s);
        runner := runner s ++ [CallRun taskConfig] |},
     inl {| execution := Db.id execution;
            releaseReservation := releaseReservation;
            onProgress := has_onProgress params;
            resultReceived := false;
            runnerId := None;
            timer := true;
            lastProgressTime := 0;
            settled := None;
            progress := [] |}).

End Execution.

(** ** Concrete data for the examples *)

Module Sample.
Import Js Types.

Definition quoted (s : string) : jsstring := (34 :: js s ++ [34])%N.

Definition tokens : Ipc.TokenUsage :=
  {| Ipc.input := Dec false [1; 2]%N 4; Ipc.output := Dec false [3; 4; 5]%N 3;
     Ipc.cacheRead := Zero false; Ipc.cacheWrite := Zero false |}.

(** A result message costing 0.0123 USD. *)
Definition result_message : Ipc.IpcMessage :=
  Ipc.IpcResultMessage (js "done") (Dec false [1; 2; 3]%N (-1)) tokens
                       (Dec false [1; 5]%N 4) (Dec false [3]%N 1).

(** A result message whose cost is NaN. *)
Definition nan_message : Ipc.IpcMessage :=
  Ipc.IpcResultMessage (js "done") NaN tokens (Dec false [1; 5]%N 4) (Dec false [3]%N 1).

Definition progress_message (text : string) : json :=
  Ipc.message_object (Ipc.IpcProgressMessage (js text) (js "2026-01-01T00:00:00.000Z")).

(** The line of a result message whose [tokensUsed] is the empty object. *)
Definition empty_tokens_line : jsstring :=
  js "{" ++ quoted "type" ++ js ":" ++ quoted "result" ++ js ","
     ++ quoted "text" ++ js ":" ++ quoted "ok" ++ js ","
     ++ quoted "costUsd" ++ js ":0," ++ quoted "durationMs" ++ js ":0,"
     ++ quoted "tokensUsed" ++ js ":{}}".

Definition limits : FlowmateConfig.Limits :=
  {| FlowmateConfig.maxBudgetPerTask := Double.of_Z 3; FlowmateConfig.maxTurnsPerTask := 100;
     FlowmateConfig.taskTimeoutMs := 50; FlowmateConfig.dailyBudgetLimit := Double.of_Z 10;
     FlowmateConfig.maxHistoryMessages := 20 |}.

Definition config : FlowmateConfig.t :=
  {| FlowmateConfig.model := js "sonnet"; FlowmateConfig.timezone := js "UTC";
     FlowmateConfig.database_path := js "/data/flowmate.db";
     FlowmateConfig.allowedDirectories := [js "/work"];
     FlowmateConfig.defaultWorkingDirectory := js "/work";
     FlowmateConfig.limits := limits;
     FlowmateConfig.tools := [js "Read"];
     FlowmateConfig.skills_enabled := true;
     FlowmateConfig.mcpServers := [] |}.

Definition today : jsstring * jsstring :=
  (js "2026-01-01T00:00:00.000Z", js "2026-01-02T00:00:00.000Z").

Definition clock (ms : Z) : Execution.Clock :=
  {| Execution.Date_now := 1767225600000 + ms;
     Execution.toISOString := js "2026-01-01T00:00:00.000Z" |}.

(** An engine that adds the doubles one after the other, in order of the
    row ids, a text counting for nothing. *)
Definition plain_sum (cells : list (jsstring * Db.Stored)) : float :=
  fold_left (fun acc cell =>
               match snd cell with
               | Db.Real x => PrimFloat.add acc x
               | Db.Text _ => acc
               end) cells zero.

Definition empty_db : Db.FlowmateDb :=
  {| Db.executions := []; Db.messages := []; Db.journal := []; Db.SUM := plain_sum |}.

(** A database in which one execution of the sample day has cost [cost]. *)
Definition spent_db (cost : number) : Db.FlowmateDb :=
  {| Db.executions :=
       [{| Db.id := 1; Db.conversationId := 1; Db.containerId := Some (js "flowmate-1");
           Db.model := Some (js "sonnet"); Db.status := Db.StatusCompleted;
           Db.prompt := js "hello"; Db.resultText := Some (JStr (js "done"));
           Db.errorMessage := None; Db.costUsd := Some (JNum cost);
           Db.inputTokens := None; Db.outputTokens := None; Db.cacheReadTokens := None;
           Db.cacheWriteTokens := None; Db.durationMs := None; Db.numTurns := None;
           Db.startedAt := Some (js "2026-01-01T00:00:00.000Z");
           Db.finishedAt := Some (js "2026-01-01T00:00:10.000Z") |}];
     Db.messages := []; Db.journal := []; Db.SUM := plain_sum |}.

(** The stamp of the [i]-th minute of the sample day, for [i] below 60. *)
Definition minute (i : nat) : jsstring :=
  js "2026-01-01T00:" ++ (if (i <? 10)%nat then js "0" else []) ++ decimal (N.of_nat i)
    ++ js ":00.000Z".

(** [n] messages of conversation 1, numbered from 1, one a minute. *)
Definition history_db (n : nat) : Db.FlowmateDb :=
  {| Db.executions := [];
     Db.messages := map (fun i => {| Db.msg_conversationId := 1; Db.msg_role := Db.RoleUser;
                                     Db.msg_content := decimal (N.of_nat i);
                                     Db.msg_createdAt := minute i |}) (seq 1 n);
     Db.journal := [];
     Db.SUM := plain_sum |}.

Definition service (db : Db.FlowmateDb) (tr : CostTracker.t) : Execution.Service :=
  {| Execution.db := db; Execution.costTracker := tr;
     Execution.activeExecutions := ∅; Execution.runner := [] |}.

Definition params : Execution.Params :=
  {| Execution.conversation :=
       {| ThreadManager.id := 1; ThreadManager.channelId := js "C1";
          ThreadManager.threadTs := js "1.0"; ThreadManager.userId := js "U1" |};
     Execution.prompt := js "hello";
     Execution.attachments := None;
     Execution.has_onProgress := true |}.

(** A tracker on which [reserve] was called three times. *)
Definition three_reserved : CostTracker.t :=
  fst (CostTracker.reserve (fst (CostTracker.reserve (fst (CostTracker.reserve CostTracker.new))))).

(** The state right after [execute] on a fresh service: the service, and
    the closure of the pending promise. *)
Definition started : Execution.Service * option Execution.Closure :=
  match Execution.execute config (js "/app/mcp.js") today (clock 0) params
          (service empty_db CostTracker.new) with
  | (s, inl c) => (s, Some c)
  | (s, inr _) => (s, None)
  end.

Definition after (evs : list Execution.Event) : option (Execution.Service * Execution.Closure) :=
  match started with
  | (s, Some c) => Some (Execution.run_events (s, c) evs)
  | (_, None) => None
  end.

End Sample.

(** ** Vocabulary of the statements about executions and backends *)

Module Spec.
Import Js Types.

(** The progress messages among the events of an execution, each with its
    text and the [Date.now()] at which it was delivered. *)
Definition progress_messages (evs : list Execution.Event) : list (option json * Z) :=
  omap (fun ev =>
          match ev with
          | Execution.Message msg clock =>
            if is_str "progress" (get "type" (Some msg))
            then Some (get "text" (Some msg), Execution.Date_now clock)
            else None
          | _ => None
          end) evs.

(** The debouncing as the specification words it: the first progress
    message invokes the callback; a later one does if and only if at least
    3000 ms have passed since the last message that invoked it; the others are
    dropped. [last] is the time of the last invocation, if any. *)
Fixpoint debounce (last : option Z) (msgs : list (option json * Z)) : list (option json) :=
  match msgs with
  | [] => []
  | (text, now) :: rest =>
    let invoke := match last with None => true | Some t => 3000 <=? now - t end in
    if invoke then text :: debounce (Some now) rest else debounce last rest
  end.

(** The note [truncateHistory] prepends when [omitted] messages are cut. *)
Definition omitted_note (omitted : Z) : ConversationMessage :=
  {| role := Db.RoleSystem;
     content := js "[" ++ decimal (Z.to_N omitted) ++ js " earlier messages omitted"
                   ++ js " for context window efficiency]" |}.

(** The messages a backend parses out of the stderr lines among [evs]. *)
Definition messages_of (evs : list Runner.ChildEvent) : list json :=
  omap (fun ev =>
          match ev with
          | Runner.StderrLine line =>
            if startsWith Ipc.IPC_PREFIX line
            then Ipc.parseIpcLine (slice (Z.of_nat (length Ipc.IPC_PREFIX)) line)
            else None
          | _ => None
          end) evs.

Definition is_close (ev : Runner.ChildEvent) : bool :=
  match ev with Runner.ChildClose _ _ => true | _ => false end.

End Spec.

(** ** packages/runner/src/ipc.ts and packages/runner/src/index.ts *)

Module RunnerProcess.
Import Js Types.

(** What [emit(msg)] writes to stderr: the prefix, the serialised message
    and a line feed. *)
Definition emit (msg : json) : jsstring :=
  Ipc.IPC_PREFIX ++ Ipc.serializeIpc msg ++ [10%N].

(** [Array.prototype.slice(start, end)]. *)
Definition slice2 {A} (start end_ : Z) (l : list A) : list A :=
  let len := Z.of_nat (length l) in
  let rel := fun i => if i <? 0 then Z.max (len + i) 0 else Z.min i len in
  let k := rel start in
  let final := rel end_ in
  take (Z.to_nat (final - k)) (drop (Z.to_nat k) l).

(** What one earlier message adds to the context. *)
Definition context_entry (msg : ConversationMessage) : jsstring :=
  match role msg with
  | Db.RoleSystem => content msg ++ [10; 10]%N
  | Db.RoleUser => js "User" ++ js ": " ++ content msg ++ [10; 10]%N
  | Db.RoleAssistant => js "Assistant" ++ js ": " ++ content msg ++ [10; 10]%N
  end.

(** Build a prompt string that includes conversation history; the last
    message of the history is taken to be the current prompt and is left
    out. *)
Definition buildContextPrompt (config : TaskConfig.t) : jsstring :=
  let history := TaskConfig.conversationMessages config in
  if (length history <=? 1)%nat then TaskConfig.prompt config
  else
    let context :=
      fold_left (fun ctx msg => ctx ++ context_entry msg)
                (slice2 0 (-1) history)
                (js "Previous conversation:" ++ [10%N]) in
    context ++ js "---" ++ [10%N] ++ js "Current request:" ++ [10%N]
            ++ TaskConfig.prompt config.

End RunnerProcess.

(** ** node:readline, through which both backends read the worker's stderr *)

Module Readline.
Import Js.

(** The code units at which a line ends, besides the carriage return:
    line feed, U+2028 and U+2029. *)
Definition is_line_end (c : N) : bool := ((c =? 10) || (c =? 8232) || (c =? 8233))%N.

(** The ['line'] events for a text read to its end: a line ends at a line
    feed, at a carriage return (taken together with a line feed that follows
    it), at U+2028 and at U+2029; what follows the last ending is a line if
    it is not empty. [cur] is the line read so far. *)
Fixpoint lines_from (cur text : jsstring) : list jsstring :=
  match text with
  | [] => match cur with [] => [] | _ :: _ => [cur] end
  | c :: rest =>
    if (c =? 13)%N then
      match rest with
      | d :: rest' => if (d =? 10)%N then cur :: lines_from [] rest' else cur :: lines_from [] rest
      | [] => [cur]
      end
    else if is_line_end c then cur :: lines_from [] rest
    else lines_from (cur ++ [c]) rest
  end.

Definition lines (text : jsstring) : list jsstring := lines_from [] text.

End Readline.

(** ** packages/mcp/src/index.ts *)

Module McpServer.
Import Js Types.

(** [args[key] = value] on a plain object: a new key is added, an old one
    takes the new value; assigning a string to [__proto__] creates no
    property. The list keeps the keys in the order they were added; the code
    reads the object by key only. *)
Fixpoint assign (args : list (jsstring * jsstring)) (key value : jsstring)
  : list (jsstring * jsstring) :=
  match args with
  | [] => [(key, value)]
  | (k, v) :: rest =>
    if jsstring_eqb k key then (k, value) :: rest else (k, v) :: assign rest key value
  end.

Definition set_arg (args : list (jsstring * jsstring)) (key value : jsstring)
  : list (jsstring * jsstring) :=
  if jsstring_eqb key (js "__proto__") then args else assign args key value.

(** The loop of [parseArgs], from position [i] with [argv] the elements
    from [i] on: a flag takes the element after it as its value and skips
    it; a flag in the last position is ignored. *)
Fixpoint parseArgs_from (argv : list jsstring) (args : list (jsstring * jsstring))
  : list (jsstring * jsstring) :=
  match argv with
  | [] => args
  | a :: rest =>
    match rest with
    | v :: rest' =>
      if startsWith (js "--") a then parseArgs_from rest' (set_arg args (slice 2 a) v)
      else parseArgs_from rest args
    | [] => args
    end
  end.

(** Parse [--key value] pairs. *)
Definition parseArgs (argv : list jsstring) : list (jsstring * jsstring) :=
  parseArgs_from argv [].

(** [args[key]] for a key that [Object.prototype] does not have. *)
Fixpoint arg (key : jsstring) (args : list (jsstring * jsstring)) : option jsstring :=
  match args with
  | [] => None
  | (k, v) :: rest => if jsstring_eqb k key then Some v else arg key rest
  end.

(** The text of a command-line argument, [String(x)] of an amount being
    given by [show]. *)
Definition arg_text (show : float -> jsstring) (a : McpArg) : jsstring :=
  match a with
  | ArgText s => s
  | ArgAmount x => show x
  end.

(** [process.argv.slice(2)] of the server the runner starts from an entry
    of [mcpServers]: the arguments after the script path. *)
Definition server_argv (show : float -> jsstring) (entry : McpServerConfig) : list jsstring :=
  slice 1 (map (arg_text show) (args entry)).

Fixpoint find_server (name : jsstring) (servers : list (jsstring * McpServerConfig))
  : option McpServerConfig :=
  match servers with
  | [] => None
  | (k, v) :: rest => if jsstring_eqb k name then Some v else find_server name rest
  end.

End McpServer.

(** ** orchestrator/container/cleanup.ts *)

Module ContainerCleanup.
Import Js JSON.

(** A match of [(\d+)\s*unit] that starts at the head of [s]: the digits
    captured, read as [parseInt] reads them (numbers are idealised as exact:
    no rounding of a count that a double cannot hold). A match takes the whole
    run of digits and of white space: with fewer, what follows is not the
    word. *)
Definition match_here (unit s : jsstring) : option N :=
  match span_digits s with
  | ([], _) => None
  | (ds, rest) =>
    if startsWith unit (trimStart rest) then Some (N.of_uint (uint_of_digits ds)) else None
  end.

(** [s.match(/(\d+)\s*unit/)]: the leftmost match. *)
Fixpoint match_unit (unit s : jsstring) : option N :=
  match s with
  | [] => None
  | _ :: rest =>
    match match_here unit s with
    | Some n => Some n
    | None => match_unit unit rest
    end
  end.

Definition or_zero (m : option N) (factor : N) : N :=
  match m with Some n => (n * factor)%N | None => 0%N end.

(** Parse the "running for" duration string into milliseconds. *)
Definition parseRunningFor (s : jsstring) : N :=
  (or_zero (match_unit (js "day") s) 86400000
   + or_zero (match_unit (js "hour") s) 3600000
   + or_zero (match_unit (js "minute") s) 60000
   + or_zero (match_unit (js "second") s) 1000)%N.

(** [s.split(sep)] for a separator of one code unit. *)
Fixpoint split (sep : N) (s : jsstring) : list jsstring :=
  match s with
  | [] => [[]]
  | c :: rest =>
    if (c =? sep)%N then [] :: split sep rest
    else
      match split sep rest with
      | p :: ps => (c :: p) :: ps
      | [] => [[c]]
      end
  end.

(** The body of the loop over the lines of the listing: the container to
    kill, if the line names one that is too old. *)
Definition stale_container (maxAgeMs : Z) (line : jsstring) : option jsstring :=
  match line with
  | [] => None
  | _ :: _ =>
    let parts := split 9 line in
    if (length parts <? 3)%nat then None
    else
      match parts with
      | _ :: name :: runningFor :: _ =>
        if maxAgeMs <? Z.of_N (parseRunningFor runningFor) then Some name else None
      | _ => None
      end
  end.

(** One cleanup pass: the [containerManager.kill(name)] calls it makes, in
    order. [output] is what the container listing printed, [None] when the
    listing command failed. *)
Definition cleanup (timeoutMs : Z) (output : option jsstring) : list jsstring :=
  match output with
  | None => []
  | Some out =>
    let maxAgeMs := timeoutMs * 2 in
    omap (stale_container maxAgeMs) (split 10 (trim out))
  end.

(** A line of the listing: id, name and age, separated by tabs. *)
Definition listing_line (id name runningFor : jsstring) : jsstring :=
  id ++ [9%N] ++ name ++ [9%N] ++ runningFor.

End ContainerCleanup.

(** ** orchestrator/context/thread-manager: conversations and messages *)

Module ThreadStore.
Import Js Types.

(** A row of [conversations]. *)
Record ConversationRow := {
  id : Z;
  channelId : jsstring;
  threadTs : jsstring;
  userId : jsstring;
  title : option jsstring;
  status : jsstring;
  createdAt : jsstring
}.

Definition same_thread (channel thread : jsstring) (r : ConversationRow) : bool :=
  jsstring_eqb (channelId r) channel && jsstring_eqb (threadTs r) thread.

Definition conversation_of (r : ConversationRow) : ThreadManager.Conversation :=
  {| ThreadManager.id := id r; ThreadManager.channelId := channelId r;
     ThreadManager.threadTs := threadTs r; ThreadManager.userId := userId r |}.

(** Find an existing conversation by Slack thread key, or create a new
    one; [now] is the creation time a new row gets. *)
Definition getOrCreateConversation (table : list ConversationRow) (now : jsstring)
    (channel thread user : jsstring)
  : list ConversationRow * ThreadManager.Conversation :=
  match List.find (same_thread channel thread) table with
  | Some existing => (table, conversation_of existing)
  | None =>
    let result :=
      {| id := 1 + fold_right Z.max 0 (map id table);
         channelId := channel; threadTs := thread; userId := user;
         title := None; status := js "active"; createdAt := now |} in
    (table ++ [result], conversation_of result)
  end.

(** No two rows have the same channel and thread: the unique index. *)
Fixpoint unique_threads (table : list ConversationRow) : bool :=
  match table with
  | [] => true
  | r :: rest =>
    negb (existsb (same_thread (channelId r) (threadTs r)) rest) && unique_threads rest
  end.

(** Persist a message to the conversation log: the new row takes the next
    row id and is stamped with [now], the reading of the clock at the insert
    ([new Date().toISOString()], the default of [created_at]). [role] is one
    of the three roles the callers pass; the Slack timestamp and the execution
    id go to columns the history does not read. The conversation and the
    execution named are rows of their tables, as the foreign keys require. *)
Definition saveMessage (now : jsstring) (db : Db.FlowmateDb) (conversationId : Z)
    (role : Db.MessageRole) (content : jsstring) (slackTs : option jsstring)
    (executionId : option Z)
  : Db.FlowmateDb :=
  {| Db.executions := Db.executions db;
     Db.messages := Db.messages db
                      ++ [{| Db.msg_conversationId := conversationId;
                             Db.msg_role := role; Db.msg_content := content;
                             Db.msg_createdAt := now |}];
     Db.journal := Db.journal db;
     Db.SUM := Db.SUM db |}.

End ThreadStore.

(** ** ExecutionService.drain and the budget tracker under use *)

Module Shutdown.
Import Js Types Execution.

(** Number of currently running executions. *)
Definition activeCount (s : Service) : nat := size (activeExecutions s).

Fixpoint insert_by_id (e : Z * option jsstring) (l : list (Z * option jsstring))
  : list (Z * option jsstring) :=
  match l with
  | [] => [e]
  | x :: rest => if fst e <=? fst x then e :: l else x :: insert_by_id e rest
  end.

(** The entries of the in-flight map in the order a [Map] enumerates
    them: that of insertion, which is that of the execution ids. *)
Definition in_flight (s : Service) : list (Z * option jsstring) :=
  fold_right insert_by_id [] (map_to_list (activeExecutions s)).

(** The runner an entry names, when [entry.runnerId] is truthy. *)
Definition runner_of (e : Z * option jsstring) : option jsstring :=
  match snd e with
  | Some (c :: r) => Some (c :: r)
  | _ => None
  end.

(** How the race between the in-flight promises and the timer of [drain]
    ends, with the service as it is at that moment. *)
Inductive DrainRace :=
| AllSettled (s' : Service)
| TimedOut (s' : Service).

(** What [drain] does once the timer has won: every entry that has a
    runner id gets a kill request. *)
Definition drain_timed_out (s' : Service) : Service :=
  fold_left (fun acc r => with_runner_call (CallKill r) acc) (omap runner_of (in_flight s')) s'.

(** [drain(timeoutMs)], called on the service [s]: it returns at once when
    no execution is in flight; otherwise it waits for the race, and kills the
    runners that remain when the timer wins. *)
Definition drain (s : Service) (race : DrainRace) : Service :=
  if bool_decide (activeCount s = 0%nat) then s
  else
    match race with
    | AllSettled s' => s'
    | TimedOut s' => drain_timed_out s'
    end.

(** Calls on the budget tracker. *)
Inductive TrackerOp :=
| DoReserve
| DoRelease (h : nat).

Definition apply_op (tr : CostTracker.t) (op : TrackerOp) : CostTracker.t :=
  match op with
  | DoReserve => fst (CostTracker.reserve tr)
  | DoRelease h => CostTracker.release h tr
  end.

(** The reservations handed out and not yet released. *)
Definition outstanding (tr : CostTracker.t) : nat :=
  length (filter (fun b => b = false) (CostTracker.released tr)).

End Shutdown.

(** ** Vocabulary of the further properties *)

Module Props.
Import Js.

(** Text without control characters. *)
Definition visible (s : jsstring) : Prop := Forall (fun c => (32 <= c)%N) s.

(** What a worker wrote to stderr besides protocol lines, each line with
    the line feed the local backend puts back after it. *)
Definition diagnostic_text (evs : list Runner.ChildEvent) : jsstring :=
  concat (omap (fun ev =>
                  match ev with
                  | Runner.StderrLine line =>
                    if startsWith Ipc.IPC_PREFIX line then None else Some (line ++ [10%N])
                  | _ => None
                  end) evs).

(** A callback that hands over a message hands over one that passes
    validation. *)
Definition valid_callback (cb : Runner.Callback) : bool :=
  match cb with
  | Runner.onMessage msg => Ipc.isValidIpcMessage msg
  | Runner.onExit _ _ => true
  end.

(** The events that end an execution: the timeout, the worker's exit, a
    failure to launch it, and a result or error message. *)
Definition ends (ev : Execution.Event) : bool :=
  match ev with
  | Execution.TimerFired _ | Execution.Exited _ _ _ | Execution.LaunchFailed _ _ => true
  | Execution.Message msg _ =>
    is_str "result" (get "type" (Some msg)) || is_str "error" (get "type" (Some msg))
  | Execution.Spawned _ => false
  end.

(** A message at which [onMessage] throws: null, or a result or an error
    message whose UPDATE cannot be built or bound. *)
Definition throws (ev : Execution.Event) : bool :=
  match ev with
  | Execution.Message msg clock =>
    if Execution.is_null msg then true
    else if is_str "result" (get "type" (Some msg)) then
      match Execution.prepare Db.StatusCompleted msg clock with inl _ => true | inr _ => false end
    else if is_str "error" (get "type" (Some msg)) then
      match Execution.prepare Db.StatusFailed msg clock with inl _ => true | inr _ => false end
    else false
  | _ => false
  end.

(** The events a worker and the timer still produce after the worker sent
    its report: the timeout, the exit and the spawn notification. *)
Definition follows_report (ev : Execution.Event) : bool :=
  match ev with
  | Execution.TimerFired _ | Execution.Exited _ _ _ | Execution.Spawned _ => true
  | _ => false
  end.

(** The closure still waits for a report: the timer is scheduled and no
    result or error message has arrived. *)
Definition waiting (c : Execution.Closure) : Prop :=
  Execution.timer c = true /\ Execution.resultReceived c = false.

(** The events that report a cost. *)
Definition reports_cost (ev : Execution.Event) : bool :=
  match ev with
  | Execution.Message msg _ =>
    is_str "result" (get "type" (Some msg)) || is_str "error" (get "type" (Some msg))
  | _ => false
  end.

(** What holds of an execution from [execute] on: [s0] is the service
    [execute] was called on and [started] the start time the row was given. *)
Definition tracked (s0 : Execution.Service) (started : jsstring)
    (sc : Execution.Service * Execution.Closure) : Prop :=
  let s := fst sc in
  let c := snd sc in
  let i := Db.next_id (Execution.db s0) in
  let reserved := fst (CostTracker.reserve (Execution.costTracker s0)) in
  Execution.execution c = i
  /\ Execution.releaseReservation c
     = length (CostTracker.released (Execution.costTracker s0))
  /\ Db.messages (Execution.db s) = Db.messages (Execution.db s0)
  /\ (exists r,
        Db.executions (Execution.db s) = Db.executions (Execution.db s0) ++ [r]
        /\ Db.id r = i /\ Db.startedAt r = Some started
        /\ match Execution.settled c with
           | None => Db.status r = Db.StatusRunning /\ Db.costUsd r = None
           | Some _ => Db.is_terminal (Db.status r) = true
           end)
  /\ (forall j, j <> i ->
        Execution.activeExecutions s !! j = Execution.activeExecutions s0 !! j)
  /\ match Execution.settled c with
     | None =>
       Execution.costTracker s = reserved
       /\ Execution.activeExecutions s !! i = Some (Execution.runnerId c)
     | Some _ =>
       Execution.costTracker s = CostTracker.release (Execution.releaseReservation c) reserved
       /\ Execution.activeExecutions s !! i = None
     end.

(** The clock reading [now] is not before the stamp of any message of the
    conversation: the clock has not been set back since they were saved. *)
Definition not_before (now : jsstring) (db : Db.FlowmateDb) (conversationId : Z) : bool :=
  forallb (fun r =>
             negb (Db.msg_conversationId r =? conversationId)
             || match CostTracker.text_compare now (Db.msg_createdAt r) with
                | Lt => false
                | _ => true
                end)
          (Db.messages db).




(** The command line [--key value ...] of a list of settings. *)
Definition command_line (settings : list (jsstring * jsstring)) : list jsstring :=
  concat (map (fun kv => [js "--" ++ fst kv; snd kv]) settings).

(** The units of time [parseRunningFor] knows, with the word it looks for
    and the milliseconds it counts for one. *)
Inductive AgeUnit := Days | Hours | Minutes | Seconds.

Definition unit_word (u : AgeUnit) : jsstring :=
  match u with
  | Days => js "day"
  | Hours => js "hour"
  | Minutes => js "minute"
  | Seconds => js "second"
  end.

Definition unit_ms (u : AgeUnit) : N :=
  match u with
  | Days => 86400000
  | Hours => 3600000
  | Minutes => 60000
  | Seconds => 1000
  end%N.

Definition no_digit (s : jsstring) : bool := forallb (fun c => negb (JSON.is_digit c)) s.

(** [w] occurs somewhere in [s]. *)
Fixpoint occurs (w s : jsstring) : bool :=
  startsWith w s || match s with [] => false | _ :: rest => occurs w rest end.

(** An age [parseRunningFor] finds nothing in: no digit, or none of the
    four words. *)
Definition unreadable (age : jsstring) : bool :=
  no_digit age
  || negb (occurs (js "day") age) && negb (occurs (js "hour") age)
     && negb (occurs (js "minute") age) && negb (occurs (js "second") age).

(** A row of the container listing. *)
Record ListedContainer := {
  listed_id : jsstring;
  listed_name : jsstring;
  listed_age : jsstring
}.

(** A field as the listing prints it: not empty, without tab or line feed,
    and with no white space at either end. *)
Definition clean_field (f : jsstring) : bool :=
  match f with
  | [] => false
  | c :: _ => negb (is_trim_space c)
  end
  && negb (is_trim_space (List.last f 32%N))
  && forallb (fun c => negb (c =? 9)%N && negb (c =? 10)%N) f.

Definition clean_row (r : ListedContainer) : bool :=
  clean_field (listed_id r) && clean_field (listed_name r) && clean_field (listed_age r).

Definition line_of (r : ListedContainer) : jsstring :=
  ContainerCleanup.listing_line (listed_id r) (listed_name r) (listed_age r).

(** What the listing command prints for the rows: a line each. *)
Definition listing (rows : list ListedContainer) : jsstring :=
  concat (map (fun r => line_of r ++ [10%N]) rows).

(** Lines joined by line feeds. *)
Definition join_lines (lines : list jsstring) : jsstring :=
  match lines with
  | [] => []
  | l :: rest => l ++ concat (map (fun x => 10%N :: x) rest)
  end.

(** The container is older than twice the timeout, by the reading
    [parseRunningFor] makes of its age. *)
Definition stale (timeoutMs : Z) (r : ListedContainer) : bool :=
  timeoutMs * 2 <? Z.of_N (ContainerCleanup.parseRunningFor (listed_age r)).

(** A container whose age the listing prints as a count of days, hours,
    minutes or seconds: the count, a space, the unit and an ending (the plural
    [s], [ago]). *)
Record AgedContainer := {
  aged_id : jsstring;
  aged_name : jsstring;
  aged_count : N;
  aged_unit : AgeUnit;
  aged_ending : jsstring
}.

Definition listed (a : AgedContainer) : ListedContainer :=
  {| listed_id := aged_id a;
     listed_name := aged_name a;
     listed_age := decimal (aged_count a) ++ js " " ++ unit_word (aged_unit a)
                     ++ aged_ending a |}.

(** The age in milliseconds that the count and the unit stand for. *)
Definition age_ms (a : AgedContainer) : Z := Z.of_N (aged_count a) * Z.of_N (unit_ms (aged_unit a)).

(** A code unit at which readline does not end a line, and which is no
    control character. *)
Definition inline (c : N) : Prop := (32 <= c)%N /\ c <> 8232%N /\ c <> 8233%N.

(** The strings of a message hold neither U+2028 nor U+2029. *)
Definition no_separator (s : jsstring) : bool :=
  forallb (fun c => negb (c =? 8232)%N && negb (c =? 8233)%N) s.

Definition message_strings (m : Ipc.IpcMessage) : list jsstring :=
  match m with
  | Ipc.IpcProgressMessage text timestamp => [text; timestamp]
  | Ipc.IpcResultMessage text _ _ _ _ => [text]
  | Ipc.IpcErrorMessage message _ _ _ _ => [message]
  end.

End Props.

(** * Properties *)
Import Js JSON.

(** *** Strings round-trip *)

Lemma hex_value_hex_char d : (d < 16)%N -> hex_value (hex_char d) = Some d.
Proof.
  intros Hd. unfold hex_value, hex_char.
  destruct (N.ltb_spec d 10).
  - replace ((48 <=? 48 + d) && (48 + d <=? 57))%N with true
      by (symmetry; apply andb_true_iff; split; apply N.leb_le; lia).
    f_equal. lia.
  - replace ((48 <=? 87 + d) && (87 + d <=? 57))%N with false
      by (symmetry; apply andb_false_iff; right; apply N.leb_gt; lia).
    replace ((97 <=? 87 + d) && (87 + d <=? 102))%N with true
      by (symmetry; apply andb_true_iff; split; apply N.leb_le; lia).
    f_equal. lia.
Qed.

Lemma hex4_unicode_escape c t :
  (c < 65536)%N ->
  parse_chars (unicode_escape c ++ t) = cons_fst c (parse_chars t).
Proof.
  intros Hc. unfold unicode_escape. cbn [app parse_chars].
  change (92 =? 34)%N with false. change (92 =? 92)%N with true.
  change (117 =? 117)%N with true. cbv iota.
  unfold hex4.
  rewrite !hex_value_hex_char by (apply N.mod_lt; lia).
  replace (c / 4096 mod 16 * 4096 + c / 256 mod 16 * 256 + c / 16 mod 16 * 16 + c mod 16)%N with c; [reflexivity|].
  zify. Z.to_euclidean_division_equations. lia.
Qed.

Lemma parse_chars_raw c t :
  (c =? 34)%N = false -> (c =? 92)%N = false -> (c <? 32)%N = false ->
  parse_chars (c :: t) = cons_fst c (parse_chars t).
Proof. intros H1 H2 H3. cbn [parse_chars]. rewrite H1, H2, H3. reflexivity. Qed.

Lemma parse_chars_quote_unit c t :
  parse_chars (quote_unit c ++ t) = cons_fst c (parse_chars t).
Proof.
  unfold quote_unit.
  destruct (N.eqb_spec c 8) as [->|]; [reflexivity|].
  destruct (N.eqb_spec c 9) as [->|]; [reflexivity|].
  destruct (N.eqb_spec c 10) as [->|]; [reflexivity|].
  destruct (N.eqb_spec c 12) as [->|]; [reflexivity|].
  destruct (N.eqb_spec c 13) as [->|]; [reflexivity|].
  destruct (N.eqb_spec c 34) as [->|]; [reflexivity|].
  destruct (N.eqb_spec c 92) as [->|]; [reflexivity|].
  destruct ((c <? 32)%N || is_high_surrogate c || is_low_surrogate c) eqn:E.
  - apply hex4_unicode_escape.
    unfold is_high_surrogate, is_low_surrogate in E.
    apply orb_true_iff in E as [E|E]; [apply orb_true_iff in E as [E|E]|].
    + apply N.ltb_lt in E. lia.
    + apply andb_true_iff in E as [_ E]. apply N.leb_le in E. lia.
    + apply andb_true_iff in E as [_ E]. apply N.leb_le in E. lia.
  - apply orb_false_iff in E as [E _]. apply orb_false_iff in E as [E _].
    apply parse_chars_raw; [apply N.eqb_neq| apply N.eqb_neq|]; assumption.
Qed.

Lemma surrogate_raw c :
  is_high_surrogate c || is_low_surrogate c = true ->
  (c =? 34)%N = false /\ (c =? 92)%N = false /\ (c <? 32)%N = false.
Proof.
  unfold is_high_surrogate, is_low_surrogate. intros H.
  assert (55296 <= c)%N.
  { apply orb_true_iff in H as [H|H]; apply andb_true_iff in H as [H _];
      apply N.leb_le in H; lia. }
  repeat split; [apply N.eqb_neq; lia | apply N.eqb_neq; lia | apply N.ltb_ge; lia].
Qed.

Lemma parse_chars_quote_chars_len n : forall s t,
  (length s <= n)%nat ->
  parse_chars (quote_chars s ++ 34%N :: t) = Some (s, t).
Proof.
  induction n as [|n IH]; intros s t Hlen.
  - destruct s; [reflexivity | simpl in Hlen; lia].
  - destruct s as [|c s]; [reflexivity|].
    simpl in Hlen. cbn [quote_chars].
    destruct (is_high_surrogate c) eqn:Hc.
    + destruct s as [|d s'].
      * rewrite parse_chars_quote_unit. reflexivity.
      * destruct (is_low_surrogate d) eqn:Hd.
        -- destruct (surrogate_raw c) as (A & B & C); [rewrite Hc; reflexivity|].
           destruct (surrogate_raw d) as (A' & B' & C'); [rewrite Hd; apply orb_true_r|].
           cbn [app]. rewrite (parse_chars_raw c), (parse_chars_raw d) by assumption.
           rewrite IH by (simpl in Hlen; lia). reflexivity.
        -- rewrite <- app_assoc, parse_chars_quote_unit.
           rewrite IH by lia. reflexivity.
    + rewrite <- app_assoc, parse_chars_quote_unit.
      rewrite IH by lia. reflexivity.
Qed.

Lemma parse_chars_quote_chars s t :
  parse_chars (quote_chars s ++ 34%N :: t) = Some (s, t).
Proof. apply (parse_chars_quote_chars_len (length s)). lia. Qed.

(** *** Numbers round-trip *)
Import JsonFacts.

Lemma is_digit_digit_char d : (d < 10)%N -> is_digit (digit_char d) = true.
Proof.
  intros H. unfold is_digit, digit_char.
  apply andb_true_iff; split; apply N.leb_le; lia.
Qed.

Lemma digit_char_value d : (digit_char d - 48)%N = d.
Proof. unfold digit_char. lia. Qed.

Lemma value_end_not_digit rest :
  value_end rest = true ->
  match rest with [] => True | c :: _ => is_digit c = false /\ (c =? 46)%N = false
     /\ (c =? 101)%N = false /\ (c =? 69)%N = false /\ is_ws c = false end.
Proof.
  destruct rest as [|c rest]; [trivial|]. cbn [value_end]. intros H.
  assert (c = 44 \/ c = 93 \/ c = 125)%N as [->|[->| ->]]; [|repeat split..].
  apply orb_true_iff in H as [H|H]; [apply orb_true_iff in H as [H|H]|];
    apply N.eqb_eq in H; auto.
Qed.

Lemma span_digits_stop rest :
  match rest with [] => True | c :: _ => is_digit c = false end ->
  span_digits rest = ([], rest).
Proof. destruct rest as [|c rest]; [reflexivity|]. cbn. intros ->. reflexivity. Qed.

Lemma span_digits_map ds rest :
  forallb (fun d => d <? 10)%N ds = true ->
  match rest with [] => True | c :: _ => is_digit c = false end ->
  span_digits (map digit_char ds ++ rest) = (ds, rest).
Proof.
  intros Hds Hrest. induction ds as [|d ds IH].
  - apply span_digits_stop, Hrest.
  - cbn [forallb] in Hds. apply andb_true_iff in Hds as [Hd Hds].
    apply N.ltb_lt in Hd. cbn [map app span_digits].
    rewrite is_digit_digit_char by assumption. rewrite IH by assumption.
    rewrite digit_char_value. reflexivity.
Qed.

Lemma forallb_zeros k : forallb (fun d => d <? 10)%N (zeros k) = true.
Proof. induction k; [reflexivity | assumption]. Qed.

Lemma strip_zeros_zeros k ds :
  match ds with [] => True | d :: _ => (d =? 0)%N = false end ->
  strip_zeros (zeros k ++ ds) = (k, ds).
Proof.
  intros H. induction k as [|k IH].
  - destruct ds as [|d ds]; [reflexivity|]. cbn. rewrite H. reflexivity.
  - cbn. unfold zeros in IH. rewrite IH. reflexivity.
Qed.

Lemma rev_zeros k : rev (zeros k) = zeros k.
Proof.
  unfold zeros. induction k as [|k IH]; [reflexivity|].
  cbn [repeat rev]. rewrite IH. symmetry. apply repeat_cons.
Qed.

Lemma digits_ok_inv ds :
  digits_ok ds = true ->
  forallb (fun d => d <? 10)%N ds = true
  /\ (exists d ds', ds = d :: ds' /\ (d =? 0)%N = false)
  /\ (exists d ds', rev ds = d :: ds' /\ (d =? 0)%N = false).
Proof.
  unfold digits_ok. intros H.
  apply andb_true_iff in H as [H H3]. apply andb_true_iff in H as [H1 H2].
  split; [assumption|]. split.
  - destruct ds as [|d ds']; [discriminate|]. exists d, ds'. split; [reflexivity|].
    apply negb_true_iff, H2.
  - destruct (rev ds) as [|d ds']; [discriminate|]. exists d, ds'. split; [reflexivity|].
    apply negb_true_iff, H3.
Qed.

(** Trailing zeros that the printer appends are dropped again. *)
Lemma make_number_canonical neg int frac e ds k :
  digits_ok ds = true ->
  int ++ frac = zeros k ++ ds ->
  make_number neg int frac e = Dec neg ds (Z.of_nat (length int) + e - Z.of_nat k).
Proof.
  intros Hok Heq. apply digits_ok_inv in Hok as (_ & (d & ds' & -> & Hd) & (l & ls & Hrev & Hl)).
  unfold make_number. rewrite Heq, strip_zeros_zeros by exact Hd.
  rewrite Hrev. cbn [strip_zeros]. rewrite Hl. cbn [snd].
  rewrite <- Hrev, rev_involutive. reflexivity.
Qed.

Lemma make_number_trailing neg ds m e :
  digits_ok ds = true ->
  make_number neg (ds ++ zeros m) [] e = Dec neg ds (Z.of_nat (length (ds ++ zeros m)) + e).
Proof.
  intros Hok. apply digits_ok_inv in Hok as (_ & (d & ds' & -> & Hd) & (l & ls & Hrev & Hl)).
  unfold make_number. rewrite app_nil_r.
  cbn [app strip_zeros]. rewrite Hd.
  change (d :: ds' ++ zeros m) with ((d :: ds') ++ zeros m).
  rewrite rev_app_distr, rev_zeros, strip_zeros_zeros by (rewrite Hrev; exact Hl).
  cbn [snd]. rewrite rev_involutive. f_equal. lia.
Qed.

Lemma span_digits_uint u rest :
  match rest with [] => True | c :: _ => is_digit c = false end ->
  exists ds, span_digits (chars_of_uint u ++ rest) = (ds, rest)
             /\ uint_of_digits ds = u /\ (u <> Nil -> ds <> []).
Proof.
  intros Hrest. induction u as [|u IH|u IH|u IH|u IH|u IH|u IH|u IH|u IH|u IH|u IH].
  1: { exists []. rewrite span_digits_stop by exact Hrest. repeat split. congruence. }
  all: destruct IH as (ds & E & U & _);
    eexists (_ :: ds); cbn [chars_of_uint app span_digits];
    change (is_digit _) with true; cbv iota; rewrite E;
    (split; [reflexivity|]); split;
    [unfold uint_of_digits in *; cbn [fold_right]; rewrite U; reflexivity | discriminate].
Qed.

Lemma N_to_uint_nonnil n : N.to_uint n <> Nil.
Proof.
  destruct n; cbn; [discriminate|]. apply DecimalPos.Unsigned.to_uint_nonnil.
Qed.

Lemma parse_exponent_none rest :
  match rest with [] => True | c :: _ => (c =? 101)%N = false /\ (c =? 69)%N = false end ->
  parse_exponent rest = Some (0, rest).
Proof.
  destruct rest as [|c rest]; [reflexivity|]. intros [H1 H2].
  cbn [parse_exponent]. rewrite H1, H2. reflexivity.
Qed.

Lemma parse_fraction_none rest :
  match rest with [] => True | c :: _ => (c =? 46)%N = false end ->
  parse_fraction rest = Some ([], rest).
Proof.
  destruct rest as [|c rest]; [reflexivity|]. intros H.
  cbn [parse_fraction]. rewrite H. reflexivity.
Qed.

Lemma parse_fraction_some fs rest :
  fs <> [] ->
  forallb (fun d => d <? 10)%N fs = true ->
  match rest with [] => True | c :: _ => is_digit c = false end ->
  parse_fraction (46%N :: map digit_char fs ++ rest) = Some (fs, rest).
Proof.
  intros Hne Hfs Hrest. cbn [parse_fraction]. change (46 =? 46)%N with true. cbv iota.
  rewrite span_digits_map by assumption.
  destruct fs; [congruence | reflexivity].
Qed.

(** The exponent part the printer writes reads back as the same integer. *)
Lemma parse_exponent_printed e rest :
  match rest with [] => True | c :: _ => is_digit c = false end ->
  parse_exponent (js "e" ++ (if e <? 0 then js "-" else js "+")
                    ++ decimal (Z.to_N (Z.abs e)) ++ rest) = Some (e, rest).
Proof.
  intros Hrest.
  destruct (span_digits_uint (N.to_uint (Z.to_N (Z.abs e))) rest Hrest) as (ds & E & U & Hne).
  specialize (Hne (N_to_uint_nonnil _)).
  unfold decimal.
  destruct (Z.ltb_spec e 0); cbn [js list_ascii_of_string map app parse_exponent];
    change (N_of_ascii "e") with 101%N;
    change (101 =? 101)%N with true; cbn [orb];
    [change (N_of_ascii "-") with 45%N; change (45 =? 45)%N with true
    |change (N_of_ascii "+") with 43%N; change (43 =? 45)%N with false;
     change (43 =? 43)%N with true]; cbv iota; rewrite E;
    (destruct ds; [congruence|]); rewrite U, DecimalN.Unsigned.of_to;
    do 2 f_equal; lia.
Qed.

Lemma parse_int_digits ds rest :
  digits_ok ds = true \/ (exists d ds', ds = d :: ds' /\ (d =? 0)%N = false
                           /\ forallb (fun d => d <? 10)%N ds = true) ->
  match rest with [] => True | c :: _ => is_digit c = false end ->
  parse_int (map digit_char ds ++ rest) = Some (ds, rest).
Proof.
  intros Hds Hrest.
  assert (exists d ds', ds = d :: ds' /\ (d =? 0)%N = false
                        /\ forallb (fun d => d <? 10)%N ds = true) as (d & ds' & -> & Hd & Hall).
  { destruct Hds as [Hok|H]; [|exact H].
    apply digits_ok_inv in Hok as (Hall & (d & ds' & -> & Hd) & _). eauto. }
  pose proof (span_digits_map _ rest Hall Hrest) as Hspan.
  cbn [forallb] in Hall. apply andb_true_iff in Hall as [Hlt _]. apply N.ltb_lt in Hlt.
  cbn [map app] in *. unfold parse_int.
  rewrite is_digit_digit_char by assumption.
  replace (digit_char d =? 48)%N with false; [rewrite Hspan; reflexivity|].
  symmetry. apply N.eqb_neq. apply N.eqb_neq in Hd. unfold digit_char. lia.
Qed.

Lemma forallb_take {A} (f : A -> bool) i l : forallb f l = true -> forallb f (take i l) = true.
Proof.
  revert i. induction l as [|a l IH]; intros [|i] H; try reflexivity.
  cbn in *. apply andb_true_iff in H as [-> H]. apply IH, H.
Qed.

Lemma forallb_drop {A} (f : A -> bool) i l : forallb f l = true -> forallb f (drop i l) = true.
Proof.
  revert i. induction l as [|a l IH]; intros [|i] H; try reflexivity; try assumption.
  cbn in *. apply andb_true_iff in H as [_ H]. apply IH, H.
Qed.

Section Number.
Variables (neg : bool) (ds : list N) (rest : jsstring).
Hypothesis Hok : digits_ok ds = true.
Hypothesis Hend : value_end rest = true.

Lemma rest_not_digit : match rest with [] => True | c :: _ => is_digit c = false end.
Proof using Hend. pose proof (value_end_not_digit rest Hend). destruct rest; [trivial | tauto]. Qed.

Lemma rest_no_point : match rest with [] => True | c :: _ => (c =? 46)%N = false end.
Proof using Hend. pose proof (value_end_not_digit rest Hend). destruct rest; [trivial | tauto]. Qed.

Lemma rest_no_exp :
  match rest with [] => True | c :: _ => (c =? 101)%N = false /\ (c =? 69)%N = false end.
Proof using Hend. pose proof (value_end_not_digit rest Hend). destruct rest; [trivial | tauto]. Qed.

(** An integer: the digits and [m] zeros. *)
Lemma parse_unsigned_integer m :
  parse_unsigned neg (map digit_char (ds ++ zeros m) ++ rest)
  = Some (Dec neg ds (Z.of_nat (length ds + m)), rest).
Proof.
  destruct (digits_ok_inv _ Hok) as (Hall & (d & ds' & Eds & Hd) & _).
  unfold parse_unsigned. rewrite parse_int_digits.
  - rewrite parse_fraction_none by apply rest_no_point.
    rewrite parse_exponent_none by apply rest_no_exp.
    rewrite make_number_trailing by exact Hok.
    rewrite length_app. unfold zeros. rewrite repeat_length.
    do 3 f_equal. lia.
  - right. exists d, (ds' ++ zeros m). split; [rewrite Eds; reflexivity|].
    split; [exact Hd|]. rewrite forallb_app, Hall. apply forallb_zeros.
  - apply rest_not_digit.
Qed.

(** A decimal point after the first [i] digits. *)
Lemma parse_unsigned_point i :
  (0 < i < length ds)%nat ->
  parse_unsigned neg (map digit_char (take i ds) ++ js "." ++ map digit_char (drop i ds) ++ rest)
  = Some (Dec neg ds (Z.of_nat i), rest).
Proof.
  intros Hi.
  destruct (digits_ok_inv _ Hok) as (Hall & (d & ds' & Eds & Hd) & _).
  unfold parse_unsigned. rewrite parse_int_digits.
  - change (js "." ++ ?t) with (46%N :: t).
    rewrite parse_fraction_some.
    + rewrite parse_exponent_none by apply rest_no_exp.
      rewrite (make_number_canonical _ _ _ _ ds 0) by (try exact Hok; apply take_drop).
      rewrite length_take. do 3 f_equal. lia.
    + intros E. apply (f_equal length) in E. rewrite length_drop in E. simpl in E. lia.
    + apply forallb_drop, Hall.
    + apply rest_not_digit.
  - right. destruct i as [|i]; [lia|].
    exists d, (take i ds'). split; [rewrite Eds; reflexivity|].
    split; [exact Hd|]. apply forallb_take, Hall.
  - reflexivity.
Qed.

(** A value below one: [0.], [m] zeros and the digits. *)
Lemma parse_unsigned_small m :
  parse_unsigned neg (js "0." ++ map digit_char (zeros m ++ ds) ++ rest)
  = Some (Dec neg ds (- Z.of_nat m), rest).
Proof.
  destruct (digits_ok_inv _ Hok) as (Hall & (d & ds' & Eds & Hd) & _).
  unfold parse_unsigned.
  change (js "0." ++ ?t) with (48%N :: 46%N :: t).
  cbn [parse_int]. change (is_digit 48) with true. change (48 =? 48)%N with true. cbv iota.
  rewrite parse_fraction_some.
  - rewrite parse_exponent_none by apply rest_no_exp.
    rewrite (make_number_canonical _ _ _ _ ds (S m)) by (try exact Hok; reflexivity).
    do 3 f_equal. cbn [length]. lia.
  - rewrite Eds. destruct m; discriminate.
  - rewrite forallb_app, forallb_zeros. exact Hall.
  - apply rest_not_digit.
Qed.

(** Exponent notation. *)
Lemma parse_unsigned_exponent e :
  parse_unsigned neg
    (match ds with
     | [] => []
     | [d] => [digit_char d]
     | d :: more => digit_char d :: js "." ++ map digit_char more
     end ++ js "e" ++ (if e <? 0 then js "-" else js "+")
         ++ decimal (Z.to_N (Z.abs e)) ++ rest)
  = Some (Dec neg ds (e + 1), rest).
Proof.
  destruct (digits_ok_inv _ Hok) as (Hall & (d & ds' & Eds & Hd) & _).
  rewrite Eds in Hall. cbn [forallb] in Hall. apply andb_true_iff in Hall as [Hlt Hall'].
  unfold parse_unsigned.
  assert (Hint : forall t, match t with [] => True | c :: _ => is_digit c = false end ->
                           parse_int (digit_char d :: t) = Some ([d], t)).
  { intros t Ht. apply (parse_int_digits [d] t); [|exact Ht].
    right. exists d, []. repeat split; [exact Hd|]. cbn. rewrite Hlt. reflexivity. }
  rewrite Eds. destruct ds' as [|d2 ds'].
  - cbn [app]. rewrite Hint by reflexivity.
    rewrite parse_fraction_none by reflexivity.
    rewrite parse_exponent_printed by apply rest_not_digit.
    rewrite (make_number_canonical _ _ _ _ ds 0) by (try exact Hok; rewrite Eds; reflexivity).
    rewrite Eds. cbn [length]. do 3 f_equal. lia.
  - cbn [app]. rewrite Hint by reflexivity.
    change ((js "." ++ ?a) ++ ?b) with (46%N :: a ++ b).
    rewrite parse_fraction_some by (try discriminate; try exact Hall'; reflexivity).
    rewrite parse_exponent_printed by apply rest_not_digit.
    rewrite (make_number_canonical _ _ _ _ ds 0) by (try exact Hok; rewrite Eds; reflexivity).
    rewrite Eds. cbn [length]. do 3 f_equal. lia.
Qed.

End Number.

Lemma parse_number_of_unsigned neg body r :
  parse_unsigned neg body = Some r ->
  parse_number ((if neg then js "-" else []) ++ body) = Some r.
Proof.
  intros H. destruct neg; [exact H|]. cbn [app].
  unfold parse_number. destruct body as [|c t]; [discriminate|].
  destruct (N.eqb_spec c 45) as [->|]; [discriminate | exact H].
Qed.

Lemma parse_number_head s r :
  parse_number s = Some r ->
  exists c t, s = c :: t /\ (c = 45%N \/ is_digit c = true).
Proof.
  unfold parse_number. destruct s as [|c t]; [discriminate|].
  intros H. exists c, t. split; [reflexivity|].
  destruct (N.eqb_spec c 45); [left; assumption | right].
  unfold parse_unsigned, parse_int in H. destruct (is_digit c); [reflexivity | discriminate].
Qed.

(** [JSON.parse] inverts [Number::toString] on representable numbers. *)
Lemma parse_number_toString x rest :
  representable x = true -> value_end rest = true ->
  parse_number (Number_toString x ++ rest) = Some (x, rest).
Proof.
  intros Hx Hend. destruct x as [|neg|neg|neg ds n]; try discriminate.
  - destruct neg; [discriminate|].
    change (Number_toString (Zero false) ++ rest) with (48%N :: rest).
    cbn [parse_number]. change (48 =? 45)%N with false. cbv iota.
    unfold parse_unsigned. cbn [parse_int]. change (is_digit 48) with true.
    change (48 =? 48)%N with true. cbv iota.
    rewrite parse_fraction_none by (apply rest_no_point; exact Hend).
    rewrite parse_exponent_none by (apply rest_no_exp; exact Hend).
    reflexivity.
  - cbn [representable] in Hx. unfold Number_toString.
    rewrite <- app_assoc. apply parse_number_of_unsigned.
    assert (Hlen : (0 < length ds)%nat).
    { apply digits_ok_inv in Hx as (_ & (d & ds' & -> & _) & _). simpl. lia. }
    destruct ((-6 <? n) && (n <=? 21)) eqn:Hrange.
    + destruct (Z.leb_spec (Z.of_nat (length ds)) n) as [Hk|Hk].
      * rewrite parse_unsigned_integer by assumption. do 3 f_equal. lia.
      * destruct (Z.ltb_spec 0 n) as [Hn|Hn].
        -- rewrite <- !app_assoc. rewrite parse_unsigned_point by (try assumption; lia).
           do 3 f_equal. lia.
        -- rewrite <- !app_assoc. rewrite parse_unsigned_small by assumption.
           do 3 f_equal. lia.
    + rewrite <- !app_assoc. rewrite parse_unsigned_exponent by assumption.
      do 3 f_equal. lia.
Qed.

Lemma parse_value_number fuel s x r :
  parse_number s = Some (x, r) -> parse_value (S fuel) s = Some (JNum x, r).
Proof.
  intros H. destruct (parse_number_head _ _ H) as (c & t & -> & Hc).
  cbn [parse_value].
  assert (E : (c =? 123)%N = false /\ (c =? 91)%N = false /\ (c =? 34)%N = false
              /\ (116 =? c)%N = false /\ (102 =? c)%N = false /\ (110 =? c)%N = false).
  { destruct Hc as [->|Hc]; [repeat split|].
    unfold is_digit in Hc. apply andb_true_iff in Hc as [H1 H2].
    apply N.leb_le in H1, H2. repeat split; apply N.eqb_neq; lia. }
  destruct E as (E1 & E2 & E3 & E4 & E5 & E6).
  rewrite E1, E2, E3.
  cbn [js list_ascii_of_string map startsWith].
  change (N_of_ascii "t") with 116%N. change (N_of_ascii "f") with 102%N.
  change (N_of_ascii "n") with 110%N.
  rewrite E4, E5, E6. cbn [andb]. rewrite H. reflexivity.
Qed.

(** *** Values round-trip *)

(** Induction over [json] with the hypothesis on every item and field. *)
Lemma json_induction (P : json -> Prop)
    (Hnull : P JNull) (Hbool : forall b, P (JBool b)) (Hnum : forall x, P (JNum x))
    (Hstr : forall s, P (JStr s))
    (Harr : forall items, Forall P items -> P (JArr items))
    (Hobj : forall fields, Forall (fun kv => P (snd kv)) fields -> P (JObj fields)) :
  forall v, P v.
Proof.
  exact
    (fix F (v : json) : P v :=
       match v with
       | JNull => Hnull
       | JBool b => Hbool b
       | JNum x => Hnum x
       | JStr s => Hstr s
       | JArr items =>
         Harr items
           ((fix G (l : list json) : Forall P l :=
               match l with
               | [] => @List.Forall_nil _ P
               | x :: l' => @List.Forall_cons _ P x l' (F x) (G l')
               end) items)
       | JObj fields =>
         Hobj fields
           ((fix G (l : list (jsstring * json)) : Forall (fun kv => P (snd kv)) l :=
               match l with
               | [] => @List.Forall_nil _ _
               | x :: l' => @List.Forall_cons _ (fun kv => P (snd kv)) x l' (F (snd x)) (G l')
               end) fields)
       end).
Qed.

Lemma skip_ws_head c t : is_ws c = false -> skip_ws (c :: t) = c :: t.
Proof. intros H. cbn. rewrite H. reflexivity. Qed.

Lemma join_comma_cons p q rest :
  join_comma (p :: q :: rest) = p ++ 44%N :: join_comma (q :: rest).
Proof. reflexivity. Qed.

(** The text of a value starts with a character that is neither white space
    nor a closing bracket or brace. *)
Lemma stringify_head v :
  json_ok v = true ->
  exists c t, stringify v = c :: t /\ is_ws c = false
              /\ (c =? 93)%N = false /\ (c =? 125)%N = false.
Proof.
  destruct v as [|[|]|x|s|items|fields]; intros Hok;
    try (cbn; eexists _, _; split; [reflexivity|]; repeat split; fail).
  cbn [json_ok] in Hok. cbn [stringify].
  replace (isFinite x) with true by (destruct x as [|?|[|]|]; try discriminate; reflexivity).
  pose proof (parse_number_toString x [] Hok eq_refl) as H.
  apply parse_number_head in H as (c & t & E & Hc). rewrite app_nil_r in E.
  exists c, t. split; [exact E|].
  destruct Hc as [->|Hc]; [repeat split|].
  unfold is_digit in Hc. apply andb_true_iff in Hc as [H1 H2]. apply N.leb_le in H1, H2.
  unfold is_ws. repeat split; [|apply N.eqb_neq; lia..].
  repeat (apply orb_false_iff; split); apply N.eqb_neq; lia.
Qed.

Lemma skip_ws_stringify v rest :
  json_ok v = true -> skip_ws (stringify v ++ rest) = stringify v ++ rest.
Proof.
  intros Hok. destruct (stringify_head v Hok) as (c & t & -> & Hws & _).
  apply skip_ws_head, Hws.
Qed.

Lemma set_field_fresh acc kv fs :
  distinct (map fst (acc ++ kv :: fs)) = true -> set_field acc kv = acc ++ [kv].
Proof.
  induction acc as [|[k v] acc IH]; intros H; [reflexivity|].
  cbn [app map fst distinct set_field] in *.
  apply andb_true_iff in H as [Hk Hd]. apply negb_true_iff in Hk.
  rewrite map_app, existsb_app in Hk. apply orb_false_iff in Hk as [_ Hk].
  cbn [map existsb] in Hk. apply orb_false_iff in Hk as [Hk _].
  rewrite Hk, IH by exact Hd. reflexivity.
Qed.

Lemma fold_set_field fs : forall acc,
  distinct (map fst (acc ++ fs)) = true -> fold_left set_field fs acc = acc ++ fs.
Proof.
  induction fs as [|kv fs IH]; intros acc H; [symmetry; apply app_nil_r|].
  cbn [fold_left]. rewrite (set_field_fresh acc kv fs H).
  rewrite IH by (rewrite <- app_assoc; exact H).
  rewrite <- app_assoc. reflexivity.
Qed.

Lemma parse_elements_eq f s :
  parse_elements (S f) s =
  match parse_value f s with
  | Some (v, rest) =>
    match skip_ws rest with
    | c :: rest1 =>
      if (c =? 44)%N then cons_fst v (parse_elements f (skip_ws rest1))
      else if (c =? 93)%N then Some ([v], rest1)
      else None
    | [] => None
    end
  | None => None
  end.
Proof. reflexivity. Qed.

Lemma parse_members_eq f rest :
  parse_members (S f) (34%N :: rest) =
  match parse_chars rest with
  | Some (k, rest1) =>
    match skip_ws rest1 with
    | c :: rest2 =>
      if (c =? 58)%N then
        match parse_value f (skip_ws rest2) with
        | Some (v, rest3) =>
          match skip_ws rest3 with
          | d :: rest4 =>
            if (d =? 44)%N then cons_fst (k, v) (parse_members f (skip_ws rest4))
            else if (d =? 125)%N then Some ([(k, v)], rest4)
            else None
          | [] => None
          end
        | None => None
        end
      else None
    | [] => None
    end
  | None => None
  end.
Proof. reflexivity. Qed.

Lemma parse_value_array f c t :
  is_ws c = false -> (c =? 93)%N = false ->
  parse_value (S f) (91%N :: c :: t) =
  match parse_elements f (c :: t) with
  | Some (vs, rest2) => Some (JArr vs, rest2)
  | None => None
  end.
Proof.
  intros Hws Hc. cbn [parse_value]. change (91 =? 123)%N with false.
  change (91 =? 91)%N with true. cbv iota. rewrite skip_ws_head, Hc by exact Hws.
  reflexivity.
Qed.

Lemma parse_value_object f c t :
  is_ws c = false -> (c =? 125)%N = false ->
  parse_value (S f) (123%N :: c :: t) =
  match parse_members f (c :: t) with
  | Some (fs, rest2) => Some (JObj (fold_left set_field fs []), rest2)
  | None => None
  end.
Proof.
  intros Hws Hc. cbn [parse_value]. change (123 =? 123)%N with true.
  cbv iota. rewrite skip_ws_head, Hc by exact Hws.
  reflexivity.
Qed.

Lemma skip_ws_join v vs rest :
  json_ok v = true ->
  skip_ws (join_comma (map stringify (v :: vs)) ++ rest)
  = join_comma (map stringify (v :: vs)) ++ rest.
Proof.
  intros Hok. cbn [map join_comma]. rewrite <- app_assoc. apply skip_ws_stringify, Hok.
Qed.

Lemma parse_elements_stringify vs : forall v,
  Forall reads_back (v :: vs) -> forallb json_ok (v :: vs) = true ->
  forall fuel rest,
    (list_sum (map (fun x => S (weight x)) (v :: vs)) <= fuel)%nat ->
    parse_elements fuel (join_comma (map stringify (v :: vs)) ++ 93%N :: rest)
    = Some (v :: vs, rest).
Proof.
  induction vs as [|a vs IH]; intros v Hall Hok fuel rest Hfuel;
    apply Forall_cons in Hall as [Hv Hall];
    cbn [forallb] in Hok; apply andb_true_iff in Hok as [Hokv Hok];
    cbn [map list_sum fold_right] in Hfuel;
    (destruct fuel as [|f]; [lia|]); rewrite parse_elements_eq.
  - cbn [map join_comma concat]. rewrite app_nil_r.
    rewrite (Hv f (93%N :: rest)) by (try reflexivity; lia).
    reflexivity.
  - change (map stringify (v :: a :: vs)) with (stringify v :: stringify a :: map stringify vs).
    rewrite join_comma_cons, <- app_assoc. cbn [app].
    change (stringify a :: map stringify vs) with (map stringify (a :: vs)).
    rewrite (Hv f) by (try reflexivity; lia).
    rewrite skip_ws_head by reflexivity. change (44 =? 44)%N with true. cbv iota.
    cbn [forallb] in Hok. pose proof Hok as Hok'. apply andb_true_iff in Hok' as [Hoka _].
    rewrite skip_ws_join by exact Hoka.
    rewrite (IH a Hall Hok) by (cbn [map list_sum fold_right] in *; lia).
    reflexivity.
Qed.

Lemma skip_ws_join_members a fs rest :
  skip_ws (join_comma (map print_member (a :: fs)) ++ rest)
  = join_comma (map print_member (a :: fs)) ++ rest.
Proof. reflexivity. Qed.

Lemma parse_members_stringify fs : forall kv,
  Forall (fun kv => reads_back (snd kv)) (kv :: fs) ->
  forallb (fun kv => json_ok (snd kv)) (kv :: fs) = true ->
  forall fuel rest,
    (list_sum (map (fun kv => S (weight (snd kv))) (kv :: fs)) <= fuel)%nat ->
    parse_members fuel (join_comma (map print_member (kv :: fs)) ++ 125%N :: rest)
    = Some (kv :: fs, rest).
Proof.
  induction fs as [|a fs IH]; intros [k v] Hall Hok fuel rest Hfuel;
    apply Forall_cons in Hall as [Hv Hall];
    cbn [forallb snd] in Hok; apply andb_true_iff in Hok as [Hokv Hok];
    cbn [map list_sum fold_right snd] in Hfuel; cbn [snd] in Hv;
    (destruct fuel as [|f]; [lia|]).
  - cbn [map join_comma concat]. rewrite app_nil_r.
    unfold print_member, QuoteJSONString. cbn [fst snd].
    rewrite <- !app_assoc. cbn [app]. rewrite parse_members_eq.
    rewrite <- app_assoc. cbn [app]. rewrite parse_chars_quote_chars.
    rewrite skip_ws_head by reflexivity. change (58 =? 58)%N with true. cbv iota.
    rewrite skip_ws_stringify by exact Hokv.
    rewrite (Hv f (125%N :: rest)) by (try reflexivity; lia).
    reflexivity.
  - change (map print_member ((k, v) :: a :: fs))
      with (print_member (k, v) :: print_member a :: map print_member fs).
    rewrite join_comma_cons, <- app_assoc.
    change (print_member a :: map print_member fs) with (map print_member (a :: fs)).
    unfold print_member at 1, QuoteJSONString. cbn [fst snd].
    rewrite <- !app_assoc. cbn [app]. rewrite parse_members_eq.
    rewrite <- app_assoc. cbn [app]. rewrite parse_chars_quote_chars.
    rewrite skip_ws_head by reflexivity. change (58 =? 58)%N with true. cbv iota.
    rewrite skip_ws_stringify by exact Hokv.
    rewrite (Hv f) by (try reflexivity; lia).
    rewrite skip_ws_head by reflexivity. change (44 =? 44)%N with true. cbv iota.
    rewrite skip_ws_join_members.
    rewrite (IH a Hall Hok) by (cbn [map list_sum fold_right] in *; lia).
    reflexivity.
Qed.

(** [parse_value] inverts [stringify] on every value that [json_ok] admits. *)
Lemma parse_value_stringify v : json_ok v = true -> reads_back v.
Proof.
  induction v as [|b|x|s|items IH|fields IH] using json_induction;
    intros Hok fuel rest Hfuel Hend; cbn [weight] in Hfuel;
    (destruct fuel as [|f]; [lia|]).
  - reflexivity.
  - destruct b; reflexivity.
  - cbn [json_ok] in Hok. cbn [stringify].
    replace (isFinite x) with true by (destruct x as [|?|[|]|]; try discriminate; reflexivity).
    apply parse_value_number, parse_number_toString; assumption.
  - cbn [stringify]. unfold QuoteJSONString. cbn [app]. rewrite <- app_assoc. cbn [app parse_value].
    change (34 =? 123)%N with false. change (34 =? 91)%N with false.
    change (34 =? 34)%N with true. cbv iota.
    rewrite parse_chars_quote_chars. reflexivity.
  - cbn [json_ok] in Hok. cbn [stringify app]. rewrite <- app_assoc. cbn [app].
    destruct items as [|v vs]; [reflexivity|].
    assert (Hall : Forall reads_back (v :: vs)).
    { apply Forall_forall. intros x Hx. rewrite Forall_forall in IH. apply IH; [exact Hx|].
      rewrite forallb_forall in Hok. apply Hok. apply list_elem_of_In, Hx. }
    pose proof (parse_elements_stringify vs v Hall Hok f rest ltac:(lia)) as Hel.
    pose proof Hok as Hok'. cbn [forallb] in Hok'. apply andb_true_iff in Hok' as [Hv _].
    destruct (stringify_head v Hv) as (c & t & E & Hws & H93 & _).
    revert Hel. cbn [map join_comma]. rewrite E. cbn [app]. intros Hel.
    rewrite parse_value_array, Hel by assumption. reflexivity.
  - cbn [json_ok] in Hok. apply andb_true_iff in Hok as [Hkeys Hok].
    cbn [stringify app]. rewrite <- app_assoc. cbn [app].
    destruct fields as [|kv fs]; [reflexivity|].
    assert (Hall : Forall (fun kv => reads_back (snd kv)) (kv :: fs)).
    { apply Forall_forall. intros x Hx. rewrite Forall_forall in IH. apply IH; [exact Hx|].
      rewrite forallb_forall in Hok. apply Hok. apply list_elem_of_In, Hx. }
    pose proof (parse_members_stringify fs kv Hall Hok f rest ltac:(lia)) as Hm.
    change (parse_value (S f)
              (123%N :: (join_comma (map print_member (kv :: fs)) ++ 125%N :: rest))
            = Some (JObj (kv :: fs), rest)).
    assert (E : exists t, join_comma (map print_member (kv :: fs)) ++ 125%N :: rest = 34%N :: t)
      by (eexists; reflexivity).
    destruct E as [t E]. rewrite E in *.
    rewrite parse_value_object, Hm by reflexivity.
    rewrite (fold_set_field (kv :: fs) []) by exact Hkeys. reflexivity.
Qed.

Lemma join_comma_length ps :
  (list_sum (map (fun p => S (length p)) ps) <= S (length (join_comma ps)))%nat.
Proof.
  induction ps as [|p [|q ps] IH].
  - cbn. lia.
  - cbn [map list_sum fold_right join_comma concat]. rewrite app_nil_r. lia.
  - rewrite join_comma_cons. cbn [map list_sum fold_right] in *.
    rewrite length_app. cbn [length]. unfold jsstring in *. lia.
Qed.

Lemma list_sum_le {A} (f g : A -> nat) l :
  Forall (fun x => f x <= g x)%nat l -> (list_sum (map f l) <= list_sum (map g l))%nat.
Proof.
  induction 1 as [|x l Hx _ IH]; unfold list_sum in *; cbn [map fold_right] in *; lia.
Qed.

Lemma weight_le_length v :
  json_ok v = true -> (weight v <= length (stringify v))%nat.
Proof.
  induction v as [|b|x|s|items IH|fields IH] using json_induction; intros Hok.
  - cbn. lia.
  - destruct b; cbn; lia.
  - destruct (stringify_head _ Hok) as (c & t & -> & _). cbn. lia.
  - cbn [stringify weight]. unfold QuoteJSONString. cbn [length]. lia.
  - cbn [json_ok] in Hok. cbn [stringify weight length]. rewrite length_app. cbn [length].
    pose proof (join_comma_length (map stringify items)) as Hj. rewrite map_map in Hj.
    assert (list_sum (map (fun x => S (weight x)) items)
            <= list_sum (map (fun x => S (length (stringify x))) items))%nat; [|lia].
    apply list_sum_le. rewrite Forall_forall in IH |- *. intros x Hx.
    apply le_n_S, IH; [exact Hx|]. rewrite forallb_forall in Hok.
    apply Hok, list_elem_of_In, Hx.
  - cbn [json_ok] in Hok. apply andb_true_iff in Hok as [_ Hok].
    cbn [stringify weight length]. rewrite length_app. cbn [length].
    match goal with |- context [join_comma ?l] => pose proof (join_comma_length l) as Hj end.
    rewrite map_map in Hj.
    match type of Hj with
      (list_sum (map ?g _) <= _)%nat =>
      assert (list_sum (map (fun kv => S (weight (snd kv))) fields)
              <= list_sum (map g fields))%nat; [|lia]
    end.
    apply list_sum_le. rewrite Forall_forall in IH |- *. intros x Hx.
    cbn beta. rewrite length_app. cbn [length].
    assert (weight (snd x) <= length (stringify (snd x)))%nat; [|lia].
    apply IH; [exact Hx|]. rewrite forallb_forall in Hok.
    apply Hok, list_elem_of_In, Hx.
Qed.

(** Round trip of the built-in JSON object: a value whose numbers are
    representable parses back from its own text. *)
Lemma parse_stringify v : json_ok v = true -> parse (stringify v) = Some v.
Proof.
  intros Hok. unfold parse.
  pose proof (skip_ws_stringify v [] Hok) as Hws. rewrite app_nil_r in Hws. rewrite Hws.
  pose proof (parse_value_stringify v Hok (2 * length (stringify v) + 2)%nat []) as H.
  rewrite app_nil_r in H. rewrite H; [reflexivity| |reflexivity].
  pose proof (weight_le_length v Hok). lia.
Qed.

(** *** The fuel of [parse] is enough for every text *)

Lemma skip_ws_length s : (length (skip_ws s) <= length s)%nat.
Proof.
  induction s as [|c s IH]; [reflexivity|]. cbn [skip_ws].
  destruct (is_ws c); cbn [length]; lia.
Qed.

Lemma cons_fst_some {A B} (a : A) (r : option (list A * B)) l b :
  cons_fst a r = Some (l, b) -> exists l', r = Some (l', b) /\ l = a :: l'.
Proof.
  destruct r as [[l' b']|]; [|discriminate]. cbn. intros [= <- <-]. eauto.
Qed.

Lemma parse_chars_length_bound n : forall s k rest,
  (length s <= n)%nat -> parse_chars s = Some (k, rest) -> (length rest < length s)%nat.
Proof.
  induction n as [|n IH]; intros s k rest Hn H.
  - destruct s; [discriminate | cbn in Hn; lia].
  - destruct s as [|c s]; [discriminate|]. cbn [length] in *. cbn [parse_chars] in H.
    destruct (c =? 34)%N; [injection H as _ <-; lia|].
    destruct (c =? 92)%N.
    + destruct s as [|e s1]; [discriminate|]. cbn [length] in *.
      destruct (e =? 117)%N.
      * destruct s1 as [|h1 [|h2 [|h3 [|h4 s2]]]]; try discriminate.
        destruct (hex4 h1 h2 h3 h4); [|discriminate].
        apply cons_fst_some in H as (k' & H & _).
        apply IH in H; cbn [length] in *; lia.
      * destruct (unescape e); [|discriminate].
        apply cons_fst_some in H as (k' & H & _).
        apply IH in H; cbn [length] in *; lia.
    + destruct (c <? 32)%N; [discriminate|].
      apply cons_fst_some in H as (k' & H & _).
      apply IH in H; lia.
Qed.

Lemma parse_chars_length s k rest :
  parse_chars s = Some (k, rest) -> (length rest < length s)%nat.
Proof. apply (parse_chars_length_bound (length s)). lia. Qed.

Lemma span_digits_length s : (length (snd (span_digits s)) <= length s)%nat.
Proof.
  induction s as [|c s IH]; [reflexivity|]. cbn [span_digits].
  destruct (is_digit c); [|reflexivity].
  destruct (span_digits s) as [ds rest]. cbn [snd length] in *. lia.
Qed.

Lemma parse_fraction_length s fs rest :
  parse_fraction s = Some (fs, rest) -> (length rest <= length s)%nat.
Proof.
  unfold parse_fraction. destruct s as [|c s]; [intros [= _ <-]; lia|].
  destruct (c =? 46)%N; [|intros [= _ <-]; lia].
  pose proof (span_digits_length s) as Hs.
  destruct (span_digits s) as [[|d ds] r]; [discriminate|].
  intros [= _ <-]. cbn [snd length] in *. lia.
Qed.

Lemma parse_exponent_length s e rest :
  parse_exponent s = Some (e, rest) -> (length rest <= length s)%nat.
Proof.
  unfold parse_exponent. destruct s as [|c s]; [intros [= _ <-]; lia|].
  destruct ((c =? 101) || (c =? 69))%N; [|intros [= _ <-]; lia].
  assert (Hspan : forall r, (length (snd (span_digits r)) <= length r)%nat)
    by apply span_digits_length.
  destruct s as [|sg s']; [discriminate|].
  destruct (sg =? 45)%N; [|destruct (sg =? 43)%N];
    match goal with
    | |- context [span_digits ?r] =>
      specialize (Hspan r); destruct (span_digits r) as [[|d ds] r2]; [discriminate|];
      intros [= _ <-]; cbn [snd length] in *; lia
    end.
Qed.

Lemma parse_unsigned_length neg s x rest :
  parse_unsigned neg s = Some (x, rest) -> (length rest < length s)%nat.
Proof.
  unfold parse_unsigned, parse_int. destruct s as [|c s]; [discriminate|].
  destruct (is_digit c) eqn:Hc; [|discriminate].
  assert (Hint : (length (snd (if (c =? 48)%N then ([0%N], s) else span_digits (c :: s)))
                  <= length s)%nat).
  { destruct (c =? 48)%N; [reflexivity|]. cbn [span_digits]. rewrite Hc.
    pose proof (span_digits_length s). destruct (span_digits s). cbn [snd] in *. lia. }
  destruct (if (c =? 48)%N then ([0%N], s) else span_digits (c :: s)) as [int r1].
  cbn [snd] in Hint.
  destruct (parse_fraction r1) as [[frac r2]|] eqn:Hf; [|discriminate].
  destruct (parse_exponent r2) as [[e r3]|] eqn:He; [|discriminate].
  intros [= _ <-]. apply parse_fraction_length in Hf. apply parse_exponent_length in He.
  cbn [length]. lia.
Qed.

Lemma parse_number_length s x rest :
  parse_number s = Some (x, rest) -> (length rest < length s)%nat.
Proof.
  unfold parse_number. destruct s as [|c s]; [discriminate|].
  destruct (c =? 45)%N; intros H; apply parse_unsigned_length in H; cbn [length] in *; lia.
Qed.

Lemma parse_value_eq f c rest :
  parse_value (S f) (c :: rest) =
  if (c =? 123)%N then
    match skip_ws rest with
    | d :: rest1 =>
      if (d =? 125)%N then Some (JObj [], rest1)
      else
        match parse_members f (d :: rest1) with
        | Some (fs, rest2) => Some (JObj (fold_left set_field fs []), rest2)
        | None => None
        end
    | [] => None
    end
  else if (c =? 91)%N then
    match skip_ws rest with
    | d :: rest1 =>
      if (d =? 93)%N then Some (JArr [], rest1)
      else
        match parse_elements f (d :: rest1) with
        | Some (vs, rest2) => Some (JArr vs, rest2)
        | None => None
        end
    | [] => None
    end
  else if (c =? 34)%N then
    match parse_chars rest with
    | Some (str, rest1) => Some (JStr str, rest1)
    | None => None
    end
  else if startsWith (js "true") (c :: rest) then Some (JBool true, drop 4 (c :: rest))
  else if startsWith (js "false") (c :: rest) then Some (JBool false, drop 5 (c :: rest))
  else if startsWith (js "null") (c :: rest) then Some (JNull, drop 4 (c :: rest))
  else
    match parse_number (c :: rest) with
    | Some (x, rest1) => Some (JNum x, rest1)
    | None => None
    end.
Proof. reflexivity. Qed.

Lemma parse_members_eq_gen f q rest :
  parse_members (S f) (q :: rest) =
  if (q =? 34)%N then
    match parse_chars rest with
    | Some (k, rest1) =>
      match skip_ws rest1 with
      | c :: rest2 =>
        if (c =? 58)%N then
          match parse_value f (skip_ws rest2) with
          | Some (v, rest3) =>
            match skip_ws rest3 with
            | d :: rest4 =>
              if (d =? 44)%N then cons_fst (k, v) (parse_members f (skip_ws rest4))
              else if (d =? 125)%N then Some ([(k, v)], rest4)
              else None
            | [] => None
            end
          | None => None
          end
        else None
      | [] => None
      end
    | None => None
    end
  else None.
Proof. reflexivity. Qed.

Lemma startsWith_length p s : startsWith p s = true -> (length p <= length s)%nat.
Proof.
  revert s. induction p as [|a p IH]; intros [|c s] H; cbn in *; try lia; try discriminate.
  apply andb_true_iff in H as [_ H]. apply IH in H. lia.
Qed.

(** A successful read consumes input, and any larger amount of fuel than
    twice what it consumed gives the same result. *)
Lemma parse_fuel f :
  (forall s v rest, parse_value f s = Some (v, rest) ->
     (length rest < length s)%nat
     /\ forall f', (2 * (length s - length rest) <= f')%nat ->
                   parse_value f' s = Some (v, rest))
  /\ (forall s vs rest, parse_elements f s = Some (vs, rest) ->
     (length rest < length s)%nat
     /\ forall f', (2 * (length s - length rest) - 1 <= f')%nat ->
                   parse_elements f' s = Some (vs, rest))
  /\ (forall s fs rest, parse_members f s = Some (fs, rest) ->
     (length rest < length s)%nat
     /\ forall f', (2 * (length s - length rest) - 1 <= f')%nat ->
                   parse_members f' s = Some (fs, rest)).
Proof.
  induction f as [|f (IHV & IHE & IHM)]; [repeat split; discriminate|].
  split; [|split].
  - intros [|c rest0] v rest H; [discriminate|].
    rewrite parse_value_eq in H.
    assert (Hdone : (length rest < length (c :: rest0))%nat ->
              (forall f', parse_value (S f') (c :: rest0) = Some (v, rest)) ->
              (length rest < length (c :: rest0))%nat
              /\ forall f', (2 * (length (c :: rest0) - length rest) <= f')%nat ->
                            parse_value f' (c :: rest0) = Some (v, rest)).
    { intros Hlen Hall. split; [exact Hlen|]. intros [|f'] Hf'; [lia | apply Hall]. }
    pose proof (skip_ws_length rest0) as Hws.
    destruct (c =? 123)%N eqn:E1.
    { destruct (skip_ws rest0) as [|d rest1] eqn:Ews; [discriminate|].
      destruct (d =? 125)%N eqn:E2.
      - injection H as <- <-. apply Hdone; [cbn [length] in *; lia|].
        intros f'. rewrite parse_value_eq, E1, Ews, E2. reflexivity.
      - destruct (parse_members f (d :: rest1)) as [[fs rest2]|] eqn:Hm; [|discriminate].
        injection H as <- <-. apply IHM in Hm as [Hlen Hfuel].
        split; [cbn [length] in *; lia|].
        intros [|f'] Hf'; [cbn [length] in *; lia|].
        rewrite parse_value_eq, E1, Ews, E2, Hfuel; [reflexivity | cbn [length] in *; lia]. }
    destruct (c =? 91)%N eqn:E3.
    { destruct (skip_ws rest0) as [|d rest1] eqn:Ews; [discriminate|].
      destruct (d =? 93)%N eqn:E2.
      - injection H as <- <-. apply Hdone; [cbn [length] in *; lia|].
        intros f'. rewrite parse_value_eq, E1, E3, Ews, E2. reflexivity.
      - destruct (parse_elements f (d :: rest1)) as [[vs rest2]|] eqn:He; [|discriminate].
        injection H as <- <-. apply IHE in He as [Hlen Hfuel].
        split; [cbn [length] in *; lia|].
        intros [|f'] Hf'; [cbn [length] in *; lia|].
        rewrite parse_value_eq, E1, E3, Ews, E2, Hfuel; [reflexivity | cbn [length] in *; lia]. }
    destruct (c =? 34)%N eqn:E4.
    { destruct (parse_chars rest0) as [[str rest1]|] eqn:Hc; [|discriminate].
      injection H as <- <-. pose proof (parse_chars_length _ _ _ Hc) as Hlen.
      apply Hdone; [cbn [length]; lia|].
      intros f'. rewrite parse_value_eq, E1, E3, E4, Hc. reflexivity. }
    destruct (startsWith (js "true") (c :: rest0)) eqn:E5.
    { injection H as <- <-. pose proof (startsWith_length _ _ E5) as Hsw.
      apply Hdone; [rewrite length_drop; cbn [length js list_ascii_of_string map] in *; lia|].
      intros f'. rewrite parse_value_eq, E1, E3, E4, E5. reflexivity. }
    destruct (startsWith (js "false") (c :: rest0)) eqn:E6.
    { injection H as <- <-. pose proof (startsWith_length _ _ E6) as Hsw.
      apply Hdone; [rewrite length_drop; cbn [length js list_ascii_of_string map] in *; lia|].
      intros f'. rewrite parse_value_eq, E1, E3, E4, E5, E6. reflexivity. }
    destruct (startsWith (js "null") (c :: rest0)) eqn:E7.
    { injection H as <- <-. pose proof (startsWith_length _ _ E7) as Hsw.
      apply Hdone; [rewrite length_drop; cbn [length js list_ascii_of_string map] in *; lia|].
      intros f'. rewrite parse_value_eq, E1, E3, E4, E5, E6, E7. reflexivity. }
    destruct (parse_number (c :: rest0)) as [[x rest1]|] eqn:Hn; [|discriminate].
    injection H as <- <-. pose proof (parse_number_length _ _ _ Hn) as Hlen.
    apply Hdone; [exact Hlen|].
    intros f'. rewrite parse_value_eq, E1, E3, E4, E5, E6, E7, Hn. reflexivity.
  - intros s vs rest H. rewrite parse_elements_eq in H.
    destruct (parse_value f s) as [[v r]|] eqn:Hv; [|discriminate].
    apply IHV in Hv as [Hlenv Hfuelv].
    pose proof (skip_ws_length r) as Hws.
    destruct (skip_ws r) as [|c rest1] eqn:Ews; [discriminate|].
    destruct (c =? 44)%N eqn:E1.
    + apply cons_fst_some in H as (vs' & He & ->).
      apply IHE in He as [Hlene Hfuele].
      pose proof (skip_ws_length rest1) as Hws1.
      split; [cbn [length] in *; lia|].
      intros [|f'] Hf'; [cbn [length] in *; lia|].
      rewrite parse_elements_eq, Hfuelv, Ews, E1, Hfuele by (cbn [length] in *; lia).
      reflexivity.
    + destruct (c =? 93)%N eqn:E2; [|discriminate].
      injection H as <- <-. split; [cbn [length] in *; lia|].
      intros [|f'] Hf'; [cbn [length] in *; lia|].
      rewrite parse_elements_eq, Hfuelv, Ews, E1, E2 by (cbn [length] in *; lia).
      reflexivity.
  - intros [|q rest0] fs rest H; [discriminate|]. rewrite parse_members_eq_gen in H.
    destruct (q =? 34)%N eqn:E0; [|discriminate].
    destruct (parse_chars rest0) as [[k rest1]|] eqn:Hk; [|discriminate].
    pose proof (parse_chars_length _ _ _ Hk) as Hlenk.
    pose proof (skip_ws_length rest1) as Hws1.
    destruct (skip_ws rest1) as [|c rest2] eqn:Ews1; [discriminate|].
    destruct (c =? 58)%N eqn:E1; [|discriminate].
    pose proof (skip_ws_length rest2) as Hws2.
    destruct (parse_value f (skip_ws rest2)) as [[v rest3]|] eqn:Hv; [|discriminate].
    apply IHV in Hv as [Hlenv Hfuelv].
    pose proof (skip_ws_length rest3) as Hws3.
    destruct (skip_ws rest3) as [|d rest4] eqn:Ews3; [discriminate|].
    destruct (d =? 44)%N eqn:E2.
    + apply cons_fst_some in H as (fs' & Hm & ->).
      apply IHM in Hm as [Hlenm Hfuelm].
      pose proof (skip_ws_length rest4) as Hws4.
      split; [cbn [length] in *; lia|].
      intros [|f'] Hf'; [cbn [length] in *; lia|].
      rewrite parse_members_eq_gen, E0, Hk, Ews1, E1, Hfuelv, Ews3, E2, Hfuelm
        by (cbn [length] in *; lia).
      reflexivity.
    + destruct (d =? 125)%N eqn:E3; [|discriminate].
      injection H as <- <-. split; [cbn [length] in *; lia|].
      intros [|f'] Hf'; [cbn [length] in *; lia|].
      rewrite parse_members_eq_gen, E0, Hk, Ews1, E1, Hfuelv, Ews3, E2, E3
        by (cbn [length] in *; lia).
      reflexivity.
Qed.

(** [parse] rejects a text only when no amount of fuel would read it:
    whatever [parse_value] can read with some fuel, it reads with the fuel
    that [parse] gives it. *)
Lemma parse_fuel_enough text f v rest :
  parse_value f (skip_ws text) = Some (v, rest) ->
  parse_value (2 * length text + 2) (skip_ws text) = Some (v, rest).
Proof.
  intros H. destruct (parse_fuel f) as (HV & _ & _).
  apply HV in H as [Hlen Hfuel]. apply Hfuel.
  pose proof (skip_ws_length text). lia.
Qed.

(** *** The IPC channel *)
Import Ipc.

Ltac split_andb :=
  repeat match goal with E : _ && _ = true |- _ => apply andb_true_iff in E as [? ?] end.

Lemma trimStart_head c t : is_trim_space c = false -> trimStart (c :: t) = c :: t.
Proof. intros H. cbn. rewrite H. reflexivity. Qed.

(** [trim] leaves the text of an object as it is. *)
Lemma trim_braces body : trim (123%N :: body ++ [125%N]) = 123%N :: body ++ [125%N].
Proof.
  unfold trim. rewrite trimStart_head by reflexivity.
  change (123%N :: body ++ [125%N]) with ((123%N :: body) ++ [125%N]).
  rewrite rev_app_distr. cbn [rev app].
  rewrite trimStart_head by reflexivity.
  change (125%N :: rev body ++ [123%N]) with ([125%N] ++ rev body ++ [123%N]).
  rewrite !rev_app_distr. cbn [rev app]. rewrite rev_involutive. reflexivity.
Qed.

(** Serialising then parsing gives back any object that passes validation
    and that JSON text can carry. *)
Lemma parseIpcLine_serializeIpc fields :
  json_ok (JObj fields) = true -> isValidIpcMessage (JObj fields) = true ->
  parseIpcLine (serializeIpc (JObj fields)) = Some (JObj fields).
Proof.
  intros Hok Hvalid. unfold parseIpcLine, serializeIpc.
  pose proof (parse_stringify _ Hok) as Hparse. revert Hparse.
  cbn [stringify]. rewrite trim_braces. intros ->. rewrite Hvalid. reflexivity.
Qed.

Lemma message_object_ok m :
  forallb representable (message_numbers m) = true ->
  json_ok (message_object m) = true /\ isValidIpcMessage (message_object m) = true.
Proof.
  destruct m as [text ts|text cost [i o r w] dur turns|msg cost [i o r w] dur turns];
    cbn [message_numbers forallb input output cacheRead cacheWrite];
    intros H; (split; [|reflexivity]).
  - reflexivity.
  - split_andb.
    cbn [message_object tokens_object json_ok forallb snd input output cacheRead cacheWrite].
    repeat match goal with E : representable _ = true |- _ => rewrite E; clear E end.
    vm_compute. reflexivity.
  - split_andb.
    cbn [message_object tokens_object json_ok forallb snd input output cacheRead cacheWrite].
    repeat match goal with E : representable _ = true |- _ => rewrite E; clear E end.
    vm_compute. reflexivity.
Qed.

Lemma representable_plus_zero x :
  isFinite x = true -> number_ok x = true -> representable (plus_zero x) = true.
Proof. destruct x; try discriminate; intros _ H; [reflexivity | exact H]. Qed.

Lemma plus_zero_id x : no_negative_zero x = true -> plus_zero x = x.
Proof. destruct x as [| |[|]|]; try discriminate; reflexivity. Qed.

Lemma stringify_plus_zero x : stringify (JNum (plus_zero x)) = stringify (JNum x).
Proof. destruct x; reflexivity. Qed.

Lemma message_numbers_read_back m :
  message_numbers (read_back m) = map plus_zero (message_numbers m).
Proof. destruct m as [| ? ? [] ? ? | ? ? [] ? ?]; reflexivity. Qed.

Lemma read_back_id m :
  forallb no_negative_zero (message_numbers m) = true -> read_back m = m.
Proof.
  destruct m as [text ts|text cost [i o r w] dur turns|msg cost [i o r w] dur turns];
    [reflexivity|..];
    cbn [message_numbers forallb input output cacheRead cacheWrite]; intros H;
    split_andb;
    cbn [read_back]; unfold read_back_tokens; cbn [input output cacheRead cacheWrite];
    rewrite !plus_zero_id by assumption; reflexivity.
Qed.

Lemma stringify_object_ext fs fs' :
  Forall2 (fun a b => fst a = fst b /\ stringify (snd a) = stringify (snd b)) fs fs' ->
  stringify (JObj fs) = stringify (JObj fs').
Proof.
  intros H. cbn [stringify]. do 3 f_equal.
  induction H as [|a b fs fs' [Hk Hv] _ IH]; [reflexivity|].
  cbn [map]. rewrite Hk, Hv, IH. reflexivity.
Qed.

(** The sign of a zero does not show in the serialised message. *)
Lemma serializeIpc_read_back m :
  serializeIpc (message_object (read_back m)) = serializeIpc (message_object m).
Proof.
  unfold serializeIpc.
  destruct m as [text ts|text cost [i o r w] dur turns|msg cost [i o r w] dur turns];
    [reflexivity|..];
    cbn [read_back message_object]; unfold read_back_tokens, tokens_object;
    cbn [input output cacheRead cacheWrite];
    apply stringify_object_ext;
    repeat (apply List.Forall2_cons; [split; [reflexivity|]|]);
    try apply List.Forall2_nil; try reflexivity; try apply stringify_plus_zero;
    apply stringify_object_ext;
    repeat (apply List.Forall2_cons; [split; [reflexivity|apply stringify_plus_zero]|]);
    apply List.Forall2_nil.
Qed.

(** A result message with a NaN cost: it passes validation before it is
    sent, its cost is written as [null], and the line is rejected. *)
Lemma parseIpcLine_serializeIpc_nan_cost :
  isValidIpcMessage (message_object Sample.nan_message) = true
  /\ (exists parsed,
        JSON.parse (serializeIpc (message_object Sample.nan_message)) = Some parsed
        /\ get "costUsd" (Some parsed) = Some JNull
        /\ isValidIpcMessage parsed = false)
  /\ parseIpcLine (serializeIpc (message_object Sample.nan_message)) = None
  /\ parseIpcLine (serializeIpc (message_object Sample.nan_message))
     <> Some (message_object Sample.nan_message).
Proof.
  split; [reflexivity|]. split.
  - eexists. split; [vm_compute; reflexivity|]. split; reflexivity.
  - split; [vm_compute; reflexivity | vm_compute; discriminate].
Qed.

Import Runner.

(** C5 (amended). Every progress, result or error message whose numbers
    are all finite is given back by [parseIpcLine (serializeIpc msg)]: what
    is parsed is the original message, a negative zero being read as 0 (and
    so the very same message when it holds no negative zero). And a stderr line
    that does not start with [IPC_PREFIX] reaches no message handler in either
    backend: it is logged as diagnostic output and the trace of callbacks
    stays as it was. *)
Theorem ipc_roundtrip_and_prefix_gate (m : IpcMessage) (st : Child) (line : jsstring) :
  message_finite m = true ->
  message_wf m = true ->
  startsWith IPC_PREFIX line = false ->
  parseIpcLine (serializeIpc (message_object m)) = Some (message_object (read_back m))
  /\ (forallb no_negative_zero (message_numbers m) = true ->
      parseIpcLine (serializeIpc (message_object m)) = Some (message_object m))
  /\ calls (ContainerManager.on_line st line) = calls st
  /\ calls (LocalRunner.on_line st line) = calls st
  /\ log (ContainerManager.on_line st line) = log st ++ [DebugStderr line]
  /\ log (LocalRunner.on_line st line) = log st ++ [DebugStderr line].
Proof.
  intros Hfin Hwf Hline.
  assert (Hrt : parseIpcLine (serializeIpc (message_object m))
                = Some (message_object (read_back m))).
  { rewrite <- serializeIpc_read_back.
    destruct (message_object_ok (read_back m)) as [Hok Hvalid].
    - rewrite message_numbers_read_back, forallb_forall. intros y Hy.
      apply in_map_iff in Hy as (x & <- & Hx).
      unfold message_finite, message_wf in *. rewrite forallb_forall in Hfin, Hwf.
      apply representable_plus_zero; auto.
    - destruct (read_back m); apply parseIpcLine_serializeIpc; assumption. }
  split; [exact Hrt|]. split.
  - intros Hz. rewrite Hrt, (read_back_id m Hz). reflexivity.
  - unfold ContainerManager.on_line, LocalRunner.on_line. rewrite Hline.
    repeat split.
Qed.

Lemma ipc_roundtrip_and_prefix_gate_witness :
  message_finite Sample.result_message = true
  /\ message_wf Sample.result_message = true
  /\ startsWith IPC_PREFIX (js "[runner] starting") = false
  /\ parseIpcLine (serializeIpc (message_object Sample.result_message))
     = Some (message_object Sample.result_message)
  /\ calls (ContainerManager.on_line (ContainerManager.run 1 None) (js "[runner] starting")) = [].
Proof.
  split; [reflexivity|]. split; [reflexivity|]. split; [reflexivity|].
  pose proof (ipc_roundtrip_and_prefix_gate Sample.result_message
                (ContainerManager.run 1 None) (js "[runner] starting")
                eq_refl eq_refl eq_refl) as (_ & H1 & H2 & _).
  split; [exact (H1 eq_refl) | exact H2].
Defined.

(** C10. [parseIpcLine] accepts a result message whose [tokensUsed] is the
    empty object, so that none of the four token counts can be read from what
    it returns; and validation never looks inside [tokensUsed]: whatever
    properties that object has, the verdict is the same. *)
Theorem parseIpcLine_accepts_empty_tokensUsed :
  (exists msg,
      parseIpcLine Sample.empty_tokens_line = Some msg
      /\ get "tokensUsed" (Some msg) = Some (JObj [])
      /\ get "input" (get "tokensUsed" (Some msg)) = None
      /\ get "output" (get "tokensUsed" (Some msg)) = None
      /\ get "cacheRead" (get "tokensUsed" (Some msg)) = None
      /\ get "cacheWrite" (get "tokensUsed" (Some msg)) = None)
  /\ (forall others inside inside',
         isValidIpcMessage (JObj ((js "tokensUsed", JObj inside) :: others))
         = isValidIpcMessage (JObj ((js "tokensUsed", JObj inside') :: others))).
Proof.
  split.
  - eexists. split; [vm_compute; reflexivity|]. repeat split.
  - intros others inside inside'. reflexivity.
Qed.

(** *** Order facts on doubles *)

Lemma SFcompare_refl x : x <> S754_nan -> SFcompare x x = Some Eq.
Proof.
  destruct x as [s|s| |s m e]; intros H; cbn [SFcompare].
  - reflexivity.
  - destruct s; reflexivity.
  - contradiction.
  - rewrite Z.compare_refl, Pos.compare_cont_refl. destruct s; reflexivity.
Qed.

Lemma is_nan_spec x : is_nan x = true <-> Prim2SF x = S754_nan.
Proof.
  unfold is_nan. rewrite FloatAxioms.eqb_spec. unfold SFeqb. split.
  - intros H. destruct (Prim2SF x) as [s|s| |s m e] eqn:E; [| | reflexivity |].
    + discriminate.
    + destruct s; discriminate.
    + rewrite SFcompare_refl in H by discriminate. discriminate.
  - intros ->. reflexivity.
Qed.

Lemma is_nan_false x : is_nan x = false <-> Prim2SF x <> S754_nan.
Proof.
  rewrite <- is_nan_spec. destruct (is_nan x); split; congruence.
Qed.

Lemma leb_refl x : is_nan x = false -> PrimFloat.leb x x = true.
Proof.
  intros H. apply is_nan_false in H. rewrite FloatAxioms.leb_spec. unfold SFleb.
  rewrite (SFcompare_refl _ H). reflexivity.
Qed.

Lemma ltb_leb x y : PrimFloat.ltb x y = true -> PrimFloat.leb x y = true.
Proof.
  rewrite FloatAxioms.ltb_spec, FloatAxioms.leb_spec. unfold SFltb, SFleb.
  destruct (SFcompare _ _) as [[]|]; congruence.
Qed.

Lemma leb_not_nan x y : PrimFloat.leb x y = true -> is_nan x = false /\ is_nan y = false.
Proof.
  rewrite FloatAxioms.leb_spec, !is_nan_false. unfold SFleb. intros H.
  destruct (Prim2SF x) as [s|s| |s m e], (Prim2SF y) as [s'|s'| |s' m' e'];
    cbn [SFcompare] in H; try discriminate; split; discriminate.
Qed.

Lemma is_zero_spec x : is_zero x = true <-> exists s, Prim2SF x = S754_zero s.
Proof.
  unfold is_zero. rewrite FloatAxioms.eqb_spec. unfold SFeqb.
  change (Prim2SF zero) with (S754_zero false).
  destruct (Prim2SF x) as [s|s| |s m e]; cbn [SFcompare]; split;
    try (intros [s' H]; discriminate); try discriminate; eauto;
    destruct s; discriminate.
Qed.

Lemma zeros_leb x y : is_zero x = true -> is_zero y = true -> PrimFloat.leb x y = true.
Proof.
  rewrite !is_zero_spec, FloatAxioms.leb_spec. intros [s ->] [s' ->]. reflexivity.
Qed.

Lemma Math_max_zero x :
  Double.Math_max zero x
  = if is_nan x then nan else if PrimFloat.ltb zero x then x else zero.
Proof.
  unfold Double.Math_max. change (is_nan zero) with false.
  change (Double.is_negative_zero zero) with false. reflexivity.
Qed.

(** [Math.min] of two numbers in order is at most either. *)
Lemma Math_min_le a b :
  PrimFloat.leb a b = true ->
  PrimFloat.leb (Double.Math_min a b) b = true
  /\ PrimFloat.leb (Double.Math_min a b) a = true.
Proof.
  intros H. destruct (leb_not_nan _ _ H) as [Ha Hb].
  unfold Double.Math_min. rewrite Ha, Hb. cbn [orb].
  destruct (Double.is_positive_zero a && Double.is_negative_zero b) eqn:Hz.
  - apply andb_true_iff in Hz as [Hza Hzb].
    unfold Double.is_positive_zero in Hza. unfold Double.is_negative_zero in Hzb.
    apply andb_true_iff in Hza as [Hza _]. apply andb_true_iff in Hzb as [Hzb _].
    split; [apply leb_refl, Hb | apply zeros_leb; assumption].
  - destruct (PrimFloat.ltb b a) eqn:Hlt.
    + split; [apply leb_refl, Hb | apply ltb_leb, Hlt].
    + split; [exact H | apply leb_refl, Ha].
Qed.

(** With a positive cap, the floor of 0 does not change the comparison. *)
Lemma leb_Math_max_zero cap x :
  PrimFloat.ltb zero cap = true ->
  PrimFloat.leb cap (Double.Math_max zero x) = PrimFloat.leb cap x.
Proof.
  intros Hcap. rewrite Math_max_zero.
  destruct (is_nan x) eqn:Hx.
  - apply is_nan_spec in Hx. rewrite !FloatAxioms.leb_spec, Hx.
    change (Prim2SF nan) with S754_nan. reflexivity.
  - destruct (PrimFloat.ltb zero x) eqn:Hlt; [reflexivity|].
    rewrite FloatAxioms.ltb_spec in Hcap, Hlt. rewrite !FloatAxioms.leb_spec.
    apply is_nan_false in Hx.
    change (Prim2SF zero) with (S754_zero false) in *. unfold SFltb, SFleb in *.
    destruct (Prim2SF cap) as [s|s| |s m e], (Prim2SF x) as [s'|s'| |s' m' e'];
      cbn [SFcompare] in *; try discriminate; try contradiction; try reflexivity;
      repeat match goal with s : bool |- _ => destruct s end;
      try discriminate; reflexivity.
Qed.

(** A cap that is not positive is at most the floored amount. *)
Lemma leb_nonpos_Math_max_zero cap x :
  PrimFloat.leb cap zero = true -> is_nan x = false ->
  PrimFloat.leb cap (Double.Math_max zero x) = true.
Proof.
  intros Hcap Hx. rewrite Math_max_zero, Hx.
  destruct (PrimFloat.ltb zero x) eqn:Hlt; [|exact Hcap].
  rewrite FloatAxioms.ltb_spec in Hlt. rewrite FloatAxioms.leb_spec in *.
  change (Prim2SF zero) with (S754_zero false) in *. unfold SFltb, SFleb in *.
  destruct (Prim2SF cap) as [s|s| |s m e], (Prim2SF x) as [s'|s'| |s' m' e'];
    cbn [SFcompare] in *; try discriminate; try reflexivity;
    repeat match goal with s : bool |- _ => destruct s end;
    try discriminate; reflexivity.
Qed.

Lemma Math_max_zero_nonpos x :
  PrimFloat.leb x zero = true -> Double.Math_max zero x = zero.
Proof.
  intros H. rewrite Math_max_zero. destruct (leb_not_nan _ _ H) as [-> _].
  destruct (PrimFloat.ltb zero x) eqn:Hlt; [|reflexivity].
  rewrite FloatAxioms.ltb_spec in Hlt. rewrite FloatAxioms.leb_spec in H.
  change (Prim2SF zero) with (S754_zero false) in *. unfold SFltb, SFleb in *.
  destruct (Prim2SF x) as [s|s| |s m e]; cbn [SFcompare] in *; try discriminate;
    destruct s; discriminate.
Qed.

(** *** The sign of a difference of doubles *)

Lemma digits2_pos_size m : digits2_pos m = Pos.size m.
Proof. induction m as [m IH|m IH|]; cbn [digits2_pos Pos.size]; congruence. Qed.

Lemma mantissa_bounds m :
  Z.pos m < 2 ^ Z.pos (digits2_pos m) /\ 2 ^ Z.pos (digits2_pos m) <= 2 * Z.pos m.
Proof.
  rewrite digits2_pos_size. split.
  - pose proof (Pos.size_gt m) as H. apply Pos2Z.pos_lt_pos in H.
    rewrite Pos2Z.inj_pow in H. exact H.
  - pose proof (Pos.size_le m) as H. apply Pos2Z.pos_le_pos in H.
    rewrite Pos2Z.inj_pow in H. exact H.
Qed.

(** What a valid finite double says of its mantissa: below 2^53, the
    exponent at least -1074, and at least 2^52 when the exponent is above
    that. *)
Lemma valid_mantissa s m e :
  valid_binary (S754_finite s m e) = true ->
  Z.pos m < 2 ^ 53 /\ -1074 <= e /\ (-1074 < e -> 2 ^ 52 <= Z.pos m).
Proof.
  cbn [SpecFloat.valid_binary]. unfold bounded, canonical_mantissa, fexp, SpecFloat.emin.
  change prec with 53. change emax with 1024. intros H.
  apply andb_true_iff in H as [H _]. apply Z.eqb_eq in H.
  destruct (mantissa_bounds m) as [Hlt Hle].
  set (d := Z.pos (digits2_pos m)) in *.
  assert (Hd : 0 < d) by (unfold d; lia).
  split; [|split].
  - assert (d <= 53) by lia.
    apply Z.lt_le_trans with (2 ^ d); [exact Hlt|].
    apply Z.pow_le_mono_r; lia.
  - lia.
  - intros He. assert (d = 53) by lia.
    assert (2 ^ d = 2 * 2 ^ 52) by (subst d; replace (Z.pos (digits2_pos m)) with 53 by lia; reflexivity).
    lia.
Qed.

Lemma shl_align_value m e e' :
  e' <= e -> Z.pos (fst (shl_align m e e')) = Z.pos m * 2 ^ (e - e').
Proof.
  intros H. unfold shl_align. destruct (e' - e) as [|d|d] eqn:E.
  - replace (e - e') with 0 by lia. cbn [fst]. lia.
  - lia.
  - cbn [fst]. change (PosDef.Pos.iter xO m d) with (shift_pos d m).
    rewrite shift_pos_correct. replace (e - e') with (Z.pos d) by lia.
    change (2 ^ Z.pos d) with (Z.pow_pos 2 d). lia.
Qed.

(** The aligned mantissas of two doubles in order are in order. *)
Lemma aligned_mantissas_le sx mx ex sy my ey :
  valid_binary (S754_finite sx mx ex) = true ->
  valid_binary (S754_finite sy my ey) = true ->
  SFleb (S754_finite sx mx ex) (S754_finite sy my ey) = true ->
  cond_Zopp sx (Z.pos (fst (shl_align mx ex (Z.min ex ey))))
  - cond_Zopp sy (Z.pos (fst (shl_align my ey (Z.min ex ey)))) <= 0.
Proof.
  intros Vx Vy H.
  destruct (valid_mantissa _ _ _ Vx) as (Hx & Hex & Hnx).
  destruct (valid_mantissa _ _ _ Vy) as (Hy & Hey & Hny).
  rewrite !shl_align_value by lia.
  unfold SFleb in H. cbn [SFcompare] in H.
  assert (Hpow : forall k, 0 < k -> 2 <= 2 ^ k).
  { intros k Hk. change 2 with (2 ^ 1) at 1. apply Z.pow_le_mono_r; lia. }
  destruct sx, sy; cbn [cond_Zopp].
  - destruct (Z.compare_spec ex ey) as [->|Hlt|Hgt].
    + rewrite Z.min_id, Z.sub_diag.
      change (PosDef.Pos.compare_cont Eq mx my) with (Pos.compare mx my) in H.
      destruct (Pos.compare_spec mx my); cbn [CompOpp] in H; try discriminate; lia.
    + discriminate.
    + rewrite Z.min_r by lia. rewrite Z.sub_diag.
      specialize (Hnx ltac:(lia)). specialize (Hpow (ex - ey) ltac:(lia)). nia.
  - assert (0 < 2 ^ (ex - Z.min ex ey)) by (apply Z.pow_pos_nonneg; lia).
    assert (0 < 2 ^ (ey - Z.min ex ey)) by (apply Z.pow_pos_nonneg; lia).
    nia.
  - discriminate.
  - destruct (Z.compare_spec ex ey) as [->|Hlt|Hgt].
    + rewrite Z.min_id, Z.sub_diag.
      change (PosDef.Pos.compare_cont Eq mx my) with (Pos.compare mx my) in H.
      destruct (Pos.compare_spec mx my); try discriminate; lia.
    + rewrite Z.min_l by lia. rewrite Z.sub_diag.
      specialize (Hny ltac:(lia)). specialize (Hpow (ey - ex) ltac:(lia)). nia.
    + discriminate.
Qed.

Lemma SFsub_nonpos x y :
  valid_binary x = true -> valid_binary y = true ->
  SFleb x y = true -> SFsub prec emax x y <> S754_nan ->
  SFleb (SFsub prec emax x y) (S754_zero false) = true.
Proof.
  intros Vx Vy Hle Hnan.
  destruct x as [sx|sx| |sx mx ex], y as [sy|sy| |sy my ey];
    try (unfold SFleb in Hle; cbn [SFcompare] in Hle; discriminate);
    try (repeat match goal with s : bool |- _ => destruct s end;
         cbn in Hle, Hnan |- *; first [reflexivity | discriminate | contradiction]).
  pose proof (aligned_mantissas_le _ _ _ _ _ _ Vx Vy Hle) as Hm.
  cbn [SFsub] in Hnan |- *. cbv zeta in Hnan |- *.
  destruct (cond_Zopp sx _ - cond_Zopp sy _) as [|p|p]; [reflexivity | lia |].
  cbn [binary_normalize] in Hnan |- *. unfold binary_round in Hnan |- *.
  destruct (shl_align p _ _) as [mz ez]. unfold binary_round_aux in Hnan |- *.
  destruct (shr_fexp prec emax (Z.pos mz) ez loc_Exact) as [mrs' e'].
  destruct (shr_fexp prec emax _ e' loc_Exact) as [mrs'' e''].
  destruct (shr_m mrs'') as [|q|q];
    [reflexivity | destruct (_ <=? _); reflexivity | contradiction].
Qed.

(** When [a <= b], the difference [a - b], if it is a number, is not
    positive. *)
Lemma sub_nonpos a b :
  PrimFloat.leb a b = true -> is_nan (PrimFloat.sub a b) = false ->
  PrimFloat.leb (PrimFloat.sub a b) zero = true.
Proof.
  rewrite is_nan_false, !FloatAxioms.leb_spec, FloatAxioms.sub_spec.
  change (Prim2SF zero) with (S754_zero false).
  apply SFsub_nonpos; apply Prim2SF_valid.
Qed.

(** *** The budget tracker *)

(** [Math.max(0, x)] is NaN or at least 0. *)
Lemma Math_max_zero_nonneg x :
  is_nan (Double.Math_max zero x) = false ->
  PrimFloat.leb zero (Double.Math_max zero x) = true.
Proof.
  rewrite Math_max_zero. destruct (is_nan x); [discriminate|]. intros _.
  destruct (PrimFloat.ltb zero x) eqn:H; [apply ltb_leb, H | reflexivity].
Qed.

(** C3. [checkBudget] returns
    [remaining = max(0, dailyLimit - usedToday - reservedCount * perTaskCap)],
    the operations being those of JavaScript numbers (each result rounded to
    a double), and [allowed = (remaining >= perTaskCap)]; the amount that
    remains is never negative (it is at least 0, or NaN when an amount is).
    With a daily limit of 10, a cap of 3, nothing spent today and three
    reservations taken, it returns [allowed = false] (and 1 remaining). *)
Theorem checkBudget_spec (db : Db.FlowmateDb) (today : jsstring * jsstring)
    (tr : CostTracker.t) (dailyLimit perTaskCap : float) :
  let usedToday := CostTracker.getDailyCost db today in
  let reservedCount := Double.of_Z (CostTracker.pendingReservations tr) in
  let b := CostTracker.checkBudget db today tr dailyLimit (Some perTaskCap) in
  CostTracker.remaining b
  = Double.Math_max zero
      (PrimFloat.sub (PrimFloat.sub dailyLimit usedToday)
                     (PrimFloat.mul reservedCount perTaskCap))
  /\ CostTracker.allowed b = PrimFloat.leb perTaskCap (CostTracker.remaining b)
  /\ (is_nan (CostTracker.remaining b) = false ->
      PrimFloat.leb zero (CostTracker.remaining b) = true)
  /\ CostTracker.getDailyCost Sample.empty_db Sample.today = zero
  /\ CostTracker.pendingReservations Sample.three_reserved = 3
  /\ CostTracker.checkBudget Sample.empty_db Sample.today Sample.three_reserved
       (Double.of_Z 10) (Some (Double.of_Z 3))
     = {| CostTracker.allowed := false; CostTracker.remaining := Double.of_Z 1 |}.
Proof.
  cbv zeta. split; [reflexivity|]. split; [reflexivity|].
  split; [apply Math_max_zero_nonneg|].
  repeat split; vm_compute; reflexivity.
Qed.

(** The boundary case for any database with nothing spent today and any
    tracker holding three reservations. *)
Lemma three_reservations_exhaust_budget db today tr :
  CostTracker.getDailyCost db today = zero ->
  CostTracker.pendingReservations tr = 3 ->
  CostTracker.checkBudget db today tr (Double.of_Z 10) (Some (Double.of_Z 3))
  = {| CostTracker.allowed := false; CostTracker.remaining := Double.of_Z 1 |}.
Proof.
  intros Hused Hres. unfold CostTracker.checkBudget. rewrite Hused, Hres.
  vm_compute. reflexivity.
Qed.

(** The amount that remains is a double: with a limit of 0.4, a cap of 0.1
    and three reservations, the exact value of [limit - 3 * cap] for these
    doubles is the cap itself, while the code, which rounds the product and
    then the difference, finds less than the cap and refuses. *)
Lemma checkBudget_rounds_down :
  let limit := Double.of_number (Dec false [4%N] 0) in
  let cap := Double.of_number (Dec false [1%N] 0) in
  let b := CostTracker.checkBudget Sample.empty_db Sample.today Sample.three_reserved
             limit (Some cap) in
  CostTracker.allowed b = false
  /\ Double.toString (CostTracker.remaining b) = js "0.09999999999999998"
  /\ match Double.exact limit, Double.exact cap with
     | Some l, Some c => (l - 3 * c == c)%Q
     | _, _ => False
     end.
Proof.
  cbv zeta. split; [vm_compute; reflexivity|]. split; [vm_compute; reflexivity|].
  vm_compute. reflexivity.
Qed.

(** The rounding goes the other way too: with a limit of 1.69, 0.59 spent
    and a cap of 1.1, the exact value of [limit - spent] for these doubles is
    below the cap, while the code finds 1.1 and allows the task. *)
Lemma checkBudget_rounds_up :
  let limit := Double.of_number (Dec false [1; 6; 9]%N 1) in
  let cap := Double.of_number (Dec false [1; 1]%N 1) in
  let db := Sample.spent_db (Dec false [5; 9]%N 0) in
  let b := CostTracker.checkBudget db Sample.today CostTracker.new limit (Some cap) in
  CostTracker.allowed b = true
  /\ Double.toString (CostTracker.getDailyCost db Sample.today) = js "0.59"
  /\ Double.toString (CostTracker.remaining b) = js "1.1"
  /\ match Double.exact limit, Double.exact (CostTracker.getDailyCost db Sample.today),
           Double.exact cap with
     | Some l, Some u, Some c => (l - u < c)%Q
     | _, _, _ => False
     end.
Proof.
  cbv zeta. split; [vm_compute; reflexivity|]. split; [vm_compute; reflexivity|].
  split; vm_compute; reflexivity.
Qed.

Lemma release_released h tr :
  CostTracker.released tr !! h = Some true -> CostTracker.release h tr = tr.
Proof. unfold CostTracker.release. intros ->. reflexivity. Qed.

Lemma release_first h tr :
  CostTracker.released tr !! h = Some false ->
  CostTracker.pendingReservations (CostTracker.release h tr)
  = CostTracker.pendingReservations tr - 1
  /\ CostTracker.released (CostTracker.release h tr) !! h = Some true.
Proof.
  unfold CostTracker.release. intros E. rewrite E. cbn. split; [reflexivity|].
  apply list_lookup_insert_eq. apply lookup_lt_is_Some. eauto.
Qed.

(** A release function does nothing when called again. *)
Lemma release_idempotent h tr :
  CostTracker.release h (CostTracker.release h tr) = CostTracker.release h tr.
Proof.
  destruct (CostTracker.released tr !! h) as [[|]|] eqn:E.
  - rewrite (release_released h tr E). apply (release_released h tr E).
  - apply release_released, release_first, E.
  - unfold CostTracker.release. rewrite E. rewrite E. reflexivity.
Qed.

Lemma release_iter h tr n :
  Nat.iter (S n) (CostTracker.release h) tr = CostTracker.release h tr.
Proof.
  induction n as [|n IH]; [reflexivity|].
  change (Nat.iter (S (S n)) (CostTracker.release h) tr)
    with (CostTracker.release h (Nat.iter (S n) (CostTracker.release h) tr)).
  rewrite IH. apply release_idempotent.
Qed.

(** C4. [reserve()] adds exactly 1 to the count of pending reservations,
    and calling the release function it returns [N] times, for any [N >= 1]
    (written [S n]), takes exactly 1 off: the count is back where it was before
    the reservation, however often the function is called. *)
Theorem reserve_release_exactly_once (tr : CostTracker.t) (n : nat) :
  let '(tr1, release) := CostTracker.reserve tr in
  CostTracker.pendingReservations tr1 = CostTracker.pendingReservations tr + 1
  /\ CostTracker.pendingReservations (Nat.iter (S n) (CostTracker.release release) tr1)
     = CostTracker.pendingReservations tr1 - 1
  /\ Nat.iter (S n) (CostTracker.release release) tr1
     = Nat.iter 1 (CostTracker.release release) tr1.
Proof.
  cbn [CostTracker.reserve]. split; [reflexivity|].
  rewrite release_iter. split; [|reflexivity].
  apply release_first. cbn [CostTracker.released].
  rewrite lookup_app_r by lia. rewrite Nat.sub_diag. reflexivity.
Qed.

(** *** History truncation *)
Import Types.

Lemma Z_toString_pos z : 0 <= z -> Runner.Z_toString z = decimal (Z.to_N z).
Proof.
  intros H. unfold Runner.Z_toString.
  destruct (Z.ltb_spec z 0); [lia | reflexivity].
Qed.

Lemma slice_last {A} (l : list A) (k : Z) :
  0 < k <= Z.of_nat (length l) ->
  slice (- k) l = drop (length l - Z.to_nat k) l.
Proof.
  intros H. unfold slice.
  destruct (Z.ltb_spec (- k) 0); [|lia].
  f_equal. lia.
Qed.

(** C2 (amended). When the history is longer than a positive
    [maxHistoryMessages], the truncated history has
    [maxHistoryMessages + 1] entries: one system note that says how many earlier
    messages were omitted (the length minus the maximum), followed by the most
    recent [maxHistoryMessages] messages. A history that is not longer than
    the maximum is returned unchanged. *)
Theorem truncateHistory_spec (history : list ConversationMessage) (maxMessages : Z) :
  0 < maxMessages ->
  (Z.of_nat (length history) <= maxMessages ->
   Execution.truncateHistory history maxMessages = history)
  /\ (maxMessages < Z.of_nat (length history) ->
      Execution.truncateHistory history maxMessages
      = Spec.omitted_note (Z.of_nat (length history) - maxMessages)
          :: drop (length history - Z.to_nat maxMessages) history
      /\ length (drop (length history - Z.to_nat maxMessages) history) = Z.to_nat maxMessages
      /\ length (Execution.truncateHistory history maxMessages) = S (Z.to_nat maxMessages)).
Proof.
  intros Hpos. unfold Execution.truncateHistory. split; intros Hlen.
  - destruct (Z.leb_spec (Z.of_nat (length history)) maxMessages); [reflexivity | lia].
  - destruct (Z.leb_spec (Z.of_nat (length history)) maxMessages); [lia|].
    rewrite slice_last, Z_toString_pos by lia.
    assert (length (drop (length history - Z.to_nat maxMessages) history) = Z.to_nat maxMessages)
      as Hdrop by (rewrite length_drop; lia).
    split; [|split; [exact Hdrop|]].
    + reflexivity.
    + cbn [length]. rewrite Hdrop. reflexivity.
Qed.

Lemma truncateHistory_spec_witness :
  0 < 20
  /\ length (Execution.truncateHistory
               (ThreadManager.getConversationHistory (Sample.history_db 25) 1) 20) = 21%nat
  /\ Execution.truncateHistory (ThreadManager.getConversationHistory (Sample.history_db 3) 1) 20
     = ThreadManager.getConversationHistory (Sample.history_db 3) 1.
Proof.
  split; [lia|].
  pose proof (truncateHistory_spec
                (ThreadManager.getConversationHistory (Sample.history_db 25) 1) 20
                ltac:(lia)) as [_ H25].
  pose proof (truncateHistory_spec
                (ThreadManager.getConversationHistory (Sample.history_db 3) 1) 20
                ltac:(lia)) as [H3 _].
  split.
  - destruct H25 as (_ & _ & H); [vm_compute; reflexivity | exact H].
  - apply H3. vm_compute. discriminate.
Defined.

(** With 25 messages and a maximum of 20 the worker is handed 21 entries,
    not 20: the note, then messages 6 to 25. *)
Lemma truncateHistory_25_20_has_21_entries :
  let handed := Execution.truncateHistory
                  (ThreadManager.getConversationHistory (Sample.history_db 25) 1) 20 in
  length handed = 21%nat
  /\ length handed <> 20%nat
  /\ map content (take 2 handed)
     = [js "[5 earlier messages omitted for context window efficiency]"; js "6"].
Proof. cbv zeta. split; [|split]; vm_compute; [reflexivity | discriminate | reflexivity]. Qed.

(** A maximum of zero keeps every message: [slice(-0)] is [slice(0)]. *)
Lemma truncateHistory_zero_keeps_all :
  length (Execution.truncateHistory
            (ThreadManager.getConversationHistory (Sample.history_db 5) 1) 0) = 6%nat.
Proof. vm_compute. reflexivity. Qed.

(** *** The execution service *)
Import Execution.

(** C6. When the budget check says no, [execute] throws the
    budget-exceeded error and leaves the service exactly as it was: no
    execution row is inserted, nothing is written to the journal, no
    reservation is taken, nothing is added to the in-flight map and the
    backend is not called. *)
Theorem execute_rejects_before_any_effect (config : FlowmateConfig.t)
    (mcpEntryPath : jsstring) (today : jsstring * jsstring) (clock : Clock)
    (params : Params) (s : Service) :
  let budget :=
    CostTracker.checkBudget (db s) today (costTracker s)
      (FlowmateConfig.dailyBudgetLimit (FlowmateConfig.limits config))
      (Some (FlowmateConfig.maxBudgetPerTask (FlowmateConfig.limits config))) in
  CostTracker.allowed budget = false ->
  execute config mcpEntryPath today clock params s
  = (s, inr (js "Daily budget exceeded. Remaining: $"
               ++ toFixed2 (CostTracker.remaining budget))).
Proof.
  cbv zeta. intros H. unfold execute. rewrite H. reflexivity.
Qed.

Lemma execute_rejects_before_any_effect_witness :
  let s := Sample.service Sample.empty_db Sample.three_reserved in
  execute Sample.config (js "/app/mcp.js") Sample.today (Sample.clock 0) Sample.params s
  = (s, inr (js "Daily budget exceeded. Remaining: $1.00")).
Proof.
  cbv zeta.
  rewrite (execute_rejects_before_any_effect Sample.config (js "/app/mcp.js") Sample.today
             (Sample.clock 0) Sample.params
             (Sample.service Sample.empty_db Sample.three_reserved) eq_refl).
  reflexivity.
Defined.

(** C7. When the budget check passes, the task configuration handed to
    the backend carries [min (configured cap, remaining daily budget)] as its
    per-task budget, [remaining] being the value the budget check computed;
    that limit is never above the remaining daily budget. *)
Theorem execute_clamps_task_budget (config : FlowmateConfig.t)
    (mcpEntryPath : jsstring) (today : jsstring * jsstring) (clock : Clock)
    (params : Params) (s : Service) :
  let cap := FlowmateConfig.maxBudgetPerTask (FlowmateConfig.limits config) in
  let budget :=
    CostTracker.checkBudget (db s) today (costTracker s)
      (FlowmateConfig.dailyBudgetLimit (FlowmateConfig.limits config)) (Some cap) in
  CostTracker.allowed budget = true ->
  exists s' c taskConfig,
    execute config mcpEntryPath today clock params s = (s', inl c)
    /\ runner s' = runner s ++ [CallRun taskConfig]
    /\ maxBudgetPerTask (TaskConfig.limits taskConfig)
       = Double.Math_min cap (CostTracker.remaining budget)
    /\ PrimFloat.leb (maxBudgetPerTask (TaskConfig.limits taskConfig))
                     (CostTracker.remaining budget) = true
    /\ PrimFloat.leb (maxBudgetPerTask (TaskConfig.limits taskConfig)) cap = true.
Proof.
  cbv zeta. intros H. unfold execute. rewrite H. cbn [negb].
  destruct (CostTracker.reserve (costTracker s)) as [tracker release] eqn:Hres.
  destruct (Db.insert_execution _ _ _ _ _) as [db1 execution] eqn:Hins.
  eexists _, _, _. split; [reflexivity|].
  cbn [runner TaskConfig.limits maxBudgetPerTask]. split; [reflexivity|].
  split; [reflexivity|]. apply Math_min_le. exact H.
Qed.

Lemma execute_clamps_task_budget_witness :
  exists s' c taskConfig,
    execute Sample.config (js "/app/mcp.js") Sample.today (Sample.clock 0) Sample.params
            (Sample.service Sample.empty_db CostTracker.new) = (s', inl c)
    /\ runner s' = [CallRun taskConfig]
    /\ maxBudgetPerTask (TaskConfig.limits taskConfig) = Double.of_Z 3
    /\ PrimFloat.leb (maxBudgetPerTask (TaskConfig.limits taskConfig)) (Double.of_Z 10) = true.
Proof.
  destruct (execute_clamps_task_budget Sample.config (js "/app/mcp.js") Sample.today
              (Sample.clock 0) Sample.params
              (Sample.service Sample.empty_db CostTracker.new) eq_refl)
    as (s' & c & tc & E & Hrun & Hmin & Hle & _).
  exists s', c, tc. repeat split; [exact E | exact Hrun | exact Hmin | exact Hle].
Defined.

(** The part of a closure the progress debouncing reads and writes. *)
Lemma settle_debounce_state o s c :
  let c' := snd (settle o (s, c)) in
  onProgress c' = onProgress c /\ lastProgressTime c' = lastProgressTime c
  /\ progress c' = progress c.
Proof. cbn [settle]. destruct (settled c); repeat split. Qed.

Lemma is_str_not_null lit key msg :
  is_str lit (get key (Some msg)) = true -> is_null msg = false.
Proof. destruct msg; [discriminate|reflexivity..]. Qed.

Lemma step_debounce_state s c ev :
  match ev with
  | Message msg _ => is_str "progress" (get "type" (Some msg)) = false
  | _ => True
  end ->
  let c' := snd (step (s, c) ev) in
  onProgress c' = onProgress c /\ lastProgressTime c' = lastProgressTime c
  /\ progress c' = progress c.
Proof.
  intros Hev. destruct ev as [clock|msg clock|code signal clock|cid|err clock];
    cbn [step snd].
  - destruct (timer c); [|repeat split]. unfold on_timeout.
    destruct (negb _); [|repeat split].
    exact (settle_debounce_state _ _ (set_timer false c)).
  - unfold on_message. destruct (is_null msg); [repeat split|].
    rewrite Hev. cbn [andb].
    destruct (is_str "result" _).
    { destruct (prepare _ _ _); [repeat split|].
      exact (settle_debounce_state _ _ (set_timer false (set_resultReceived true c))). }
    destruct (is_str "error" _); [|repeat split].
    destruct (prepare _ _ _); [repeat split|].
    exact (settle_debounce_state _ _ (set_timer false (set_resultReceived true c))).
  - unfold on_exit. destruct (negb _); [|repeat split].
    exact (settle_debounce_state _ _ (set_timer false c)).
  - repeat split.
  - unfold on_launch_failed. exact (settle_debounce_state _ _ (set_timer false c)).
Qed.

Lemma step_progress_message s c msg clock :
  is_str "progress" (get "type" (Some msg)) = true -> onProgress c = true ->
  step (s, c) (Message msg clock)
  = if 3000 <=? Date_now clock - lastProgressTime c
    then (s, call_onProgress (Date_now clock) (get "text" (Some msg)) c)
    else (s, c).
Proof.
  intros H1 H2. cbn [step]. unfold on_message.
  rewrite (is_str_not_null _ _ _ H1), H1, H2. cbn [andb].
  destruct (_ <=? _); reflexivity.
Qed.

Lemma omap_cons_match {A B} (f : A -> option B) x l :
  omap f (x :: l) = match f x with Some y => y :: omap f l | None => omap f l end.
Proof. reflexivity. Qed.

Lemma progress_messages_progress msg clock evs :
  is_str "progress" (get "type" (Some msg)) = true ->
  Spec.progress_messages (Message msg clock :: evs)
  = (get "text" (Some msg), Date_now clock) :: Spec.progress_messages evs.
Proof.
  intros H. unfold Spec.progress_messages. rewrite omap_cons_match, H. reflexivity.
Qed.

Lemma progress_messages_other ev evs :
  match ev with
  | Message msg _ => is_str "progress" (get "type" (Some msg))
  | _ => false
  end = false ->
  Spec.progress_messages (ev :: evs) = Spec.progress_messages evs.
Proof.
  intros H. unfold Spec.progress_messages. rewrite omap_cons_match.
  destruct ev; try reflexivity. rewrite H. reflexivity.
Qed.

Lemma run_events_debounce evs : forall s c last,
  onProgress c = true ->
  lastProgressTime c = match last with Some t => t | None => 0 end ->
  Forall (fun p => 3000 <= snd p) (Spec.progress_messages evs) ->
  progress (snd (run_events (s, c) evs))
  = progress c ++ Spec.debounce last (Spec.progress_messages evs).
Proof.
  induction evs as [|ev evs IH]; intros s c last Hon Hlast Hclock.
  - cbn. symmetry. apply app_nil_r.
  - unfold run_events. cbn [fold_left].
    change (fold_left step evs ?x) with (run_events x evs).
    destruct (match ev with
              | Message msg _ => is_str "progress" (get "type" (Some msg))
              | _ => false
              end) eqn:Hkind.
    + destruct ev as [|msg clock| | |]; try discriminate.
      rewrite progress_messages_progress in * by exact Hkind.
      apply Forall_cons in Hclock as [Hnow Hclock]. cbn [snd] in Hnow.
      rewrite step_progress_message by assumption. cbn [Spec.debounce].
      assert (Hsame : (3000 <=? Date_now clock - lastProgressTime c)
                      = match last with None => true | Some t => 3000 <=? Date_now clock - t end).
      { rewrite Hlast. destruct last; [reflexivity|]. apply Z.leb_le. lia. }
      rewrite <- Hsame. destruct (3000 <=? Date_now clock - lastProgressTime c).
      * rewrite (IH s _ (Some (Date_now clock))) by (try assumption; reflexivity).
        cbn [call_onProgress progress]. rewrite <- app_assoc. reflexivity.
      * apply IH; assumption.
    + rewrite (progress_messages_other ev evs Hkind) in *.
      destruct (step (s, c) ev) as [s' c'] eqn:Hstep.
      pose proof (step_debounce_state s c ev) as Hkeep.
      rewrite Hstep in Hkeep. cbn [snd] in Hkeep.
      destruct Hkeep as (K1 & K2 & K3); [destruct ev; try exact I; exact Hkind|].
      rewrite (IH s' c' last) by (try assumption; congruence).
      rewrite K3. reflexivity.
Qed.

(** C8. For the closure [execute] creates for a caller that supplied a
    progress callback, and every sequence of events delivered to it: the
    callback is invoked for the first progress message, and for a later one if
    and only if at least 3000 ms of [Date.now()] separate it from the last
    progress message that invoked it; the messages in between are dropped and
    are not delivered later (the calls are exactly [Spec.debounce] of the
    progress messages, in order). The clock is read as a time at least 3000 ms
    after the epoch. *)
Theorem progress_is_debounced (config : FlowmateConfig.t)
    (mcpEntryPath : jsstring) (today : jsstring * jsstring) (clock : Clock)
    (params : Params) (s s' : Service) (c : Closure) (evs : list Event) :
  has_onProgress params = true ->
  execute config mcpEntryPath today clock params s = (s', inl c) ->
  Forall (fun p => 3000 <= snd p) (Spec.progress_messages evs) ->
  progress (snd (run_events (s', c) evs)) = Spec.debounce None (Spec.progress_messages evs).
Proof.
  intros Hon Hexec Hclock.
  assert (onProgress c = true /\ lastProgressTime c = 0 /\ progress c = []) as (H1 & H2 & H3).
  { unfold execute in Hexec. destruct (negb _); [discriminate|].
    destruct (CostTracker.reserve _), (Db.insert_execution _ _ _ _ _).
    injection Hexec as _ <-. repeat split. exact Hon. }
  rewrite (run_events_debounce evs s' c None H1 H2 Hclock), H3. reflexivity.
Qed.

Lemma progress_is_debounced_witness :
  let evs := [Message (Sample.progress_message "a") (Sample.clock 100);
              Message (Sample.progress_message "b") (Sample.clock 1100);
              Message (Sample.progress_message "c") (Sample.clock 3100);
              Message (Ipc.message_object Sample.result_message) (Sample.clock 3200);
              Message (Sample.progress_message "d") (Sample.clock 9000)] in
  exists s' c,
    execute Sample.config (js "/app/mcp.js") Sample.today (Sample.clock 0) Sample.params
            (Sample.service Sample.empty_db CostTracker.new) = (s', inl c)
    /\ progress (snd (run_events (s', c) evs))
       = [Some (JStr (js "a")); Some (JStr (js "c")); Some (JStr (js "d"))].
Proof.
  cbv zeta. eexists _, _. split; [reflexivity|].
  rewrite (progress_is_debounced Sample.config (js "/app/mcp.js") Sample.today
             (Sample.clock 0) Sample.params
             (Sample.service Sample.empty_db CostTracker.new) _ _ _ eq_refl eq_refl).
  - reflexivity.
  - repeat constructor; vm_compute; discriminate.
Defined.

(** Once a result or error message has set [resultReceived], the timer
    and the exit notification write nothing. *)
Lemma result_received_guards_timer_and_exit s c ev :
  resultReceived c = true ->
  match ev with TimerFired _ | Exited _ _ _ => True | _ => False end ->
  fst (step (s, c) ev) = s.
Proof.
  intros Hr Hev. destruct ev; try contradiction; cbn [step snd].
  - destruct (timer c); [|reflexivity]. unfold on_timeout.
    cbn [set_timer resultReceived]. rewrite Hr. reflexivity.
  - unfold on_exit. cbn [set_timer resultReceived]. rewrite Hr. reflexivity.
Qed.

Lemma status_writes_update i p d :
  Db.status_writes i (Db.update_execution i p d)
  = Db.status_writes i d ++ match Db.set_status p with Some st => [st] | None => [] end.
Proof.
  unfold Db.status_writes, Db.update_execution. cbn [Db.journal].
  rewrite omap_app. f_equal. rewrite omap_cons_match. cbn [fst snd].
  rewrite Z.eqb_refl. destruct (Db.set_status p); reflexivity.
Qed.

(** The driver leaves the status, the container id and the finish time of
    a patch as they are. *)
Lemma bind_fixed p q :
  Db.bind p = Some q ->
  Db.set_status q = Db.set_status p /\ Db.set_containerId q = Db.set_containerId p
  /\ Db.set_finishedAt q = Db.set_finishedAt p.
Proof.
  unfold Db.bind. destruct (Db.all_bound_values _); [|discriminate].
  destruct (_ <? _)%nat; [discriminate|]. destruct (_ =? _)%nat; [|discriminate].
  intros [= <-]. repeat split.
Qed.

(** The patches the service writes by itself (the status, the container
    id, an error text, the finish time) hold strings only: the driver binds
    them as they are. *)
Lemma bind_of_strings containerId status errorMessage finishedAt :
  let p := {| Db.set_containerId := containerId; Db.set_status := status;
              Db.set_resultText := None;
              Db.set_errorMessage := option_map JStr errorMessage;
              Db.set_costUsd := None; Db.set_inputTokens := None;
              Db.set_outputTokens := None; Db.set_cacheReadTokens := None;
              Db.set_cacheWriteTokens := None; Db.set_durationMs := None;
              Db.set_numTurns := None; Db.set_finishedAt := finishedAt |} in
  Db.bind p = Some p.
Proof. destruct errorMessage; reflexivity. Qed.

Lemma prepare_status status msg clock p :
  prepare status msg clock = inr p -> Db.set_status p = Some status.
Proof.
  unfold prepare, report.
  destruct (get "tokensUsed" (Some msg)) as [[]|]; try discriminate;
    (destruct (Db.bind _) as [q|] eqn:E; [|discriminate]; intros [= <-];
     rewrite (proj1 (bind_fixed _ _ E)); reflexivity).
Qed.

(** The message handler has no guard: a result message that the database
    takes writes [completed] whatever the closure holds, settled or not. *)
Lemma result_message_always_writes s c msg clock :
  is_str "progress" (get "type" (Some msg)) = false ->
  is_str "result" (get "type" (Some msg)) = true ->
  Props.throws (Message msg clock) = false ->
  Db.status_writes (execution c) (db (fst (step (s, c) (Message msg clock))))
  = Db.status_writes (execution c) (db s) ++ [Db.StatusCompleted].
Proof.
  intros Hp Hr Ht. cbn [step]. unfold on_message. cbn [Props.throws] in Ht.
  destruct (is_null msg); [discriminate|]. rewrite Hp, Hr in *. cbn [andb].
  destruct (prepare _ _ _) as [e|patch] eqn:E; [discriminate|].
  cbn [settle set_timer set_resultReceived settled execution fst].
  destruct (settled c); cbn [fst db with_db]; rewrite status_writes_update;
    rewrite (prepare_status _ _ _ _ E); reflexivity.
Qed.

(** The timeout handler leaves [resultReceived] as it was, which is what
    lets the exit notification that follows the kill write again. *)
Lemma timeout_leaves_resultReceived s c clock :
  resultReceived (snd (on_timeout clock (s, c))) = resultReceived c.
Proof.
  unfold on_timeout. cbn [set_timer resultReceived].
  destruct (negb (resultReceived c)); [|reflexivity].
  cbn [settle set_timer settled]. destruct (settled c); reflexivity.
Qed.

(** C1 (the code at the failing input). The timeout fires, then the
    result message arrives: the handler of the message does not look at
    whether the execution has settled, and writes [completed] over the
    [timeout] that was persisted. The same happens with the exit notification
    that follows the kill: it writes [error] over [timeout]. The promise
    itself stays rejected with the timeout error. *)
Theorem late_events_overwrite_timeout_status :
  let late_result :=
    Sample.after [Spawned (js "flowmate-1"); TimerFired (Sample.clock 50);
                  Message (Ipc.message_object Sample.result_message) (Sample.clock 60)] in
  let late_exit :=
    Sample.after [Spawned (js "flowmate-1"); TimerFired (Sample.clock 50);
                  Exited None (Some (js "SIGTERM")) (Sample.clock 60)] in
  option_map (fun sc => (Db.terminal_writes 1 (db (fst sc)),
                         option_map Db.status (Db.find_execution 1 (db (fst sc))),
                         settled (snd sc))) late_result
  = Some ([Db.StatusTimeout; Db.StatusCompleted], Some Db.StatusCompleted,
          Some (Rejected (js "Task timed out")))
  /\ option_map (fun sc => (Db.terminal_writes 1 (db (fst sc)),
                            option_map Db.status (Db.find_execution 1 (db (fst sc))),
                            settled (snd sc))) late_exit
     = Some ([Db.StatusTimeout; Db.StatusError], Some Db.StatusError,
             Some (Rejected (js "Task timed out"))).
Proof. cbv zeta. split; vm_compute; reflexivity. Qed.

(** *** The worker backends *)
Import Runner.

Lemma messages_of_cons ev evs :
  Spec.messages_of (ev :: evs) = Spec.messages_of [ev] ++ Spec.messages_of evs.
Proof.
  unfold Spec.messages_of. rewrite !omap_cons_match.
  destruct ev; try reflexivity.
  destruct (startsWith _ _); [|reflexivity].
  destruct (Ipc.parseIpcLine _); reflexivity.
Qed.

Section Ordering.
Context {B : RunnerBackend}.

(** Before the close event, a listener calls back only to deliver the
    message of the line it was given; the close listener calls [onExit]. *)
Hypothesis handle_other : forall st ev,
  Spec.is_close ev = false ->
  calls (handle st ev) = calls st ++ map onMessage (Spec.messages_of [ev]).
Hypothesis handle_close : forall st code signal,
  calls (handle st (ChildClose code signal)) = calls st ++ [onExit code signal].

Lemma deliver_before_close evs : forall st,
  forallb (fun ev => negb (Spec.is_close ev)) evs = true ->
  calls (deliver st evs) = calls st ++ map onMessage (Spec.messages_of evs).
Proof using handle_other.
  induction evs as [|ev evs IH]; intros st Hevs.
  - cbn. symmetry. apply app_nil_r.
  - cbn [forallb] in Hevs. apply andb_true_iff in Hevs as [Hev Hevs].
    apply negb_true_iff in Hev.
    unfold deliver in *. cbn [fold_left]. rewrite IH by exact Hevs.
    rewrite handle_other by exact Hev.
    rewrite (messages_of_cons ev evs), map_app, app_assoc. reflexivity.
Qed.

Lemma deliver_then_close evs st code signal :
  forallb (fun ev => negb (Spec.is_close ev)) evs = true ->
  calls (deliver st (evs ++ [ChildClose code signal]))
  = calls st ++ map onMessage (Spec.messages_of evs) ++ [onExit code signal].
Proof using handle_other handle_close.
  intros Hevs. unfold deliver. rewrite fold_left_app. cbn [fold_left].
  rewrite handle_close. fold (deliver st evs).
  rewrite deliver_before_close by exact Hevs. rewrite <- app_assoc. reflexivity.
Qed.
End Ordering.

Lemma container_handle_other st ev :
  Spec.is_close ev = false ->
  calls (ContainerManager.handle st ev) = calls st ++ map onMessage (Spec.messages_of [ev]).
Proof.
  intros Hev. destruct ev as [chunk|line|code signal|code signal]; try discriminate;
    cbn [ContainerManager.handle]; try (symmetry; apply app_nil_r).
  unfold ContainerManager.on_line, Spec.messages_of. rewrite omap_cons_match.
  destruct (startsWith _ _); [|symmetry; apply app_nil_r].
  destruct (Ipc.parseIpcLine _); [reflexivity | symmetry; apply app_nil_r].
Qed.

Lemma local_handle_other st ev :
  Spec.is_close ev = false ->
  calls (LocalRunner.handle st ev) = calls st ++ map onMessage (Spec.messages_of [ev]).
Proof.
  intros Hev. destruct ev as [chunk|line|code signal|code signal]; try discriminate;
    cbn [LocalRunner.handle]; try (symmetry; apply app_nil_r).
  unfold LocalRunner.on_line, Spec.messages_of. rewrite omap_cons_match.
  destruct (startsWith _ _); [|symmetry; apply app_nil_r].
  destruct (Ipc.parseIpcLine _); [reflexivity | symmetry; apply app_nil_r].
Qed.

Lemma container_handle_close st code signal :
  calls (ContainerManager.handle st (ChildClose code signal)) = calls st ++ [onExit code signal].
Proof.
  cbn [ContainerManager.handle]. unfold ContainerManager.on_close, unlink_tmp.
  destruct (tmpPath st); reflexivity.
Qed.

Lemma local_handle_close st code signal :
  calls (LocalRunner.handle st (ChildClose code signal)) = calls st ++ [onExit code signal].
Proof.
  cbn [LocalRunner.handle]. unfold LocalRunner.on_close, unlink_tmp, forget_process.
  cbn [tmpPath]. destruct (tmpPath st); cbn [stderrBuf]; destruct (_ && _); reflexivity.
Qed.

(** C9. For a worker run by either backend, whose stream of events ends,
    as the runtime guarantees, with the one close event that follows the
    draining of its output: the callbacks made are the message callbacks of
    the structured messages among its stderr lines, in the order of the lines,
    and then, last and once, the exit notification. A process-exit event
    that comes before remaining lines changes nothing: only close notifies. *)
Theorem exit_notification_follows_all_messages (executionId : Z)
    (tmp : option jsstring) (evs : list ChildEvent)
    (code : option Z) (signal : option jsstring) :
  forallb (fun ev => negb (Spec.is_close ev)) evs = true ->
  calls (@deliver ContainerManager.backend (ContainerManager.run executionId tmp)
           (evs ++ [ChildClose code signal]))
  = map onMessage (Spec.messages_of evs) ++ [onExit code signal]
  /\ calls (@deliver LocalRunner.backend (LocalRunner.run executionId tmp)
              (evs ++ [ChildClose code signal]))
     = map onMessage (Spec.messages_of evs) ++ [onExit code signal].
Proof.
  intros Hevs. split.
  - apply (@deliver_then_close ContainerManager.backend
             container_handle_other container_handle_close evs
             (ContainerManager.run executionId tmp) code signal Hevs).
  - apply (@deliver_then_close LocalRunner.backend
             local_handle_other local_handle_close evs
             (LocalRunner.run executionId tmp) code signal Hevs).
Qed.

Lemma exit_notification_follows_all_messages_witness :
  let evs := [StderrLine (js "[runner] Execution #1 starting");
              StderrLine (Ipc.IPC_PREFIX ++ Ipc.serializeIpc (Sample.progress_message "working"));
              ChildExit (Some 0) None;
              StdoutData (js "sdk output");
              StderrLine (Ipc.IPC_PREFIX
                            ++ Ipc.serializeIpc (Ipc.message_object Sample.result_message))] in
  calls (@deliver LocalRunner.backend (LocalRunner.run 1 None) (evs ++ [ChildClose (Some 0) None]))
  = [onMessage (Sample.progress_message "working");
     onMessage (Ipc.message_object Sample.result_message);
     onExit (Some 0) None].
Proof.
  cbv zeta.
  match goal with
  | |- calls (deliver _ (?evs ++ _)) = _ =>
    destruct (exit_notification_follows_all_messages 1 None evs (Some 0) None eq_refl) as [_ H]
  end.
  rewrite H. vm_compute. reflexivity.
Defined.

(** *** The worker's side of the protocol *)
Import Ipc Runner.

Import Props.

Lemma visible_app a b : visible a -> visible b -> visible (a ++ b).
Proof. intros Ha Hb. apply Forall_app. split; assumption. Qed.

Lemma visible_cons c s : (32 <= c)%N -> visible s -> visible (c :: s).
Proof. intros Hc Hs. apply List.Forall_cons; assumption. Qed.

Lemma visible_nil : visible [].
Proof. apply List.Forall_nil. Qed.

Lemma visible_js_literal (s : jsstring) :
  forallb (fun c => (32 <=? c)%N) s = true -> visible s.
Proof.
  intros H. apply List.Forall_forall. intros c Hc.
  rewrite forallb_forall in H. apply N.leb_le, H, Hc.
Qed.

Lemma visible_digit_chars ds : visible (map digit_char ds).
Proof.
  induction ds as [|d ds IH]; [apply visible_nil|].
  apply visible_cons; [unfold digit_char; lia | exact IH].
Qed.

Lemma visible_chars_of_uint u : visible (chars_of_uint u).
Proof.
  induction u; cbn [chars_of_uint]; try apply visible_nil;
    (apply visible_cons; [lia | assumption]).
Qed.

Lemma visible_Number_toString x : visible (Number_toString x).
Proof.
  destruct x as [|neg|neg|neg ds n]; cbn [Number_toString].
  - apply visible_js_literal. reflexivity.
  - apply visible_app; [destruct neg|]; apply visible_js_literal; reflexivity.
  - apply visible_js_literal. reflexivity.
  - cbv zeta. apply visible_app;
      [destruct neg; apply visible_js_literal; reflexivity|].
    destruct (_ && _).
    + destruct (_ <=? _); [apply visible_digit_chars|].
      destruct (0 <? n).
      * apply visible_app; [apply visible_digit_chars|].
        apply visible_app; [apply visible_js_literal; reflexivity|].
        apply visible_digit_chars.
      * apply visible_app; [apply visible_js_literal; reflexivity|].
        apply visible_digit_chars.
    + apply visible_app.
      * destruct ds as [|d [|d' rest]]; [apply visible_nil| |].
        -- apply visible_cons; [unfold digit_char; lia | apply visible_nil].
        -- apply visible_cons; [unfold digit_char; lia|].
           apply visible_app; [apply visible_js_literal; reflexivity|].
           apply visible_digit_chars.
      * apply visible_app; [apply visible_js_literal; reflexivity|].
        apply visible_app; [destruct (_ <? _); apply visible_js_literal; reflexivity|].
        apply visible_chars_of_uint.
Qed.

Lemma hex_char_visible d : (32 <= hex_char d)%N.
Proof. unfold hex_char. destruct (d <? 10)%N; lia. Qed.

Lemma visible_quote_unit c : visible (quote_unit c).
Proof.
  unfold quote_unit.
  repeat match goal with
         | |- visible (if (?a =? ?b)%N then _ else _) =>
           destruct (a =? b)%N; [apply visible_js_literal; reflexivity|]
         end.
  destruct (c <? 32)%N eqn:E.
  - cbn [orb]. unfold unicode_escape.
    repeat (apply visible_cons; [first [lia | apply hex_char_visible]|]). apply visible_nil.
  - cbn [orb]. destruct (_ || _).
    + unfold unicode_escape.
      repeat (apply visible_cons; [first [lia | apply hex_char_visible]|]). apply visible_nil.
    + apply N.ltb_ge in E. apply visible_cons; [exact E | apply visible_nil].
Qed.

Lemma visible_quote_chars s : visible (quote_chars s).
Proof.
  remember (length s) as k eqn:Hk. revert s Hk.
  induction k as [k IH] using lt_wf_ind. intros s ->.
  destruct s as [|c rest]; [apply visible_nil|]. cbn [quote_chars].
  destruct (is_high_surrogate c) eqn:Hc.
  - destruct rest as [|d rest']; [apply visible_quote_unit|].
    destruct (is_low_surrogate d) eqn:Hd.
    + unfold is_high_surrogate in Hc. unfold is_low_surrogate in Hd.
      apply andb_true_iff in Hc as [Hc _]. apply andb_true_iff in Hd as [Hd _].
      apply N.leb_le in Hc, Hd.
      apply visible_cons; [lia|]. apply visible_cons; [lia|].
      apply (IH (length rest')); [cbn [length]; lia | reflexivity].
    + apply visible_app; [apply visible_quote_unit|].
      apply (IH (length (d :: rest'))); [cbn [length]; lia | reflexivity].
  - apply visible_app; [apply visible_quote_unit|].
    apply (IH (length rest)); [cbn [length]; lia | reflexivity].
Qed.

Lemma visible_QuoteJSONString s : visible (QuoteJSONString s).
Proof.
  unfold QuoteJSONString. apply visible_cons; [lia|].
  apply visible_app; [apply visible_quote_chars|].
  apply visible_cons; [lia | apply visible_nil].
Qed.

Lemma visible_join_comma parts : Forall visible parts -> visible (join_comma parts).
Proof.
  intros H. destruct H as [|p rest Hp Hrest]; [apply visible_nil|].
  cbn [join_comma]. apply visible_app; [exact Hp|].
  induction Hrest as [|q rest Hq _ IH]; [apply visible_nil|].
  cbn [map concat]. apply visible_app; [|exact IH].
  apply visible_cons; [lia | exact Hq].
Qed.

Lemma visible_stringify v : visible (stringify v).
Proof.
  induction v as [|b|x|s|items IH|fields IH] using json_induction; cbn [stringify].
  - apply visible_js_literal. reflexivity.
  - destruct b; apply visible_js_literal; reflexivity.
  - destruct (isFinite x); [apply visible_Number_toString|].
    apply visible_js_literal. reflexivity.
  - apply visible_QuoteJSONString.
  - apply visible_cons; [lia|]. apply visible_app.
    + apply visible_join_comma. apply Forall_map. exact IH.
    + apply visible_cons; [lia | apply visible_nil].
  - apply visible_cons; [lia|]. apply visible_app.
    + apply visible_join_comma. apply Forall_map.
      eapply Forall_impl; [exact IH|]. intros [k v] Hv. cbn [fst snd] in *.
      apply visible_app; [apply visible_QuoteJSONString|].
      apply visible_cons; [lia | exact Hv].
    + apply visible_cons; [lia | apply visible_nil].
Qed.

(** X1. Whatever value the worker emits, it writes exactly one line: the
    prefix and the serialised value, which hold no control character (no line
    feed and no carriage return in particular: [JSON.stringify] escapes them),
    and then the one line feed that ends the line. *)
Theorem emit_writes_one_line (msg : json) :
  exists line,
    RunnerProcess.emit msg = line ++ [10%N]
    /\ line = IPC_PREFIX ++ serializeIpc msg
    /\ startsWith IPC_PREFIX line = true
    /\ Forall (fun c => (32 <= c)%N) line
    /\ ~ In 10%N line /\ ~ In 13%N line.
Proof.
  assert (Hvis : visible (IPC_PREFIX ++ serializeIpc msg)).
  { apply visible_app; [apply visible_js_literal; reflexivity|].
    unfold serializeIpc. apply visible_stringify. }
  exists (IPC_PREFIX ++ serializeIpc msg).
  split; [unfold RunnerProcess.emit; rewrite <- app_assoc; reflexivity|].
  split; [reflexivity|]. split; [reflexivity|]. split; [exact Hvis|].
  unfold visible in Hvis. rewrite List.Forall_forall in Hvis.
  split; intros Hin; apply Hvis in Hin; lia.
Qed.

(** *** From the worker's line to the callback *)

Lemma parseIpcLine_message m :
  message_finite m = true -> message_wf m = true ->
  parseIpcLine (serializeIpc (message_object m)) = Some (message_object (read_back m)).
Proof.
  intros Hfin Hwf. rewrite <- serializeIpc_read_back.
  destruct (message_object_ok (read_back m)) as [Hok Hvalid].
  - rewrite message_numbers_read_back, forallb_forall. intros y Hy.
    apply in_map_iff in Hy as (x & <- & Hx).
    unfold message_finite, message_wf in *. rewrite forallb_forall in Hfin, Hwf.
    apply representable_plus_zero; auto.
  - destruct (read_back m); apply parseIpcLine_serializeIpc; assumption.
Qed.

Lemma startsWith_app p s : startsWith p (p ++ s) = true.
Proof.
  induction p as [|c p IH]; [reflexivity|].
  cbn [app startsWith]. rewrite N.eqb_refl. exact IH.
Qed.

Lemma slice_prefix {A} (p s : list A) : slice (Z.of_nat (length p)) (p ++ s) = s.
Proof.
  unfold slice. destruct (Z.ltb_spec (Z.of_nat (length p)) 0); [lia|].
  rewrite length_app, Z.min_l by lia. rewrite Nat2Z.id.
  rewrite drop_app_length. reflexivity.
Qed.

(** *** What readline makes of the worker's line *)

Lemma inline_ascii c : (32 <= c < 128)%N -> inline c.
Proof. unfold inline. lia. Qed.

Lemma Forall_inline_literal (s : jsstring) :
  forallb (fun c => (32 <=? c)%N && (c <? 128)%N) s = true -> Forall inline s.
Proof.
  intros H. apply List.Forall_forall. intros c Hc. rewrite forallb_forall in H.
  specialize (H c Hc). apply andb_true_iff in H as [H1 H2].
  apply N.leb_le in H1. apply N.ltb_lt in H2. apply inline_ascii. lia.
Qed.

Lemma Forall_inline_digits ds :
  forallb (fun d => d <? 10)%N ds = true -> Forall inline (map digit_char ds).
Proof.
  intros H. apply Forall_map, List.Forall_forall. intros d Hd.
  rewrite forallb_forall in H. specialize (H d Hd). apply N.ltb_lt in H.
  apply inline_ascii. unfold digit_char. lia.
Qed.

Lemma Forall_inline_uint u : Forall inline (chars_of_uint u).
Proof.
  induction u; cbn [chars_of_uint]; try apply List.Forall_nil;
    (apply List.Forall_cons; [apply inline_ascii; lia | assumption]).
Qed.

Lemma forallb_digits_take k (ds : list N) :
  forallb (fun d => d <? 10)%N ds = true -> forallb (fun d => d <? 10)%N (take k ds) = true.
Proof.
  intros H. rewrite <- (take_drop k ds), forallb_app in H.
  apply andb_true_iff in H as [H _]. exact H.
Qed.

Lemma forallb_digits_drop k (ds : list N) :
  forallb (fun d => d <? 10)%N ds = true -> forallb (fun d => d <? 10)%N (drop k ds) = true.
Proof.
  intros H. rewrite <- (take_drop k ds), forallb_app in H.
  apply andb_true_iff in H as [_ H]. exact H.
Qed.

Lemma forallb_digits_zeros k : forallb (fun d => d <? 10)%N (zeros k) = true.
Proof. induction k; [reflexivity | exact IHk]. Qed.

Lemma Forall_inline_Number_toString x :
  number_ok x = true -> Forall inline (Number_toString x).
Proof.
  destruct x as [|neg|neg|neg ds n]; cbn [Number_toString number_ok].
  - intros _. apply Forall_inline_literal. reflexivity.
  - intros _. apply Forall_app. split; [destruct neg|]; apply Forall_inline_literal; reflexivity.
  - intros _. apply Forall_inline_literal. reflexivity.
  - unfold digits_ok. intros H. apply andb_true_iff in H as [H _].
    apply andb_true_iff in H as [Hds _].
    cbv zeta. apply Forall_app. split;
      [destruct neg; apply Forall_inline_literal; reflexivity|].
    destruct (_ && _).
    + destruct (_ <=? _).
      { apply Forall_inline_digits. rewrite forallb_app, Hds. apply forallb_digits_zeros. }
      destruct (0 <? n).
      * apply Forall_app. split; [apply Forall_inline_digits, forallb_digits_take, Hds|].
        apply Forall_app. split; [apply Forall_inline_literal; reflexivity|].
        apply Forall_inline_digits, forallb_digits_drop, Hds.
      * apply Forall_app. split; [apply Forall_inline_literal; reflexivity|].
        apply Forall_inline_digits. rewrite forallb_app, Hds, andb_true_r.
        apply forallb_digits_zeros.
    + apply Forall_app. split.
      * destruct ds as [|d [|d' rest]]; [apply List.Forall_nil| |].
        -- apply (Forall_inline_digits [d]). exact Hds.
        -- change (digit_char d :: js "." ++ map digit_char (d' :: rest))
             with (map digit_char [d] ++ js "." ++ map digit_char (d' :: rest)).
           cbn [forallb] in Hds. apply andb_true_iff in Hds as [Hd Hrest].
           apply Forall_app. split;
             [apply Forall_inline_digits; cbn [forallb]; rewrite Hd; reflexivity|].
           apply Forall_app. split; [apply Forall_inline_literal; reflexivity|].
           apply Forall_inline_digits. exact Hrest.
      * apply Forall_app. split; [apply Forall_inline_literal; reflexivity|].
        apply Forall_app. split;
          [destruct (_ <? _); apply Forall_inline_literal; reflexivity|].
        apply Forall_inline_uint.
Qed.

Lemma hex_char_ascii d : (32 <= hex_char (d mod 16) < 128)%N.
Proof.
  assert (H : (d mod 16 < 16)%N) by (apply N.mod_upper_bound; discriminate).
  revert H. generalize (d mod 16)%N. intros x H. unfold hex_char.
  destruct (x <? 10)%N; lia.
Qed.

Lemma Forall_inline_escape c : Forall inline (unicode_escape c).
Proof.
  unfold unicode_escape.
  repeat (apply List.Forall_cons;
          [apply inline_ascii; first [lia | apply hex_char_ascii]|]).
  apply List.Forall_nil.
Qed.

Lemma Forall_inline_quote_unit c :
  c <> 8232%N -> c <> 8233%N -> Forall inline (quote_unit c).
Proof.
  intros H1 H2. unfold quote_unit.
  repeat match goal with
         | |- Forall inline (if (?a =? ?b)%N then _ else _) =>
           destruct (a =? b)%N; [apply Forall_inline_literal; reflexivity|]
         end.
  destruct (c <? 32)%N eqn:E; cbn [orb]; [apply Forall_inline_escape|].
  destruct (_ || _); [apply Forall_inline_escape|].
  apply N.ltb_ge in E. apply List.Forall_cons; [|apply List.Forall_nil].
  unfold inline. auto.
Qed.

Lemma Forall_inline_quote_chars s :
  Props.no_separator s = true -> Forall inline (quote_chars s).
Proof.
  remember (length s) as k eqn:Hk. revert s Hk.
  induction k as [k IH] using lt_wf_ind. intros s -> Hs.
  destruct s as [|c rest]; [apply List.Forall_nil|].
  unfold Props.no_separator in Hs. cbn [forallb] in Hs.
  apply andb_true_iff in Hs as [Hc Hrest].
  apply andb_true_iff in Hc as [Hc1 Hc2].
  apply negb_true_iff, N.eqb_neq in Hc1, Hc2.
  cbn [quote_chars].
  destruct (is_high_surrogate c) eqn:Hhigh.
  - destruct rest as [|d rest']; [apply Forall_inline_quote_unit; assumption|].
    destruct (is_low_surrogate d) eqn:Hlow.
    + cbn [forallb] in Hrest. apply andb_true_iff in Hrest as [_ Hrest'].
      unfold is_high_surrogate in Hhigh. unfold is_low_surrogate in Hlow.
      apply andb_true_iff in Hhigh as [Hh1 Hh2]. apply andb_true_iff in Hlow as [Hl1 Hl2].
      apply N.leb_le in Hh1, Hh2, Hl1, Hl2.
      apply List.Forall_cons; [unfold inline; lia|].
      apply List.Forall_cons; [unfold inline; lia|].
      apply (IH (length rest')); [cbn [length]; lia | reflexivity | exact Hrest'].
    + apply Forall_app. split; [apply Forall_inline_quote_unit; assumption|].
      apply (IH (length (d :: rest'))); [cbn [length]; lia | reflexivity | exact Hrest].
  - apply Forall_app. split; [apply Forall_inline_quote_unit; assumption|].
    apply (IH (length rest)); [cbn [length]; lia | reflexivity | exact Hrest].
Qed.

Lemma Forall_inline_QuoteJSONString s :
  Props.no_separator s = true -> Forall inline (QuoteJSONString s).
Proof.
  intros H. unfold QuoteJSONString. apply List.Forall_cons; [apply inline_ascii; lia|].
  apply Forall_app. split; [apply Forall_inline_quote_chars, H|].
  apply List.Forall_cons; [apply inline_ascii; lia | apply List.Forall_nil].
Qed.

Lemma Forall_inline_join_comma parts :
  Forall (Forall inline) parts -> Forall inline (join_comma parts).
Proof.
  intros H. destruct H as [|p rest Hp Hrest]; [apply List.Forall_nil|].
  cbn [join_comma]. apply Forall_app. split; [exact Hp|].
  induction Hrest as [|q rest Hq _ IH]; [apply List.Forall_nil|].
  cbn [map concat]. apply Forall_app. split; [|exact IH].
  apply List.Forall_cons; [apply inline_ascii; lia | exact Hq].
Qed.

Lemma Forall_inline_object fields :
  Forall (fun kv => Props.no_separator (fst kv) = true
                    /\ Forall inline (stringify (snd kv))) fields ->
  Forall inline (stringify (JObj fields)).
Proof.
  intros H. cbn [stringify]. apply List.Forall_cons; [apply inline_ascii; lia|].
  apply Forall_app. split; [|apply List.Forall_cons; [apply inline_ascii; lia | apply List.Forall_nil]].
  apply Forall_inline_join_comma, Forall_map.
  eapply Forall_impl; [exact H|]. intros [k v] [Hk Hv]. cbn [fst snd] in *.
  apply Forall_app. split; [apply Forall_inline_QuoteJSONString, Hk|].
  apply List.Forall_cons; [apply inline_ascii; lia | exact Hv].
Qed.

Lemma Forall_inline_number x :
  isFinite x = true -> number_ok x = true -> Forall inline (stringify (JNum x)).
Proof.
  intros Hfin Hok. cbn [stringify]. rewrite Hfin. apply Forall_inline_Number_toString, Hok.
Qed.

Lemma Forall_inline_string s :
  Props.no_separator s = true -> Forall inline (stringify (JStr s)).
Proof. apply Forall_inline_QuoteJSONString. Qed.

(** The line of a well-formed message whose strings hold no line or
    paragraph separator has no place at which readline would end it. *)
Lemma Forall_inline_message m :
  message_finite m = true -> message_wf m = true ->
  forallb Props.no_separator (Props.message_strings m) = true ->
  Forall inline (IPC_PREFIX ++ serializeIpc (message_object m)).
Proof.
  intros Hfin Hwf Hstr. apply Forall_app. split; [apply Forall_inline_literal; reflexivity|].
  unfold serializeIpc, message_finite, message_wf in *.
  destruct m as [text timestamp|text costUsd t durationMs numTurns
                 |message costUsd t durationMs numTurns];
    cbn [message_numbers Props.message_strings forallb message_object tokens_object] in *;
    repeat match goal with
           | H : _ && _ = true |- _ => apply andb_true_iff in H as [? ?]
           end;
    repeat (first [ apply Forall_inline_object
                  | apply List.Forall_cons; [split; [reflexivity|]|]
                  | apply List.Forall_nil
                  | apply Forall_inline_number; assumption
                  | apply Forall_inline_string; assumption
                  | apply Forall_inline_literal; reflexivity ]).
Qed.

Lemma lines_from_line line after : forall cur,
  Forall inline line ->
  Readline.lines_from cur (line ++ 10%N :: after) = (cur ++ line) :: Readline.lines after.
Proof.
  induction line as [|c line IH]; intros cur H.
  - cbn. rewrite app_nil_r. reflexivity.
  - apply Forall_cons in H as [(Hc1 & Hc2 & Hc3) H].
    cbn [app Readline.lines_from].
    destruct (N.eqb_spec c 13) as [->|_]; [lia|].
    unfold Readline.is_line_end.
    destruct (N.eqb_spec c 10) as [->|_]; [lia|].
    destruct (N.eqb_spec c 8232) as [->|_]; [contradiction|].
    destruct (N.eqb_spec c 8233) as [->|_]; [contradiction|].
    cbn [orb]. rewrite (IH _ H), <- app_assoc. reflexivity.
Qed.

(** What comes after a line feed is read as if the text started there. *)
Lemma lines_from_line_feed before rest : forall cur,
  Readline.lines_from cur (before ++ 10%N :: rest)
  = Readline.lines_from cur (before ++ [10%N]) ++ Readline.lines rest.
Proof.
  remember (length before) as k eqn:Hk. revert before Hk.
  induction k as [k IH] using lt_wf_ind. intros before -> cur.
  destruct before as [|c before]; [reflexivity|].
  cbn [app Readline.lines_from].
  destruct (c =? 13)%N.
  - destruct before as [|d before]; [reflexivity|]. cbn [app].
    destruct (d =? 10)%N; cbn [app]; f_equal.
    + apply (IH (length before) ltac:(cbn [length]; lia) before eq_refl).
    + apply (IH (length (d :: before)) ltac:(cbn [length]; lia) (d :: before) eq_refl).
  - destruct (Readline.is_line_end c); [cbn [app]; f_equal|];
      apply (IH (length before) ltac:(cbn [length]; lia) before eq_refl).
Qed.

(** X2. A progress, result or error message with finite numbers, whose
    strings hold neither U+2028 nor U+2029, is written by the worker as text
    that readline hands over as one line, also in the midst of other output
    when it starts a line; that line reaches the [onMessage] callback of
    either backend as the message that was sent (a negative zero read as 0),
    and leaves everything else of the backend's state as it was: no log entry,
    nothing added to the stderr buffer. *)
Theorem emitted_message_reaches_onMessage (m : IpcMessage) (st : Child)
    (before after : jsstring) :
  message_finite m = true ->
  message_wf m = true ->
  forallb Props.no_separator (Props.message_strings m) = true ->
  let written := RunnerProcess.emit (message_object m) in
  let line := IPC_PREFIX ++ serializeIpc (message_object m) in
  Readline.lines written = [line]
  /\ Readline.lines (before ++ [10%N] ++ written ++ after)
     = Readline.lines (before ++ [10%N]) ++ line :: Readline.lines after
  /\ fold_left ContainerManager.handle (map StderrLine (Readline.lines written)) st
     = with_call (onMessage (message_object (read_back m))) st
  /\ fold_left LocalRunner.handle (map StderrLine (Readline.lines written)) st
     = with_call (onMessage (message_object (read_back m))) st.
Proof.
  intros Hfin Hwf Hstr. cbv zeta.
  pose proof (Forall_inline_message m Hfin Hwf Hstr) as Hinline.
  assert (Hwritten : forall rest,
             Readline.lines (RunnerProcess.emit (message_object m) ++ rest)
             = (IPC_PREFIX ++ serializeIpc (message_object m)) :: Readline.lines rest).
  { intros rest. unfold Readline.lines at 1. unfold RunnerProcess.emit.
    rewrite app_assoc, <- (app_assoc _ [10%N] rest).
    apply (lines_from_line _ rest [] Hinline). }
  assert (Hlines : Readline.lines (RunnerProcess.emit (message_object m))
                   = [IPC_PREFIX ++ serializeIpc (message_object m)]).
  { rewrite <- (app_nil_r (RunnerProcess.emit _)). apply (Hwritten []). }
  rewrite Hlines. split; [reflexivity|]. split.
  { unfold Readline.lines at 1 2. cbn [app].
    rewrite lines_from_line_feed, Hwritten. reflexivity. }
  cbn [map fold_left ContainerManager.handle LocalRunner.handle].
  unfold ContainerManager.on_line, LocalRunner.on_line.
  rewrite startsWith_app, slice_prefix, (parseIpcLine_message m Hfin Hwf).
  split; reflexivity.
Qed.

Lemma emitted_message_reaches_onMessage_witness :
  calls (fold_left LocalRunner.handle
           (map StderrLine
                (Readline.lines (RunnerProcess.emit (message_object Sample.result_message))))
           (LocalRunner.run 7 None))
  = [onMessage (message_object Sample.result_message)].
Proof.
  pose proof (emitted_message_reaches_onMessage Sample.result_message
                (LocalRunner.run 7 None) [] [] eq_refl eq_refl eq_refl) as (_ & _ & _ & H).
  cbv zeta in H. rewrite H. reflexivity.
Defined.

(** A message whose text holds U+2028 is cut in two by readline: the first
    piece does not parse and the second has no prefix, so the message never
    reaches [onMessage]. *)
Lemma message_with_line_separator_is_lost :
  let m := IpcResultMessage (js "a" ++ [8232%N] ++ js "b") (Zero false) Sample.tokens
                            (Zero false) (Zero false) in
  let lines := Readline.lines (RunnerProcess.emit (message_object m)) in
  length lines = 2%nat
  /\ calls (fold_left LocalRunner.handle (map StderrLine lines) (LocalRunner.run 7 None)) = []
  /\ calls (fold_left ContainerManager.handle (map StderrLine lines)
              (ContainerManager.run 7 None)) = [].
Proof. cbv zeta. repeat split; vm_compute; reflexivity. Qed.

Lemma parseIpcLine_valid line msg :
  parseIpcLine line = Some msg -> isValidIpcMessage msg = true.
Proof.
  unfold parseIpcLine. destruct (trim line); [discriminate|].
  destruct (JSON.parse _) as [parsed|]; [|discriminate].
  destruct (isValidIpcMessage parsed) eqn:E; [|discriminate].
  intros [= <-]. exact E.
Qed.

Lemma messages_of_valid evs : Forall (fun msg => isValidIpcMessage msg = true) (Spec.messages_of evs).
Proof.
  induction evs as [|ev evs IH]; [apply List.Forall_nil|].
  unfold Spec.messages_of in *. rewrite omap_cons_match.
  destruct ev as [chunk|line|code signal|code signal]; try exact IH.
  destruct (startsWith _ _); [|exact IH].
  destruct (parseIpcLine _) as [msg|] eqn:E; [|exact IH].
  apply List.Forall_cons; [exact (parseIpcLine_valid _ _ E) | exact IH].
Qed.

Lemma handle_valid_callbacks `{B : RunnerBackend}
    (Hother : forall st ev, Spec.is_close ev = false ->
                calls (handle st ev) = calls st ++ map onMessage (Spec.messages_of [ev]))
    (Hclose : forall st code signal,
                calls (handle st (ChildClose code signal)) = calls st ++ [onExit code signal])
    evs :
  forall st, forallb Props.valid_callback (calls st) = true ->
             forallb Props.valid_callback (calls (deliver st evs)) = true.
Proof.
  induction evs as [|ev evs IH]; intros st Hst; [exact Hst|].
  unfold deliver. cbn [fold_left]. apply IH.
  destruct (Spec.is_close ev) eqn:E.
  - destruct ev; try discriminate. rewrite Hclose, forallb_app, Hst. reflexivity.
  - rewrite (Hother st ev E), forallb_app, Hst. cbn [andb].
    apply forallb_forall. intros cb Hcb. apply in_map_iff in Hcb as (msg & <- & Hmsg).
    pose proof (messages_of_valid [ev]) as Hall.
    rewrite List.Forall_forall in Hall. exact (Hall msg Hmsg).
Qed.

(** X3. Whatever a worker writes and whenever it exits, every message
    either backend hands to [onMessage] passes [isValidIpcMessage]: a line
    that is not JSON, or that is JSON of another shape, never reaches the
    callback. *)
Theorem backends_deliver_valid_messages_only (executionId : Z) (tmp : option jsstring)
    (evs : list ChildEvent) :
  forallb Props.valid_callback
    (calls (@deliver ContainerManager.backend (ContainerManager.run executionId tmp) evs)) = true
  /\ forallb Props.valid_callback
       (calls (@deliver LocalRunner.backend (LocalRunner.run executionId tmp) evs)) = true.
Proof.
  split.
  - apply (@handle_valid_callbacks ContainerManager.backend
             container_handle_other container_handle_close). reflexivity.
  - apply (@handle_valid_callbacks LocalRunner.backend
             local_handle_other local_handle_close). reflexivity.
Qed.

(** *** White space around a line *)

Lemma trimStart_spaces pre s :
  forallb is_trim_space pre = true -> trimStart (pre ++ s) = trimStart s.
Proof.
  induction pre as [|c pre IH]; [reflexivity|]. cbn [forallb app trimStart].
  intros H. apply andb_true_iff in H as [Hc Hpre]. rewrite Hc. exact (IH Hpre).
Qed.

Lemma trimStart_app s post :
  trimStart (s ++ post) = match trimStart s with [] => trimStart post | t => t ++ post end.
Proof.
  induction s as [|c s IH]; cbn [app trimStart].
  - reflexivity.
  - destruct (is_trim_space c); [exact IH | reflexivity].
Qed.

Lemma trimStart_all_spaces s : forallb is_trim_space s = true -> trimStart s = [].
Proof.
  intros H. rewrite <- (app_nil_r s). rewrite (trimStart_spaces s [] H). reflexivity.
Qed.

Lemma trim_spaces pre s post :
  forallb is_trim_space pre = true -> forallb is_trim_space post = true ->
  trim (pre ++ s ++ post) = trim s.
Proof.
  intros Hpre Hpost. unfold trim. rewrite (trimStart_spaces pre _ Hpre).
  rewrite trimStart_app. destruct (trimStart s) as [|c t] eqn:E.
  - rewrite (trimStart_all_spaces post Hpost). reflexivity.
  - f_equal. rewrite rev_app_distr. apply trimStart_spaces.
    rewrite forallb_forall in *. intros x Hx. apply Hpost, in_rev, Hx.
Qed.

(** X4. [parseIpcLine] does not see white space around the payload (a
    carriage return left at the end of a line, indentation before it), and a
    payload of white space only is no message. *)
Theorem parseIpcLine_ignores_surrounding_space (pre line post : jsstring) :
  forallb is_trim_space pre = true ->
  forallb is_trim_space post = true ->
  parseIpcLine (pre ++ line ++ post) = parseIpcLine line
  /\ parseIpcLine (pre ++ post) = None.
Proof.
  intros Hpre Hpost. split.
  - unfold parseIpcLine. rewrite (trim_spaces pre line post Hpre Hpost). reflexivity.
  - unfold parseIpcLine, trim.
    rewrite (trimStart_all_spaces (pre ++ post)); [reflexivity|].
    rewrite forallb_app, Hpre, Hpost. reflexivity.
Qed.

Lemma parseIpcLine_ignores_surrounding_space_witness :
  parseIpcLine (js " " ++ serializeIpc (Sample.progress_message "hi") ++ [13%N])
  = Some (Sample.progress_message "hi").
Proof.
  destruct (parseIpcLine_ignores_surrounding_space (js " ")
              (serializeIpc (Sample.progress_message "hi")) [13%N] eq_refl eq_refl)
    as [H _].
  rewrite H. vm_compute. reflexivity.
Defined.

(** *** The local backend's stderr buffer and the temporary file *)

Lemma slice_neg_drop {A} (m : Z) (l : list A) :
  0 < m -> slice (- m) l = drop (length l - Z.to_nat m) l.
Proof.
  intros Hm. unfold slice. destruct (Z.ltb_spec (- m) 0) as [H|H]; [|lia].
  f_equal. lia.
Qed.

Lemma slice_neg_app {A} (m : Z) (t x : list A) :
  0 < m -> slice (- m) (slice (- m) t ++ x) = slice (- m) (t ++ x).
Proof.
  intros Hm. rewrite !slice_neg_drop by exact Hm. rewrite !length_app, length_drop.
  set (k := Z.to_nat m).
  destruct (Nat.le_gt_cases (length t) k) as [H|H].
  - replace (length t - k)%nat with 0%nat by lia. rewrite drop_0, Nat.sub_0_r. reflexivity.
  - replace (length t - (length t - k) + length x - k)%nat with (length x) by lia.
    destruct (Nat.le_gt_cases (length x) k) as [Hx|Hx].
    + rewrite drop_app_le by (rewrite length_drop; lia).
      rewrite drop_drop.
      rewrite (drop_app_le t) by lia. do 2 f_equal. lia.
    + rewrite drop_app_ge by (rewrite length_drop; lia).
      rewrite length_drop.
      rewrite (drop_app_ge t) by lia. f_equal. lia.
Qed.

Lemma local_on_line_buffer st line :
  startsWith IPC_PREFIX line = false ->
  stderrBuf (LocalRunner.on_line st line)
  = slice (- LocalRunner.MAX_STDERR_BUF) (stderrBuf st ++ line ++ [10%N]).
Proof.
  intros H. unfold LocalRunner.on_line. rewrite H. cbn [stderrBuf with_log with_stderrBuf].
  destruct (Z.ltb_spec LocalRunner.MAX_STDERR_BUF
              (Z.of_nat (length (stderrBuf st ++ line ++ [10%N])))) as [Hlt|Hge];
    [reflexivity|].
  rewrite slice_neg_drop by reflexivity.
  replace (length (stderrBuf st ++ line ++ [10%N]) - Z.to_nat LocalRunner.MAX_STDERR_BUF)%nat
    with 0%nat; [reflexivity|].
  assert (0 < LocalRunner.MAX_STDERR_BUF) by reflexivity. lia.
Qed.

Lemma local_buffer_invariant evs : forall st text,
  stderrBuf st = slice (- LocalRunner.MAX_STDERR_BUF) text ->
  stderrBuf (@deliver LocalRunner.backend st evs)
  = slice (- LocalRunner.MAX_STDERR_BUF) (text ++ Props.diagnostic_text evs).
Proof.
  induction evs as [|ev evs IH]; intros st text Hst.
  - cbn. rewrite app_nil_r. exact Hst.
  - unfold deliver. cbn [fold_left].
    unfold Props.diagnostic_text. rewrite omap_cons_match.
    destruct ev as [chunk|line|code signal|code signal].
    + apply IH. exact Hst.
    + destruct (startsWith IPC_PREFIX line) eqn:E.
      * apply IH. cbn [handle LocalRunner.backend LocalRunner.handle].
        unfold LocalRunner.on_line. rewrite E.
        destruct (parseIpcLine _); exact Hst.
      * cbn [concat]. rewrite app_assoc. apply IH.
        cbn [handle LocalRunner.backend LocalRunner.handle].
        rewrite (local_on_line_buffer st line E), Hst.
        apply slice_neg_app. reflexivity.
    + apply IH. exact Hst.
    + apply IH. cbn [handle LocalRunner.backend LocalRunner.handle].
      unfold LocalRunner.on_close, unlink_tmp, forget_process. cbn [tmpPath].
      destruct (tmpPath st); cbn [stderrBuf]; destruct (_ && _); exact Hst.
Qed.

(** X5. The local backend's stderr buffer always holds the last 10,240
    code units of the diagnostic output so far (every stderr line that
    is not a protocol line, each followed by a line feed), and all of it while
    it is shorter: protocol lines, stdout and the exit events leave the buffer
    alone, and it never grows beyond the bound. *)
Theorem local_stderr_buffer_is_bounded_tail (executionId : Z) (tmp : option jsstring)
    (evs : list ChildEvent) :
  let st := @deliver LocalRunner.backend (LocalRunner.run executionId tmp) evs in
  let text := Props.diagnostic_text evs in
  stderrBuf st = slice (- LocalRunner.MAX_STDERR_BUF) text
  /\ stderrBuf st = drop (length text - Z.to_nat 10240) text
  /\ Z.of_nat (length (stderrBuf st)) <= 10240.
Proof.
  intros st text.
  assert (H : stderrBuf st = slice (- LocalRunner.MAX_STDERR_BUF) text).
  { apply (local_buffer_invariant evs (LocalRunner.run executionId tmp) []). reflexivity. }
  split; [exact H|].
  rewrite slice_neg_drop in H by reflexivity.
  split; [exact H|]. rewrite H, length_drop.
  change LocalRunner.MAX_STDERR_BUF with 10240. lia.
Qed.

Lemma handle_keeps_files (B : RunnerBackend)
    (Hkeep : forall st ev, Spec.is_close ev = false ->
               files (handle st ev) = files st /\ tmpPath (handle st ev) = tmpPath st
               /\ processes (handle st ev) = processes st
               /\ containerId (handle st ev) = containerId st)
    evs :
  forallb (fun ev => negb (Spec.is_close ev)) evs = true ->
  forall st,
    files (deliver st evs) = files st /\ tmpPath (deliver st evs) = tmpPath st
    /\ processes (deliver st evs) = processes st
    /\ containerId (deliver st evs) = containerId st.
Proof.
  induction evs as [|ev evs IH]; intros Hevs st; [repeat split|].
  cbn [forallb] in Hevs. apply andb_true_iff in Hevs as [Hev Hevs].
  apply negb_true_iff in Hev.
  unfold deliver in *. cbn [fold_left].
  destruct (IH Hevs (handle st ev)) as (-> & -> & -> & ->). exact (Hkeep st ev Hev).
Qed.

Lemma container_keeps_files st ev :
  Spec.is_close ev = false ->
  files (ContainerManager.handle st ev) = files st
  /\ tmpPath (ContainerManager.handle st ev) = tmpPath st
  /\ processes (ContainerManager.handle st ev) = processes st
  /\ containerId (ContainerManager.handle st ev) = containerId st.
Proof.
  destruct ev as [chunk|line|code signal|code signal]; try discriminate; intros _;
    cbn [ContainerManager.handle]; try (repeat split; reflexivity).
  unfold ContainerManager.on_line.
  destruct (startsWith _ _); [destruct (parseIpcLine _)|]; repeat split.
Qed.

Lemma local_keeps_files st ev :
  Spec.is_close ev = false ->
  files (LocalRunner.handle st ev) = files st
  /\ tmpPath (LocalRunner.handle st ev) = tmpPath st
  /\ processes (LocalRunner.handle st ev) = processes st
  /\ containerId (LocalRunner.handle st ev) = containerId st.
Proof.
  destruct ev as [chunk|line|code signal|code signal]; try discriminate; intros _;
    cbn [LocalRunner.handle]; try (repeat split; reflexivity).
  unfold LocalRunner.on_line.
  destruct (startsWith _ _); [destruct (parseIpcLine _)|]; repeat split.
Qed.

Lemma filter_out_only (p : jsstring) : filter (fun f => f <> p) [p] = [].
Proof.
  rewrite filter_cons. destruct (decide (p <> p)) as [H|H]; [contradiction|reflexivity].
Qed.

(** X6. The temporary file that carries an oversized task configuration
    stays in place as long as the worker's streams are open, whatever the
    worker writes and even after its process has exited, and is removed by the
    close listener of either backend; the local backend drops the process from
    its table at that same moment and not before. *)
Theorem payload_file_is_removed_at_close (executionId : Z) (p : jsstring)
    (evs : list ChildEvent) (code : option Z) (signal : option jsstring) :
  forallb (fun ev => negb (Spec.is_close ev)) evs = true ->
  let container := ContainerManager.run executionId (Some p) in
  let local := LocalRunner.run executionId (Some p) in
  files (@deliver ContainerManager.backend container evs) = [p]
  /\ files (@deliver ContainerManager.backend container (evs ++ [ChildClose code signal])) = []
  /\ files (@deliver LocalRunner.backend local evs) = [p]
  /\ files (@deliver LocalRunner.backend local (evs ++ [ChildClose code signal])) = []
  /\ processes (@deliver LocalRunner.backend local evs) = [containerId local]
  /\ processes (@deliver LocalRunner.backend local (evs ++ [ChildClose code signal])) = [].
Proof.
  intros Hevs container local.
  destruct (handle_keeps_files ContainerManager.backend container_keeps_files evs Hevs container)
    as (Hf & Ht & _ & _).
  destruct (handle_keeps_files LocalRunner.backend local_keeps_files evs Hevs local)
    as (Hf' & Ht' & Hp' & Hc').
  unfold deliver in *. rewrite !fold_left_app. cbn [fold_left].
  set (st := fold_left (@handle ContainerManager.backend) evs container) in *.
  set (st' := fold_left (@handle LocalRunner.backend) evs local) in *.
  change (files st = [p]
          /\ files (ContainerManager.on_close st code signal) = []
          /\ files st' = [p]
          /\ files (LocalRunner.on_close st' code signal) = []
          /\ processes st' = [containerId local]
          /\ processes (LocalRunner.on_close st' code signal) = []).
  clearbody st st'.
  split; [exact Hf|]. split.
  { unfold ContainerManager.on_close, unlink_tmp. rewrite Ht.
    cbn [tmpPath container ContainerManager.run files with_call].
    rewrite Hf. apply filter_out_only. }
  split; [exact Hf'|]. split; [|split; [exact Hp'|]].
  - unfold LocalRunner.on_close, unlink_tmp, forget_process. cbn [tmpPath].
    rewrite Ht'. cbn [local LocalRunner.run tmpPath].
    destruct (_ && _); cbn [files with_call with_log]; rewrite Hf'; apply filter_out_only.
  - unfold LocalRunner.on_close, unlink_tmp, forget_process. cbn [tmpPath].
    rewrite Ht'. cbn [local LocalRunner.run tmpPath].
    destruct (_ && _); cbn [processes with_call with_log containerId];
      rewrite Hp', Hc'; apply filter_out_only.
Qed.

Lemma payload_file_is_removed_at_close_witness :
  files (@deliver LocalRunner.backend (LocalRunner.run 7 (Some (js "/tmp/flowmate-task-7.json")))
           [StderrLine (js "[runner] starting"); ChildExit (Some 0) None]) 
  = [js "/tmp/flowmate-task-7.json"]
  /\ files (@deliver LocalRunner.backend (LocalRunner.run 7 (Some (js "/tmp/flowmate-task-7.json")))
              ([StderrLine (js "[runner] starting"); ChildExit (Some 0) None]
                 ++ [ChildClose (Some 0) None]))
     = [].
Proof.
  destruct (payload_file_is_removed_at_close 7 (js "/tmp/flowmate-task-7.json")
              [StderrLine (js "[runner] starting"); ChildExit (Some 0) None]
              (Some 0) None eq_refl)
    as (_ & _ & H1 & H2 & _).
  split; [exact H1 | exact H2].
Defined.

(** *** The budget tracker under arbitrary use *)
Import Types Execution.

Lemma outstanding_reserve tr :
  Shutdown.outstanding (fst (CostTracker.reserve tr)) = S (Shutdown.outstanding tr).
Proof.
  unfold Shutdown.outstanding, CostTracker.reserve. cbn [fst CostTracker.released].
  rewrite filter_app, length_app, filter_cons, filter_nil.
  destruct (decide (false = false)) as [_|H]; [|contradiction].
  cbn [length]. lia.
Qed.

Lemma unreleased_insert (l : list bool) : forall h,
  l !! h = Some false ->
  S (length (filter (fun b => b = false) (<[h := true]> l)))
  = length (filter (fun b => b = false) l).
Proof.
  induction l as [|b l IH]; intros h E; [discriminate|].
  destruct h as [|h].
  - cbn in E. injection E as ->. cbn [list_insert]. reflexivity.
  - cbn in E. change (<[S h := true]> (b :: l)) with (b :: <[h := true]> l).
    rewrite !filter_cons.
    destruct (decide (b = false)); cbn [length]; rewrite <- (IH h E); reflexivity.
Qed.

Lemma apply_op_outstanding tr op :
  CostTracker.pendingReservations tr = Z.of_nat (Shutdown.outstanding tr) ->
  CostTracker.pendingReservations (Shutdown.apply_op tr op)
  = Z.of_nat (Shutdown.outstanding (Shutdown.apply_op tr op)).
Proof.
  intros H. destruct op as [|h]; cbn [Shutdown.apply_op].
  - rewrite outstanding_reserve. cbn [CostTracker.reserve fst CostTracker.pendingReservations].
    lia.
  - unfold CostTracker.release.
    destruct (CostTracker.released tr !! h) as [[|]|] eqn:E; try exact H.
    unfold Shutdown.outstanding in *.
    cbn [CostTracker.pendingReservations CostTracker.released].
    pose proof (unreleased_insert _ _ E). lia.
Qed.

(** X7. However [reserve] and the release functions are called, in
    whatever order and however often (a release function twice, or one that
    was never handed out), the counter of pending reservations equals the
    number of reservations handed out and not yet released; it never goes
    below zero. *)
Theorem pending_counts_unreleased_reservations (ops : list Shutdown.TrackerOp) :
  let tr := fold_left Shutdown.apply_op ops CostTracker.new in
  CostTracker.pendingReservations tr = Z.of_nat (Shutdown.outstanding tr)
  /\ 0 <= CostTracker.pendingReservations tr.
Proof.
  cbv zeta.
  assert (H : forall tr,
             CostTracker.pendingReservations tr = Z.of_nat (Shutdown.outstanding tr) ->
             CostTracker.pendingReservations (fold_left Shutdown.apply_op ops tr)
             = Z.of_nat (Shutdown.outstanding (fold_left Shutdown.apply_op ops tr))).
  { induction ops as [|op ops IH]; intros tr Htr; [exact Htr|].
    cbn [fold_left]. apply IH, apply_op_outstanding, Htr. }
  specialize (H CostTracker.new eq_refl). split; [exact H | lia].
Qed.

Lemma sub_not_nan a b :
  is_nan (PrimFloat.sub a b) = false -> is_nan a = false /\ is_nan b = false.
Proof.
  rewrite !is_nan_false, FloatAxioms.sub_spec. unfold SF64sub.
  destruct (Prim2SF a) as [s|s| |s m e], (Prim2SF b) as [s'|s'| |s' m' e'];
    cbn [SFsub]; intros H; split; first [discriminate | exact H].
Qed.

Lemma mul_zero_is_zero a :
  is_nan (PrimFloat.mul a zero) = false -> is_zero (PrimFloat.mul a zero) = true.
Proof.
  rewrite is_nan_false, is_zero_spec, FloatAxioms.mul_spec. unfold SF64mul.
  change (Prim2SF zero) with (S754_zero false).
  destruct (Prim2SF a) as [s|s| |s m e]; cbn [SFmul]; intros H;
    first [contradiction | eauto].
Qed.

Lemma sub_zero_nonpos d r :
  PrimFloat.leb d zero = true -> is_zero r = true ->
  PrimFloat.leb (PrimFloat.sub d r) zero = true.
Proof.
  rewrite is_zero_spec, !FloatAxioms.leb_spec, FloatAxioms.sub_spec. unfold SF64sub.
  change (Prim2SF zero) with (S754_zero false). intros H [s' ->].
  destruct (Prim2SF d) as [s|s| |s m e]; cbn [SFsub]; try exact H;
    destruct s, s'; reflexivity.
Qed.

(** X8. With a positive per-task cap, [checkBudget] allows a task exactly
    when the cap is at most [dailyLimit - used - pending * cap] as JavaScript
    computes it (the floor of 0 plays no part). Each operation rounds, so a
    task can be refused although the spend, the reservations and one more cap
    fit the limit exactly: with a limit of 0.4, a cap of 0.1, nothing spent and
    three reservations, the exact value of [limit - 3 * cap] is the cap, the
    code finds 0.09999999999999998 and refuses. And a task can be allowed
    although they do not fit: with a limit of 1.69, 0.59 spent and a cap of
    1.1 the exact difference is below the cap, the code finds 1.1 and
    allows. *)
Theorem allowed_iff_cap_fits (db : Db.FlowmateDb) (today : jsstring * jsstring)
    (tr : CostTracker.t) (dailyLimit cap : float) :
  PrimFloat.ltb zero cap = true ->
  CostTracker.allowed (CostTracker.checkBudget db today tr dailyLimit (Some cap))
  = PrimFloat.leb cap
      (PrimFloat.sub (PrimFloat.sub dailyLimit (CostTracker.getDailyCost db today))
                     (PrimFloat.mul (Double.of_Z (CostTracker.pendingReservations tr)) cap))
  /\ (let limit := Double.of_number (Dec false [4%N] 0) in
      let tenth := Double.of_number (Dec false [1%N] 0) in
      let b := CostTracker.checkBudget Sample.empty_db Sample.today Sample.three_reserved
                 limit (Some tenth) in
      CostTracker.allowed b = false
      /\ Double.toString (CostTracker.remaining b) = js "0.09999999999999998"
      /\ match Double.exact limit, Double.exact tenth with
         | Some l, Some c => (l - 3 * c == c)%Q
         | _, _ => False
         end)
  /\ (let limit := Double.of_number (Dec false [1; 6; 9]%N 1) in
      let cap' := Double.of_number (Dec false [1; 1]%N 1) in
      let spent := Sample.spent_db (Dec false [5; 9]%N 0) in
      let b := CostTracker.checkBudget spent Sample.today CostTracker.new limit (Some cap') in
      CostTracker.allowed b = true
      /\ Double.toString (CostTracker.getDailyCost spent Sample.today) = js "0.59"
      /\ Double.toString (CostTracker.remaining b) = js "1.1"
      /\ match Double.exact limit, Double.exact (CostTracker.getDailyCost spent Sample.today),
               Double.exact cap' with
         | Some l, Some u, Some c => (l - u < c)%Q
         | _, _, _ => False
         end).
Proof.
  intros Hcap. split; [|split; [exact checkBudget_rounds_down | exact checkBudget_rounds_up]].
  unfold CostTracker.checkBudget. cbn [CostTracker.allowed].
  apply leb_Math_max_zero, Hcap.
Qed.

Lemma allowed_iff_cap_fits_witness :
  CostTracker.allowed
    (CostTracker.checkBudget Sample.empty_db Sample.today
       (fst (CostTracker.reserve (fst (CostTracker.reserve CostTracker.new))))
       (Double.of_Z 10) (Some (Double.of_Z 3)))
  = true.
Proof.
  rewrite (proj1 (allowed_iff_cap_fits Sample.empty_db Sample.today
                    (fst (CostTracker.reserve (fst (CostTracker.reserve CostTracker.new))))
                    (Double.of_Z 10) (Double.of_Z 3) eq_refl)).
  vm_compute. reflexivity.
Defined.

(** X9. Without a per-task cap the budget check refuses nothing:
    [checkBudget] with the cap left out (it defaults to 0), or with any cap
    that is not positive, allows the task whatever was spent, even when the
    day's spend is already at or above the daily limit, where it reports 0
    remaining. (The amount left is taken to be a number: it is NaN only
    when an amount is NaN or infinite amounts cancel, and nothing is at
    most a NaN.) *)
Theorem no_cap_always_allowed (db : Db.FlowmateDb) (today : jsstring * jsstring)
    (tr : CostTracker.t) (dailyLimit cap : float) :
  PrimFloat.leb cap zero = true ->
  let left c :=
    PrimFloat.sub (PrimFloat.sub dailyLimit (CostTracker.getDailyCost db today))
                  (PrimFloat.mul (Double.of_Z (CostTracker.pendingReservations tr)) c) in
  (is_nan (left zero) = false ->
   CostTracker.allowed (CostTracker.checkBudget db today tr dailyLimit None) = true)
  /\ (is_nan (left cap) = false ->
      CostTracker.allowed (CostTracker.checkBudget db today tr dailyLimit (Some cap)) = true)
  /\ (PrimFloat.leb dailyLimit (CostTracker.getDailyCost db today) = true ->
      is_nan (left zero) = false ->
      CostTracker.remaining (CostTracker.checkBudget db today tr dailyLimit None) = zero).
Proof.
  intros Hcap. cbv zeta. unfold CostTracker.checkBudget.
  cbn [CostTracker.allowed CostTracker.remaining].
  split; [|split].
  - intros Hnan. apply leb_nonpos_Math_max_zero; [reflexivity | exact Hnan].
  - intros Hnan. apply leb_nonpos_Math_max_zero; [exact Hcap | exact Hnan].
  - intros Hspent Hnan. apply Math_max_zero_nonpos.
    destruct (sub_not_nan _ _ Hnan) as [Hd Hr].
    apply sub_zero_nonpos; [apply sub_nonpos; assumption | apply mul_zero_is_zero, Hr].
Qed.

Lemma no_cap_always_allowed_witness :
  CostTracker.allowed
    (CostTracker.checkBudget Sample.empty_db Sample.today Sample.three_reserved
       (Double.of_Z 10) (Some zero))
  = true.
Proof.
  destruct (no_cap_always_allowed Sample.empty_db Sample.today Sample.three_reserved
              (Double.of_Z 10) zero eq_refl) as (_ & H & _).
  apply H. vm_compute. reflexivity.
Defined.

(** The proviso is needed: a NaN is at least nothing, so with a daily limit
    that is not a number even a task without a cap is refused. *)
Lemma no_cap_refused_when_not_a_number :
  CostTracker.checkBudget Sample.empty_db Sample.today CostTracker.new nan None
  = {| CostTracker.allowed := false; CostTracker.remaining := nan |}.
Proof. vm_compute. reflexivity. Qed.

(** *** The life of an execution *)

Lemma id_le_max rows :
  Forall (fun r => Db.id r <= fold_right Z.max 0 (map Db.id rows)) rows.
Proof.
  induction rows as [|r rows IH]; [apply List.Forall_nil|].
  cbn [map fold_right]. apply List.Forall_cons; [lia|].
  eapply Forall_impl; [exact IH|]. cbn beta. intros x Hx. lia.
Qed.

Lemma next_id_fresh db : Forall (fun r => Db.id r <> Db.next_id db) (Db.executions db).
Proof.
  unfold Db.next_id. eapply Forall_impl; [apply id_le_max|]. cbn beta. intros r Hr. lia.
Qed.

Lemma update_other_rows i p rows :
  Forall (fun r => Db.id r <> i) rows ->
  map (fun r => if Db.id r =? i then Db.apply_patch p r else r) rows = rows.
Proof.
  induction 1 as [|r rows Hr _ IH]; [reflexivity|].
  cbn [map]. rewrite IH. destruct (Z.eqb_spec (Db.id r) i); [contradiction|reflexivity].
Qed.

Lemma executions_update i p db rows r :
  Db.executions db = rows ++ [r] ->
  Forall (fun x => Db.id x <> i) rows -> Db.id r = i ->
  Db.executions (Db.update_execution i p db) = rows ++ [Db.apply_patch p r].
Proof.
  intros E Hrows Hr. cbn [Db.update_execution Db.executions].
  rewrite E, map_app, (update_other_rows i p rows Hrows). cbn [map].
  rewrite Hr, Z.eqb_refl. reflexivity.
Qed.

(** A write to the row of a tracked execution, followed or not by the
    settling of its promise. *)
Lemma tracked_write s0 started s c p :
  Props.tracked s0 started (s, c) ->
  Db.set_status p = None -> Db.set_costUsd p = None ->
  Props.tracked s0 started (with_db (Db.update_execution (execution c) p (db s)) s, c).
Proof.
  unfold Props.tracked. cbn [fst snd db with_db costTracker activeExecutions].
  intros (Hi & Hh & Hm & (r & Hrows & Hid & Hstart & Hrow) & Hothers & Hstate) Hst Hcost.
  split; [exact Hi|]. split; [exact Hh|]. split; [exact Hm|].
  split; [|split; [exact Hothers | exact Hstate]].
  exists (Db.apply_patch p r). rewrite Hi.
  split; [apply (executions_update _ _ _ _ _ Hrows (next_id_fresh (db s0)) Hid)|].
  split; [exact Hid|]. split; [exact Hstart|].
  cbn [Db.apply_patch Db.status Db.costUsd]. rewrite Hst, Hcost. exact Hrow.
Qed.

Lemma tracked_write_settle s0 started s c c' p o status :
  Props.tracked s0 started (s, c) ->
  execution c' = execution c -> releaseReservation c' = releaseReservation c ->
  settled c' = settled c ->
  Db.set_status p = Some status -> Db.is_terminal status = true ->
  Props.tracked s0 started
    (settle o (with_db (Db.update_execution (execution c') p (db s)) s, c')).
Proof.
  unfold Props.tracked. cbn [fst snd].
  intros (Hi & Hh & Hm & (r & Hrows & Hid & Hstart & Hrow) & Hothers & Hstate)
         He Hr Hs Hst Hterm.
  rewrite He.
  assert (Hrows' : Db.executions (Db.update_execution (execution c) p (db s))
                   = Db.executions (db s0) ++ [Db.apply_patch p r]).
  { rewrite Hi.
    apply (executions_update _ _ _ _ _ Hrows (next_id_fresh (db s0)) Hid). }
  assert (Hstatus : Db.is_terminal (Db.status (Db.apply_patch p r)) = true).
  { cbn [Db.apply_patch Db.status]. rewrite Hst. exact Hterm. }
  unfold settle. rewrite Hs. destruct (settled c) as [o'|] eqn:Hset.
  - cbn [fst snd db with_db costTracker activeExecutions]. rewrite Hs, He, Hr.
    split; [exact Hi|]. split; [exact Hh|]. split; [exact Hm|].
    split; [|split; [exact Hothers | exact Hstate]].
    exists (Db.apply_patch p r). repeat split; assumption.
  - cbn [fst snd db with_db costTracker activeExecutions set_settled settled
         execution releaseReservation].
    rewrite ?He, ?Hr. destruct Hstate as (Htr & _).
    split; [exact Hi|]. split; [exact Hh|]. split; [exact Hm|].
    split; [exists (Db.apply_patch p r); repeat split; assumption|].
    split.
    + intros j Hj. rewrite Hi, lookup_delete_ne by congruence. exact (Hothers j Hj).
    + rewrite Htr, Hi. split; [reflexivity | apply lookup_delete_eq].
Qed.

Lemma is_str_result_not_progress v :
  is_str "result" v || is_str "error" v = true -> is_str "progress" v = false.
Proof.
  destruct v as [[| | |s| |]|]; try discriminate. unfold is_str, jsstring_eqb.
  intros H. apply bool_decide_eq_false. intros ->. vm_compute in H. discriminate.
Qed.

(** [Props.throws] tells when the handler of a message throws, whatever
    the state it is called in. *)
Lemma on_message_throws msg clock s c :
  Props.throws (Message msg clock)
  = match snd (on_message msg clock (s, c)) with Some _ => true | None => false end.
Proof.
  cbn [Props.throws]. unfold on_message. cbv zeta.
  destruct (is_null msg); [reflexivity|].
  destruct (is_str "progress" (get "type" (Some msg))) eqn:Hprog.
  - assert (Hkind : is_str "result" (get "type" (Some msg))
                    || is_str "error" (get "type" (Some msg)) = false).
    { destruct (_ || _) eqn:E; [|reflexivity].
      rewrite (is_str_result_not_progress _ E) in Hprog. discriminate. }
    apply orb_false_iff in Hkind as [-> ->]. cbn [andb].
    destruct (onProgress c); [destruct (_ <=? _)|]; reflexivity.
  - cbn [andb]. destruct (is_str "result" _); [destruct (prepare _ _ _); reflexivity|].
    destruct (is_str "error" _); [destruct (prepare _ _ _); reflexivity | reflexivity].
Qed.

Lemma tracked_runner s0 started s c k :
  Props.tracked s0 started (s, c) -> Props.tracked s0 started (with_runner_call k s, c).
Proof. intros H. exact H. Qed.

Lemma tracked_closure s0 started s c c' :
  Props.tracked s0 started (s, c) ->
  execution c' = execution c -> releaseReservation c' = releaseReservation c ->
  settled c' = settled c -> runnerId c' = runnerId c ->
  Props.tracked s0 started (s, c').
Proof.
  unfold Props.tracked. cbn [fst snd].
  intros (Hi & Hh & Hm & Hrow & Hothers & Hstate) He Hr Hs Hrun.
  rewrite He, Hr, Hs, Hrun. repeat split; assumption.
Qed.

Lemma step_tracked s0 started sc ev :
  Props.tracked s0 started sc -> Props.tracked s0 started (step sc ev).
Proof.
  destruct sc as [s c]. intros H.
  destruct ev as [clock|msg clock|code signal clock|cid|err clock]; cbn [step snd].
  - destruct (timer c); [|exact H]. unfold on_timeout. cbv zeta.
    destruct (resultReceived (set_timer false c)) eqn:Hrr; cbn [negb].
    + apply (tracked_closure s0 started s c); try reflexivity. exact H.
    + apply (tracked_write_settle s0 started _ c (set_timer false c) _ _ Db.StatusTimeout);
        try reflexivity.
      destruct (runnerId (set_timer false c)) as [[|u r]|];
        [exact H | apply tracked_runner, H | exact H].
  - unfold on_message. cbv zeta. destruct (is_null msg); [exact H|].
    destruct (is_str "progress" (get "type" (Some msg)) && onProgress c) eqn:Hprog.
    + destruct (_ <=? _); [|exact H].
      apply (tracked_closure s0 started s c); try reflexivity. exact H.
    + destruct (is_str "result" (get "type" (Some msg))).
      * destruct (prepare _ _ _) as [e|patch] eqn:E; cbn [fst].
        -- apply (tracked_closure s0 started s c); try reflexivity. exact H.
        -- apply (tracked_write_settle s0 started s c
                    (set_timer false (set_resultReceived true c)) _ _ Db.StatusCompleted);
             try reflexivity; [exact H | exact (prepare_status _ _ _ _ E)].
      * destruct (is_str "error" (get "type" (Some msg))); [|exact H].
        destruct (prepare _ _ _) as [e|patch] eqn:E; cbn [fst].
        -- apply (tracked_closure s0 started s c); try reflexivity. exact H.
        -- apply (tracked_write_settle s0 started s c
                    (set_timer false (set_resultReceived true c)) _ _ Db.StatusFailed);
             try reflexivity; [exact H | exact (prepare_status _ _ _ _ E)].
  - unfold on_exit. cbv zeta.
    destruct (resultReceived (set_timer false c)) eqn:Hrr; cbn [negb].
    + apply (tracked_closure s0 started s c); try reflexivity. exact H.
    + apply (tracked_write_settle s0 started s c (set_timer false c) _ _ Db.StatusError);
        try reflexivity. exact H.
  - unfold on_spawned. cbv zeta.
    pose proof (tracked_write s0 started s c
                  {| Db.set_containerId := Some cid;
                     Db.set_status := None; Db.set_resultText := None;
                     Db.set_errorMessage := None; Db.set_costUsd := None;
                     Db.set_inputTokens := None; Db.set_outputTokens := None;
                     Db.set_cacheReadTokens := None; Db.set_cacheWriteTokens := None;
                     Db.set_durationMs := None; Db.set_numTurns := None;
                     Db.set_finishedAt := None |} H eq_refl eq_refl) as H1.
    unfold Props.tracked in *.
    cbn [fst snd db with_db costTracker activeExecutions set_runnerId execution
         releaseReservation settled timer resultReceived runnerId] in *.
    destruct H1 as (Hi & Hh & Hm & Hrow & Hothers & Hstate).
    split; [exact Hi|]. split; [exact Hh|]. split; [exact Hm|].
    split; [exact Hrow|]. split.
    + intros j Hj. rewrite Hi, lookup_alter_ne by congruence. exact (Hothers j Hj).
    + rewrite Hi, lookup_alter_eq. destruct (settled c).
      * destruct Hstate as [Htr Hact]. rewrite Hact. split; [exact Htr | reflexivity].
      * destruct Hstate as (Htr & Hact). rewrite Hact. split; [exact Htr | reflexivity].
  - unfold on_launch_failed. cbv zeta.
    apply (tracked_write_settle s0 started s c (set_timer false c) _ _ Db.StatusError);
      try reflexivity. exact H.
Qed.

Lemma execute_tracked config mcpEntryPath today clock params s s1 c :
  execute config mcpEntryPath today clock params s = (s1, inl c) ->
  Props.tracked s (toISOString clock) (s1, c).
Proof.
  unfold execute. destruct (negb _); [discriminate|].
  unfold CostTracker.reserve, Db.insert_execution. cbv zeta.
  intros [= <- <-]. unfold Props.tracked.
  cbn [fst snd execution releaseReservation settled timer resultReceived runnerId
       db costTracker activeExecutions Db.id Db.update_execution Db.messages].
  split; [reflexivity|]. split; [reflexivity|]. split; [reflexivity|]. split; [|split].
  - eexists. split.
    + apply executions_update; [reflexivity | apply next_id_fresh | reflexivity].
    + repeat split.
  - intros j Hj. apply lookup_insert_ne. congruence.
  - repeat split. apply lookup_insert_eq.
Qed.

Lemma run_events_tracked s0 started evs : forall sc,
  Props.tracked s0 started sc -> Props.tracked s0 started (run_events sc evs).
Proof.
  induction evs as [|ev evs IH]; intros sc H; [exact H|].
  unfold run_events in *. cbn [fold_left]. apply IH, step_tracked, H.
Qed.

Lemma settle_settled o s c o' :
  settled c = Some o' -> settle o (s, c) = (s, c).
Proof. unfold settle. intros ->. reflexivity. Qed.

Lemma settle_pending o s c :
  settled c = None -> settled (snd (settle o (s, c))) = Some o.
Proof. unfold settle. intros ->. reflexivity. Qed.

Lemma settle_keeps o s c :
  db (fst (settle o (s, c))) = db s /\ runner (fst (settle o (s, c))) = runner s
  /\ execution (snd (settle o (s, c))) = execution c
  /\ releaseReservation (snd (settle o (s, c))) = releaseReservation c.
Proof. unfold settle. destruct (settled c); repeat split. Qed.

(** Once the promise is settled, no event changes its outcome, the
    tracker or the identity of the execution. *)
Lemma step_settled s c ev o :
  settled c = Some o ->
  settled (snd (step (s, c) ev)) = Some o
  /\ costTracker (fst (step (s, c) ev)) = costTracker s
  /\ execution (snd (step (s, c) ev)) = execution c.
Proof.
  intros H. destruct ev as [clock|msg clock|code signal clock|cid|err clock]; cbn [step snd].
  - destruct (timer c); [|repeat split; exact H]. unfold on_timeout. cbv zeta.
    destruct (negb _); [|repeat split; exact H].
    rewrite (settle_settled _ _ _ o) by exact H.
    destruct (runnerId _) as [[|u r]|]; repeat split; exact H.
  - unfold on_message. cbv zeta. destruct (is_null msg); [repeat split; exact H|].
    destruct (_ && _); [destruct (_ <=? _); repeat split; exact H|].
    destruct (is_str "result" _).
    { destruct (prepare _ _ _); [repeat split; exact H|].
      rewrite (settle_settled _ _ _ o) by exact H. repeat split; exact H. }
    destruct (is_str "error" _); [|repeat split; exact H].
    destruct (prepare _ _ _); [repeat split; exact H|].
    rewrite (settle_settled _ _ _ o) by exact H. repeat split; exact H.
  - unfold on_exit. cbv zeta. destruct (negb _); [|repeat split; exact H].
    rewrite (settle_settled _ _ _ o) by exact H. repeat split; exact H.
  - unfold on_spawned. cbv zeta. repeat split; exact H.
  - unfold on_launch_failed. cbv zeta.
    rewrite (settle_settled _ _ _ o) by exact H. repeat split; exact H.
Qed.

Lemma first_settled_stays s c o evs :
  settled c = Some o ->
  settled (snd (run_events (s, c) evs)) = Some o
  /\ costTracker (fst (run_events (s, c) evs)) = costTracker s.
Proof.
  revert s c. induction evs as [|ev evs IH]; intros s c H; [split; [exact H | reflexivity]|].
  unfold run_events in *. cbn [fold_left].
  destruct (step_settled s c ev o H) as (H1 & H2 & _).
  destruct (step (s, c) ev) as [s' c']. cbn [fst snd] in *.
  destruct (IH s' c' H1) as [H3 H4]. split; [exact H3|]. rewrite H4. exact H2.
Qed.

(** X10. Once the promise of an execution is settled, whatever events
    still arrive (a late message, the exit that follows a kill, the timer),
    its outcome stays the first one, and the budget tracker is not touched
    again: the reservation is released once, however many handlers try to
    settle. *)
Theorem first_settlement_wins (s : Service) (c : Closure) (o : Outcome) (evs : list Event) :
  settled c = Some o ->
  settled (snd (run_events (s, c) evs)) = Some o
  /\ costTracker (fst (run_events (s, c) evs)) = costTracker s.
Proof.
  revert s c. induction evs as [|ev evs IH]; intros s c H; [split; [exact H | reflexivity]|].
  unfold run_events in *. cbn [fold_left].
  destruct (step_settled s c ev o H) as (Hset & Htracker & _).
  destruct (step (s, c) ev) as [s' c']. cbn [fst snd] in *.
  destruct (IH s' c' Hset) as [Hlast Hkept]. split; [exact Hlast|].
  rewrite Hkept. exact Htracker.
Qed.

Lemma first_settlement_wins_witness :
  match Sample.after [TimerFired (Sample.clock 50)] with
  | Some (s, c) =>
    settled (snd (run_events (s, c)
                    [Message (Ipc.message_object Sample.result_message) (Sample.clock 60);
                     Exited None (Some (js "SIGTERM")) (Sample.clock 70)]))
    = Some (Rejected (js "Task timed out"))
  | None => False
  end.
Proof.
  destruct (Sample.after [TimerFired (Sample.clock 50)]) as [[s c]|] eqn:E;
    [|vm_compute in E; discriminate].
  apply (first_settlement_wins s c (Rejected (js "Task timed out"))).
  injection E as _ <-. reflexivity.
Defined.

Lemma reserved_pending tr :
  CostTracker.pendingReservations (fst (CostTracker.reserve tr))
  = CostTracker.pendingReservations tr + 1
  /\ CostTracker.pendingReservations
       (CostTracker.release (length (CostTracker.released tr)) (fst (CostTracker.reserve tr)))
     = CostTracker.pendingReservations tr.
Proof.
  split; [reflexivity|].
  destruct (release_first (length (CostTracker.released tr)) (fst (CostTracker.reserve tr)))
    as [H _].
  - cbn [CostTracker.reserve fst CostTracker.released].
    rewrite lookup_app_r by lia. rewrite Nat.sub_diag. reflexivity.
  - rewrite H. cbn [CostTracker.reserve fst CostTracker.pendingReservations]. lia.
Qed.

(** X11. From the moment [execute] returns its promise and through any
    events: while the promise is pending the execution is in the in-flight map
    (with the runner id the closure holds) and its reservation counts, one
    above the count before the call; once the promise is settled the entry is
    gone and the count is back where it was. The entries of other executions
    are never touched. *)
Theorem in_flight_exactly_while_pending (config : FlowmateConfig.t)
    (mcpEntryPath : jsstring) (today : jsstring * jsstring) (clock : Clock)
    (params : Params) (s s1 : Service) (c : Closure) (evs : list Event) :
  execute config mcpEntryPath today clock params s = (s1, inl c) ->
  let s2 := fst (run_events (s1, c) evs) in
  let c2 := snd (run_events (s1, c) evs) in
  let pending := CostTracker.pendingReservations (costTracker s) in
  execution c2 = execution c
  /\ (forall j, j <> execution c -> activeExecutions s2 !! j = activeExecutions s !! j)
  /\ match settled c2 with
     | None =>
       activeExecutions s2 !! execution c = Some (runnerId c2)
       /\ CostTracker.pendingReservations (costTracker s2) = pending + 1
     | Some _ =>
       activeExecutions s2 !! execution c = None
       /\ CostTracker.pendingReservations (costTracker s2) = pending
     end.
Proof.
  intros Hexec. cbv zeta.
  pose proof (execute_tracked _ _ _ _ _ _ _ _ Hexec) as H0.
  pose proof (run_events_tracked _ _ evs _ H0) as H.
  destruct H0 as (Hi0 & _). cbn [snd] in Hi0.
  destruct (run_events (s1, c) evs) as [s2 c2]. unfold Props.tracked in H.
  cbn [fst snd] in *.
  destruct H as (Hi & Hh & _ & _ & Hothers & Hstate).
  destruct (reserved_pending (costTracker s)) as [Hres Hrel].
  rewrite Hi0. split; [exact Hi|]. split; [exact Hothers|].
  destruct (settled c2).
  - destruct Hstate as [Htr Hact]. split; [exact Hact|]. rewrite Htr, Hh. exact Hrel.
  - destruct Hstate as (Htr & Hact). split; [exact Hact|]. rewrite Htr. exact Hres.
Qed.

Lemma in_flight_exactly_while_pending_witness :
  exists s1 c,
    execute Sample.config (js "/app/mcp.js") Sample.today (Sample.clock 0) Sample.params
            (Sample.service Sample.empty_db CostTracker.new) = (s1, inl c)
    /\ activeExecutions (fst (run_events (s1, c) [Spawned (js "flowmate-1")])) !! 1
       = Some (Some (js "flowmate-1"))
    /\ activeExecutions
         (fst (run_events (s1, c) [Spawned (js "flowmate-1");
                                   Exited (Some 1) None (Sample.clock 10)])) !! 1
       = None.
Proof.
  eexists _, _. split; [reflexivity|].
  split.
  - pose proof (in_flight_exactly_while_pending Sample.config (js "/app/mcp.js") Sample.today
                  (Sample.clock 0) Sample.params
                  (Sample.service Sample.empty_db CostTracker.new) _ _
                  [Spawned (js "flowmate-1")] eq_refl) as (_ & _ & H).
    exact (proj1 H).
  - pose proof (in_flight_exactly_while_pending Sample.config (js "/app/mcp.js") Sample.today
                  (Sample.clock 0) Sample.params
                  (Sample.service Sample.empty_db CostTracker.new) _ _
                  [Spawned (js "flowmate-1"); Exited (Some 1) None (Sample.clock 10)]
                  eq_refl) as (_ & _ & H).
    exact (proj1 H).
Defined.

(** An event that is not an ending event leaves the promise as it is,
    and a closure that waits for its report keeps waiting. *)
Lemma step_no_end s c ev :
  Props.ends ev = false ->
  settled (snd (step (s, c) ev)) = settled c
  /\ (Props.waiting c -> Props.waiting (snd (step (s, c) ev))).
Proof.
  intros Hev. destruct ev as [clock|msg clock|code signal clock|cid|err clock];
    cbn [Props.ends] in Hev; try discriminate; cbn [step snd].
  - unfold on_message. cbv zeta. apply orb_false_iff in Hev as [-> ->].
    destruct (is_null msg); [split; [reflexivity | exact id]|].
    destruct (_ && _); [destruct (_ <=? _)|]; split; first [reflexivity | exact id].
  - split; [reflexivity | exact id].
Qed.

Lemma run_events_no_end evs : forall s c,
  existsb Props.ends evs = false ->
  settled (snd (run_events (s, c) evs)) = settled c
  /\ (Props.waiting c -> Props.waiting (snd (run_events (s, c) evs))).
Proof.
  induction evs as [|ev evs IH]; intros s c H; [split; [reflexivity | exact id]|].
  cbn [existsb] in H. apply orb_false_iff in H as [Hev Hevs].
  unfold run_events in *. cbn [fold_left].
  destruct (step_no_end s c ev Hev) as [Hset Hwait].
  destruct (step (s, c) ev) as [s' c']. cbn [snd] in *.
  destruct (IH s' c' Hevs) as [Hset' Hwait'].
  split; [congruence | auto].
Qed.

(** An ending event whose handler does not throw settles a promise that
    is pending and waits for its report. *)
Lemma step_end_settles s c ev :
  Props.ends ev = true -> Props.throws ev = false ->
  settled c = None -> Props.waiting c ->
  settled (snd (step (s, c) ev)) <> None.
Proof.
  intros Hev Hthrow Hset [Ht Hrr].
  destruct ev as [clock|msg clock|code signal clock|cid|err clock];
    cbn [Props.ends Props.throws] in Hev, Hthrow; try discriminate; cbn [step snd].
  - rewrite Ht. unfold on_timeout. cbv zeta. cbn [set_timer resultReceived].
    rewrite Hrr. cbn [negb]. rewrite settle_pending by exact Hset. discriminate.
  - unfold on_message. cbv zeta.
    destruct (is_null msg); [discriminate|].
    rewrite (is_str_result_not_progress _ Hev). cbn [andb].
    destruct (is_str "result" _).
    + destruct (prepare _ _ _); [discriminate|]. cbn [fst].
      rewrite settle_pending by exact Hset. discriminate.
    + cbn [orb] in Hev. rewrite Hev in *.
      destruct (prepare _ _ _); [discriminate|]. cbn [fst].
      rewrite settle_pending by exact Hset. discriminate.
  - unfold on_exit. cbv zeta. cbn [set_timer resultReceived].
    rewrite Hrr. cbn [negb]. rewrite settle_pending by exact Hset. discriminate.
  - unfold on_launch_failed. cbv zeta.
    rewrite settle_pending by exact Hset. discriminate.
Qed.

Lemma run_events_end_settles evs : forall s c,
  existsb Props.throws evs = false -> existsb Props.ends evs = true ->
  settled c = None -> Props.waiting c ->
  settled (snd (run_events (s, c) evs)) <> None.
Proof.
  induction evs as [|ev evs IH]; intros s c Hthrow Hends Hset Hwait; [discriminate|].
  cbn [existsb] in Hthrow, Hends. apply orb_false_iff in Hthrow as [Hthrow Hthrows].
  unfold run_events in *. cbn [fold_left].
  destruct (Props.ends ev) eqn:Hev.
  - pose proof (step_end_settles s c ev Hev Hthrow Hset Hwait) as Hdone.
    destruct (step (s, c) ev) as [s' c']. cbn [snd] in Hdone.
    destruct (settled c') as [o|] eqn:Ho; [|contradiction].
    destruct (first_settled_stays s' c' o evs Ho) as [Hs _].
    unfold run_events in Hs. rewrite Hs. discriminate.
  - cbn [orb] in Hends. destruct (step_no_end s c ev Hev) as [Hset' Hwait'].
    destruct (step (s, c) ev) as [s' c']. cbn [snd] in *.
    apply IH; [assumption | assumption | congruence | auto].
Qed.

(** A result or an error message at which the handler throws leaves the
    service as it is, the promise unsettled, the timer cleared and
    [resultReceived] set. *)
Lemma step_throwing_report s c msg clock :
  Props.ends (Message msg clock) = true -> Props.throws (Message msg clock) = true ->
  step (s, c) (Message msg clock) = (s, set_timer false (set_resultReceived true c)).
Proof.
  cbn [Props.ends Props.throws step]. intros Hev Hthrow. unfold on_message. cbv zeta.
  destruct (is_null msg) eqn:Hnull.
  { destruct msg; try discriminate. }
  rewrite (is_str_result_not_progress _ Hev). cbn [andb].
  destruct (is_str "result" _).
  - destruct (prepare _ _ _); [reflexivity | discriminate].
  - cbn [orb] in Hev. rewrite Hev in *.
    destruct (prepare _ _ _); [reflexivity | discriminate].
Qed.

(** Once [resultReceived] is set and the timer cleared, neither the timer
    nor the exit of the worker nor the spawn notification settles the
    promise. *)
Lemma run_events_after_report evs : forall s c,
  forallb Props.follows_report evs = true ->
  resultReceived c = true -> timer c = false ->
  settled (snd (run_events (s, c) evs)) = settled c.
Proof.
  induction evs as [|ev evs IH]; intros s c Hevs Hrr Ht; [reflexivity|].
  cbn [forallb] in Hevs. apply andb_true_iff in Hevs as [Hev Hevs].
  unfold run_events in *. cbn [fold_left].
  destruct ev as [clock|msg clock|code signal clock|cid|err clock];
    cbn [Props.follows_report] in Hev; try discriminate; cbn [step snd].
  - rewrite Ht. apply IH; assumption.
  - unfold on_exit. cbv zeta. cbn [set_timer resultReceived]. rewrite Hrr. cbn [negb].
    rewrite IH by (try assumption; reflexivity). reflexivity.
  - unfold on_spawned. cbv zeta.
    rewrite IH by (try assumption; reflexivity). reflexivity.
Qed.

Lemma execute_pending config mcpEntryPath today clock params s s1 c :
  execute config mcpEntryPath today clock params s = (s1, inl c) ->
  settled c = None /\ Props.waiting c.
Proof.
  unfold execute. destruct (negb _); [discriminate|].
  destruct (CostTracker.reserve _), (Db.insert_execution _ _ _ _ _).
  intros [= _ <-]. repeat split.
Qed.

Lemma find_last_row i rows (r : Db.ExecutionRow) :
  Forall (fun x => Db.id x <> i) rows -> Db.id r = i ->
  List.find (fun x => Db.id x =? i) (rows ++ [r]) = Some r.
Proof.
  intros Hrows Hr. induction Hrows as [|x rows Hx _ IH]; cbn [app List.find].
  - rewrite Hr, Z.eqb_refl. reflexivity.
  - destruct (Z.eqb_spec (Db.id x) i); [contradiction | exact IH].
Qed.

(** X12. The row of an execution tells the state of its promise: from
    the return of [execute] and through any events, the row reads [running]
    while the promise is pending and a terminal status once it is settled. The
    promise is pending as long as no ending event (timeout, exit, launch
    failure, result or error message) has come; it is settled from the first
    ending event on when no handler has thrown. A result or an error message
    at whose UPDATE the handler throws (a value SQLite cannot bind, or no
    [tokensUsed]) ends nothing: it has cleared the timer and set
    [resultReceived], so that neither the timeout nor the exit of the worker
    settles the promise afterwards; the row stays [running] and the promise
    hangs. The rows of other executions and the message log are never
    written. *)
Theorem row_status_follows_promise (config : FlowmateConfig.t)
    (mcpEntryPath : jsstring) (today : jsstring * jsstring) (clock : Clock)
    (params : Params) (s s1 : Service) (c : Closure) (evs : list Event) :
  execute config mcpEntryPath today clock params s = (s1, inl c) ->
  let s2 := fst (run_events (s1, c) evs) in
  let c2 := snd (run_events (s1, c) evs) in
  exists row,
    Db.executions (db s2) = Db.executions (db s) ++ [row]
    /\ Db.find_execution (execution c) (db s2) = Some row
    /\ Db.messages (db s2) = Db.messages (db s)
    /\ match settled c2 with
       | None => Db.status row = Db.StatusRunning
       | Some _ => Db.is_terminal (Db.status row) = true
       end
    /\ (existsb Props.ends evs = false -> settled c2 = None)
    /\ (existsb Props.throws evs = false -> existsb Props.ends evs = true ->
        settled c2 <> None)
    /\ (forall before msg clock' later,
          evs = before ++ Message msg clock' :: later ->
          existsb Props.ends before = false ->
          Props.ends (Message msg clock') = true ->
          Props.throws (Message msg clock') = true ->
          forallb Props.follows_report later = true ->
          settled c2 = None).
Proof.
  intros Hexec. cbv zeta.
  pose proof (execute_tracked _ _ _ _ _ _ _ _ Hexec) as H0.
  pose proof (run_events_tracked _ _ evs _ H0) as H.
  destruct (execute_pending _ _ _ _ _ _ _ _ Hexec) as [Hpending Hwaiting].
  assert (Hhang : forall before msg clock' later,
             evs = before ++ Message msg clock' :: later ->
             existsb Props.ends before = false ->
             Props.ends (Message msg clock') = true ->
             Props.throws (Message msg clock') = true ->
             forallb Props.follows_report later = true ->
             settled (snd (run_events (s1, c) evs)) = None).
  { intros before msg clock' later -> Hbefore Hev Hthrow Hlater.
    destruct (run_events_no_end before s1 c Hbefore) as [Hset _].
    unfold run_events in *. rewrite fold_left_app. cbn [fold_left].
    destruct (fold_left step before (s1, c)) as [s' c']. cbn [snd] in Hset.
    rewrite (step_throwing_report _ _ _ _ Hev Hthrow).
    pose proof (run_events_after_report later s'
                  (set_timer false (set_resultReceived true c')) Hlater eq_refl eq_refl)
      as Hkeep.
    unfold run_events in Hkeep. rewrite Hkeep. cbn [set_timer set_resultReceived settled].
    congruence. }
  pose proof (run_events_no_end evs s1 c) as Hnoend.
  pose proof (run_events_end_settles evs s1 c) as Hend.
  destruct H0 as (Hi0 & _). cbn [snd] in Hi0.
  destruct (run_events (s1, c) evs) as [s2 c2]. unfold Props.tracked in H.
  cbn [fst snd] in *.
  destruct H as (_ & _ & Hm & (r & Hrows & Hid & _ & Hrow) & _ & _).
  exists r. split; [exact Hrows|]. split.
  { unfold Db.find_execution. rewrite Hrows, Hi0.
    apply find_last_row; [apply next_id_fresh | exact Hid]. }
  split; [exact Hm|]. split.
  { destruct (settled c2); [exact Hrow | exact (proj1 Hrow)]. }
  split.
  { intros Hevs. rewrite (proj1 (Hnoend Hevs)). exact Hpending. }
  split; [|exact Hhang].
  intros Hthrow Hevs. apply Hend; assumption.
Qed.

Lemma row_status_follows_promise_witness :
  exists s1 c row,
    execute Sample.config (js "/app/mcp.js") Sample.today (Sample.clock 0) Sample.params
            (Sample.service Sample.empty_db CostTracker.new) = (s1, inl c)
    /\ Db.find_execution 1
         (db (fst (run_events (s1, c) [Spawned (js "flowmate-1");
                                       Exited (Some 1) None (Sample.clock 10)])))
       = Some row
    /\ Db.is_terminal (Db.status row) = true.
Proof.
  destruct (row_status_follows_promise Sample.config (js "/app/mcp.js") Sample.today
              (Sample.clock 0) Sample.params
              (Sample.service Sample.empty_db CostTracker.new) _ _
              [Spawned (js "flowmate-1"); Exited (Some 1) None (Sample.clock 10)] eq_refl)
    as (row & _ & Hfind & _ & Hterm & _).
  eexists _, _, row. split; [reflexivity|]. split; [exact Hfind | exact Hterm].
Defined.

(** A result message whose [tokensUsed.input] is [true] passes validation
    and cannot be bound: after it, the timeout and the exit of the worker
    change nothing, the row reads [running] and the promise is pending. *)
Lemma unbindable_result_hangs :
  let msg :=
    JObj [(js "type", JStr (js "result")); (js "text", JStr (js "done"));
          (js "costUsd", JNum (Zero false));
          (js "tokensUsed", JObj [(js "input", JBool true)]);
          (js "durationMs", JNum (Zero false))] in
  Ipc.isValidIpcMessage msg = true
  /\ option_map (fun sc => (option_map Db.status (Db.find_execution 1 (db (fst sc))),
                            settled (snd sc), Db.terminal_writes 1 (db (fst sc))))
       (Sample.after [Spawned (js "flowmate-1"); Message msg (Sample.clock 10);
                      TimerFired (Sample.clock 50);
                      Exited (Some 0) None (Sample.clock 60)])
     = Some (Some Db.StatusRunning, None, []).
Proof. cbv zeta. split; vm_compute; reflexivity. Qed.

(** *** What the daily budget sees *)




Lemma cost_cells_last d rows r range :
  Db.executions d = rows ++ [r] ->
  CostTracker.cost_cells d range
  = omap (fun r =>
            match Db.startedAt r, CostTracker.cell (Db.costUsd r) with
            | Some started, Some v =>
              if CostTracker.in_range range (Some started) then Some (started, v) else None
            | _, _ => None
            end) rows
    ++ match Db.startedAt r, CostTracker.cell (Db.costUsd r) with
       | Some started, Some v =>
         if CostTracker.in_range range (Some started) then [(started, v)] else []
       | _, _ => []
       end.
Proof.
  intros E. unfold CostTracker.cost_cells. rewrite E, omap_app. f_equal.
  rewrite omap_cons_match.
  destruct (Db.startedAt r), (CostTracker.cell (Db.costUsd r)); try reflexivity.
  destruct (CostTracker.in_range _ _); reflexivity.
Qed.



(** The message of a valid report names its text (or error message) and
    its cost. *)
Lemma valid_report msg :
  Ipc.isValidIpcMessage msg = true ->
  is_str "result" (get "type" (Some msg)) || is_str "error" (get "type" (Some msg)) = true ->
  (exists x, get "costUsd" (Some msg) = Some (JNum x))
  /\ (is_str "result" (get "type" (Some msg)) = true ->
      exists t, get "text" (Some msg) = Some (JStr t))
  /\ (is_str "result" (get "type" (Some msg)) = false ->
      exists t, get "message" (Some msg) = Some (JStr t)).
Proof.
  intros Hvalid Hkind. pose proof (is_str_result_not_progress _ Hkind) as Hprog.
  unfold Ipc.isValidIpcMessage in Hvalid.
  destruct (_ || _ || _); [discriminate|]. cbv zeta in Hvalid.
  destruct (negb (Ipc.IPC_TYPES_has _)); [discriminate|].
  rewrite Hprog in Hvalid.
  destruct (get "costUsd" (Some msg)) as [[| |x| | |]|]; try discriminate.
  split; [eauto|].
  destruct (negb _ || negb _); [discriminate|].
  destruct (negb _ || negb _); [discriminate|].
  destruct (is_str "result" _).
  - split; [intros _|discriminate].
    destruct (get "text" (Some msg)) as [[| | |t| |]|]; try discriminate. eauto.
  - split; [discriminate|intros _].
    destruct (get "message" (Some msg)) as [[| | |t| |]|]; try discriminate. eauto.
Qed.

(** The driver gives the cost the column it was meant for, when the value
    before it is one value. *)
Lemma bind_cost p q t x :
  (Db.set_resultText p = Some (JStr t) /\ Db.set_errorMessage p = None
   \/ Db.set_resultText p = None /\ Db.set_errorMessage p = Some (JStr t)) ->
  Db.set_costUsd p = Some (JNum x) ->
  Db.bind p = Some q -> Db.set_costUsd q = Some (JNum x).
Proof.
  intros Hfirst Hcost. unfold Db.bind.
  assert (Hparams : exists col rest,
             Db.parameters p = (col, JStr t) :: (Db.ColCostUsd, JNum x) :: rest
             /\ Db.Column_eqb col Db.ColCostUsd = false).
  { unfold Db.parameters, Db.columns. rewrite !omap_cons_match. cbn [Db.column].
    destruct Hfirst as [[-> ->]|[-> ->]]; rewrite Hcost; cbn [option_map];
      eexists _, _; split; reflexivity. }
  destruct Hparams as (col & rest & -> & Hcol).
  cbn [map snd fst Db.all_bound_values Db.bound_values].
  destruct (Db.all_bound_values (map snd rest)) as [ws|]; [|discriminate].
  destruct (_ <? _)%nat; [discriminate|]. destruct (_ =? _)%nat; [|discriminate].
  intros [= <-]. cbn [Db.set_costUsd app combine]. unfold Db.assigned.
  cbn [List.find fst]. rewrite Hcol. reflexivity.
Qed.

Lemma prepare_cost status msg clock p :
  Ipc.isValidIpcMessage msg = true ->
  is_str "result" (get "type" (Some msg)) || is_str "error" (get "type" (Some msg)) = true ->
  status = (if is_str "result" (get "type" (Some msg)) then Db.StatusCompleted
            else Db.StatusFailed) ->
  prepare status msg clock = inr p ->
  Db.set_costUsd p = get "costUsd" (Some msg).
Proof.
  intros Hvalid Hkind Hstatus. destruct (valid_report msg Hvalid Hkind) as ([x Hx] & Ht & Hm).
  unfold prepare, report.
  destruct (get "tokensUsed" (Some msg)) as [tokens|] eqn:Htok; [|discriminate].
  assert (Hgo : forall patch,
             (Db.set_resultText patch
              = match status with Db.StatusCompleted => get "text" (Some msg) | _ => None end) ->
             (Db.set_errorMessage patch
              = match status with Db.StatusCompleted => None | _ => get "message" (Some msg) end) ->
             Db.set_costUsd patch = get "costUsd" (Some msg) ->
             match Db.bind patch with Some bound => inr bound | None => inl BindError end
             = inr p -> Db.set_costUsd p = get "costUsd" (Some msg)).
  { intros patch Hr He Hc. destruct (Db.bind patch) as [q|] eqn:E; [|discriminate].
    intros [= <-]. rewrite Hx in *.
    destruct (is_str "result" (get "type" (Some msg))) eqn:Hres; subst status.
    - destruct (Ht eq_refl) as [t Htext]. rewrite Htext in Hr.
      apply (bind_cost patch q t x); [left; split; assumption | assumption | exact E].
    - destruct (Hm eq_refl) as [t Hmsg]. rewrite Hmsg in He.
      apply (bind_cost patch q t x); [right; split; assumption | assumption | exact E]. }
  destruct tokens; try discriminate; apply Hgo; reflexivity.
Qed.

(** No event changes the engine. *)
Lemma run_events_SUM evs : forall sc,
  Db.SUM (db (fst (run_events sc evs))) = Db.SUM (db (fst sc)).
Proof.
  induction evs as [|ev evs IH]; intros sc; [reflexivity|].
  unfold run_events in *. cbn [fold_left]. rewrite IH.
  destruct sc as [s' c']. destruct ev as [clk|m clk|code signal clk|cid|err clk];
    cbn [step snd fst].
  - destruct (timer c'); [|reflexivity]. unfold on_timeout. cbv zeta.
    destruct (negb _); [|reflexivity].
    rewrite (proj1 (settle_keeps _ _ _)).
    destruct (runnerId _) as [[|u r]|]; reflexivity.
  - unfold on_message. cbv zeta. destruct (is_null m); [reflexivity|].
    destruct (_ && _); [destruct (_ <=? _); reflexivity|].
    destruct (is_str "result" _).
    { destruct (prepare _ _ _); [reflexivity|]. cbn [fst].
      rewrite (proj1 (settle_keeps _ _ _)). reflexivity. }
    destruct (is_str "error" _); [|reflexivity].
    destruct (prepare _ _ _); [reflexivity|]. cbn [fst].
    rewrite (proj1 (settle_keeps _ _ _)). reflexivity.
  - unfold on_exit. cbv zeta. destruct (negb _); [|reflexivity].
    rewrite (proj1 (settle_keeps _ _ _)). reflexivity.
  - reflexivity.
  - unfold on_launch_failed. cbv zeta.
    rewrite (proj1 (settle_keeps _ _ _)). reflexivity.
Qed.

Lemma execute_SUM config mcpEntryPath today clock params s s1 c :
  execute config mcpEntryPath today clock params s = (s1, inl c) ->
  Db.SUM (db s1) = Db.SUM (db s).
Proof.
  unfold execute. destruct (negb _); [discriminate|].
  unfold CostTracker.reserve, Db.insert_execution. cbv zeta.
  intros [= <- _]. reflexivity.
Qed.

(** With an engine that adds the doubles in the order of the rows, the
    day's cost is the sum of the cells from 0. *)
Lemma plain_sum_all cells :
  match cells with [] => zero | c :: rest => Sample.plain_sum (c :: rest) end
  = Sample.plain_sum cells.
Proof. destruct cells; reflexivity. Qed.

(** X14. The cost a worker reports is what the daily budget sees next:
    when the first ending event of an execution is a valid result or error
    message, the cost cell of the execution holds the [costUsd] of the
    message, as the double it reads as (Infinity for a cost too large for a
    double, NULL for a NaN), if the database takes the UPDATE, and stays NULL
    if the handler throws at it. The day's cost afterwards is the engine's SUM
    over the cells there were before [execute] and this one, provided the
    execution started within the day (with an engine that adds the doubles in
    the order of the rows: the day's cost before plus the cost reported, in
    doubles); an execution whose report made the handler throw is not
    charged. *)
Theorem reported_cost_is_charged (config : FlowmateConfig.t)
    (mcpEntryPath : jsstring) (today range : jsstring * jsstring) (clock clock' : Clock)
    (params : Params) (s s1 : Service) (c : Closure) (evs : list Event) (msg : json) :
  execute config mcpEntryPath today clock params s = (s1, inl c) ->
  existsb Props.ends evs = false ->
  Props.reports_cost (Message msg clock') = true ->
  Ipc.isValidIpcMessage msg = true ->
  let after := db (fst (run_events (s1, c) (evs ++ [Message msg clock']))) in
  let charged :=
    if Props.throws (Message msg clock') then []
    else
      match CostTracker.cell (get "costUsd" (Some msg)) with
      | Some v =>
        if CostTracker.in_range range (Some (toISOString clock))
        then [(toISOString clock, v)] else []
      | None => []
      end in
  CostTracker.cost_cells after range = CostTracker.cost_cells (db s) range ++ charged
  /\ CostTracker.getDailyCost after range
     = match CostTracker.cost_cells (db s) range ++ charged with
       | [] => zero
       | cells => Db.SUM (db s) cells
       end
  /\ (Props.throws (Message msg clock') = true ->
      CostTracker.getDailyCost after range = CostTracker.getDailyCost (db s) range)
  /\ (Db.SUM (db s) = Sample.plain_sum ->
      CostTracker.getDailyCost after range
      = match charged with
        | [(_, Db.Real cost)] =>
          PrimFloat.add (CostTracker.getDailyCost (db s) range) cost
        | _ => CostTracker.getDailyCost (db s) range
        end).
Proof.
  intros Hexec Hevs Hmsg Hvalid. cbv zeta.
  pose proof (execute_tracked _ _ _ _ _ _ _ _ Hexec) as H0.
  pose proof (run_events_tracked _ _ evs _ H0) as H.
  destruct (execute_pending _ _ _ _ _ _ _ _ Hexec) as [Hpending _].
  pose proof (proj1 (run_events_no_end evs s1 c Hevs)) as Hset. rewrite Hpending in Hset.
  pose proof (run_events_SUM (evs ++ [Message msg clock']) (s1, c)) as Hsum.
  cbn [fst] in Hsum. rewrite (execute_SUM _ _ _ _ _ _ _ _ Hexec) in Hsum.
  unfold CostTracker.getDailyCost. rewrite Hsum. clear Hsum.
  unfold run_events in *. rewrite fold_left_app. cbn [fold_left].
  destruct (fold_left step evs (s1, c)) as [s2 c2]. unfold Props.tracked in H.
  cbn [fst snd] in *.
  destruct H as (Hi & _ & _ & (r & Hrows & Hid & Hstart & Hrow) & _ & _).
  rewrite Hset in Hrow. destruct Hrow as [_ Hcost].
  assert (Hcells :
            CostTracker.cost_cells (db (fst (step (s2, c2) (Message msg clock')))) range
            = CostTracker.cost_cells (db s) range
                ++ (if Props.throws (Message msg clock') then []
                    else
                      match CostTracker.cell (get "costUsd" (Some msg)) with
                      | Some v =>
                        if CostTracker.in_range range (Some (toISOString clock))
                        then [(toISOString clock, v)] else []
                      | None => []
                      end)).
  { destruct (Props.throws (Message msg clock')) eqn:Hthrow.
    - rewrite (step_throwing_report _ _ _ _ Hmsg Hthrow). cbn [fst].
      rewrite (cost_cells_last _ _ _ range Hrows), Hstart, Hcost. reflexivity.
    - assert (Hdb : exists p,
                 db (fst (step (s2, c2) (Message msg clock')))
                 = Db.update_execution (execution c2) p (db s2)
                 /\ Db.set_costUsd p = get "costUsd" (Some msg)).
      { cbn [Props.reports_cost step Props.throws] in *. unfold on_message. cbv zeta.
        destruct (is_null msg); [discriminate|].
        rewrite (is_str_result_not_progress _ Hmsg). cbn [andb].
        destruct (is_str "result" _) eqn:Hres.
        - destruct (prepare _ _ _) as [e|p] eqn:E; [discriminate|]. cbn [fst].
          rewrite (proj1 (settle_keeps _ _ _)). exists p. split; [reflexivity|].
          apply (prepare_cost Db.StatusCompleted msg clock' p Hvalid);
            [rewrite Hres; reflexivity | rewrite Hres; reflexivity | exact E].
        - cbn [orb] in Hmsg. rewrite Hmsg in *.
          destruct (prepare _ _ _) as [e|p] eqn:E; [discriminate|]. cbn [fst].
          rewrite (proj1 (settle_keeps _ _ _)). exists p. split; [reflexivity|].
          apply (prepare_cost Db.StatusFailed msg clock' p Hvalid);
            [rewrite Hres, Hmsg; reflexivity | rewrite Hres; reflexivity | exact E]. }
      destruct Hdb as (p & -> & Hp).
      rewrite (cost_cells_last _ (Db.executions (db s)) (Db.apply_patch p r) range).
      + cbn [Db.apply_patch Db.startedAt Db.costUsd]. rewrite Hstart, Hp, Hcost.
        replace (Db.or_keep (get "costUsd" (Some msg)) None) with (get "costUsd" (Some msg))
          by (destruct (get "costUsd" (Some msg)); reflexivity).
        destruct (CostTracker.cell _); [|reflexivity].
        destruct (CostTracker.in_range _ _); reflexivity.
      + rewrite Hi. apply (executions_update _ _ _ _ _ Hrows (next_id_fresh (db s)) Hid). }
  rewrite Hcells. split; [reflexivity|]. split; [reflexivity|].
  split; [intros ->; rewrite app_nil_r; reflexivity|].
  intros ->. rewrite !plain_sum_all.
  destruct (valid_report msg Hvalid Hmsg) as ([x Hx] & _). rewrite Hx.
  cbn [CostTracker.cell].
  destruct (Props.throws _); [rewrite app_nil_r; reflexivity|].
  destruct (is_nan (Double.of_number x)); [rewrite app_nil_r; reflexivity|].
  destruct (CostTracker.in_range _ _); [|rewrite app_nil_r; reflexivity].
  unfold Sample.plain_sum. rewrite fold_left_app. reflexivity.
Qed.

Lemma reported_cost_is_charged_witness :
  exists s1 c,
    execute Sample.config (js "/app/mcp.js") Sample.today (Sample.clock 0) Sample.params
            (Sample.service Sample.empty_db CostTracker.new) = (s1, inl c)
    /\ Double.toString
         (CostTracker.getDailyCost
            (db (fst (run_events (s1, c)
                        ([Spawned (js "flowmate-1")]
                           ++ [Message (Ipc.message_object Sample.result_message)
                                       (Sample.clock 10)]))))
            Sample.today)
       = js "0.0123".
Proof.
  eexists _, _. split; [reflexivity|].
  rewrite (proj1 (proj2 (reported_cost_is_charged Sample.config (js "/app/mcp.js")
                           Sample.today Sample.today (Sample.clock 0) (Sample.clock 10)
                           Sample.params
                           (Sample.service Sample.empty_db CostTracker.new) _ _
                           [Spawned (js "flowmate-1")]
                           (Ipc.message_object Sample.result_message)
                           eq_refl eq_refl eq_refl eq_refl))).
  vm_compute. reflexivity.
Defined.

(** A cost too large for a double is stored as Infinity, and the day's
    cost with it (for an engine that adds the cells up): whatever the daily
    limit, nothing remains and the next task is refused. *)
Lemma infinite_cost_exhausts_the_budget :
  let msg := Ipc.message_object
               (Ipc.IpcResultMessage (js "done") (Dec false [1%N] 401) Sample.tokens
                                     (Zero false) (Zero false)) in
  option_map (fun sc =>
                (CostTracker.getDailyCost (db (fst sc)) Sample.today,
                 CostTracker.checkBudget (db (fst sc)) Sample.today (costTracker (fst sc))
                   (Double.of_Z 10) (Some (Double.of_Z 3))))
             (Sample.after [Spawned (js "flowmate-1"); Message msg (Sample.clock 10)])
  = Some (infinity, {| CostTracker.allowed := false; CostTracker.remaining := zero |}).
Proof. cbv zeta. vm_compute. reflexivity. Qed.

(** *** The conversation log and the prompt the worker builds *)
Import Types Execution.

Lemma insert_by_createdAt_last x sorted :
  Forall (fun y => CostTracker.text_compare (Db.msg_createdAt x) (Db.msg_createdAt y) <> Lt)
         sorted ->
  ThreadManager.insert_by_createdAt x sorted = sorted ++ [x].
Proof.
  induction 1 as [|y sorted Hy _ IH]; [reflexivity|].
  cbn [ThreadManager.insert_by_createdAt app].
  destruct (CostTracker.text_compare _ _); [|contradiction|]; rewrite IH; reflexivity.
Qed.

Lemma insert_by_createdAt_In x y sorted :
  In y (ThreadManager.insert_by_createdAt x sorted) -> y = x \/ In y sorted.
Proof.
  induction sorted as [|z sorted IH]; cbn [ThreadManager.insert_by_createdAt].
  - intros [<-|[]]. left. reflexivity.
  - destruct (CostTracker.text_compare _ _); cbn [In]; intros H;
      first [destruct H as [<-|H]; [right; left; reflexivity|];
             destruct (IH H) as [->|Hin]; [left; reflexivity | right; right; exact Hin]
            |destruct H as [<-|H]; [left; reflexivity | right; exact H]].
Qed.

Lemma order_by_createdAt_In rows y :
  In y (ThreadManager.order_by_createdAt rows) -> In y rows.
Proof.
  unfold ThreadManager.order_by_createdAt.
  assert (H : forall acc, In y (fold_left (fun sorted r => ThreadManager.insert_by_createdAt r sorted)
                                          rows acc) -> In y acc \/ In y rows).
  { induction rows as [|r rows IH]; intros acc Hin; [left; exact Hin|].
    cbn [fold_left] in Hin. destruct (IH _ Hin) as [H|H].
    - destruct (insert_by_createdAt_In _ _ _ H) as [->|H'];
        [right; left; reflexivity | left; exact H'].
    - right. right. exact H. }
  intros Hin. destruct (H [] Hin) as [[]|Hrows]. exact Hrows.
Qed.

(** A row stamped no earlier than the rows there are comes last in the
    order of the stamps. *)
Lemma order_by_createdAt_last rows x :
  Forall (fun y => CostTracker.text_compare (Db.msg_createdAt x) (Db.msg_createdAt y) <> Lt)
         rows ->
  ThreadManager.order_by_createdAt (rows ++ [x]) = ThreadManager.order_by_createdAt rows ++ [x].
Proof.
  intros H. unfold ThreadManager.order_by_createdAt. rewrite fold_left_app. cbn [fold_left].
  apply insert_by_createdAt_last. apply List.Forall_forall. intros y Hy.
  rewrite List.Forall_forall in H. apply H, order_by_createdAt_In, Hy.
Qed.

Lemma history_after_save now d conv role content slackTs executionId conv' :
  (conv = conv' -> Props.not_before now d conv = true) ->
  ThreadManager.getConversationHistory
    (ThreadStore.saveMessage now d conv role content slackTs executionId) conv'
  = ThreadManager.getConversationHistory d conv'
      ++ (if bool_decide (conv = conv')
          then [{| Types.role := role; Types.content := content |}] else []).
Proof.
  intros Hnow. unfold ThreadManager.getConversationHistory, ThreadStore.saveMessage.
  cbn [Db.messages]. rewrite filter_app.
  rewrite filter_cons, filter_nil. cbn [Db.msg_conversationId].
  destruct (decide (conv = conv')) as [E|E].
  - rewrite bool_decide_eq_true_2 by exact E.
    rewrite order_by_createdAt_last; [rewrite map_app; reflexivity|].
    cbn [Db.msg_createdAt]. specialize (Hnow E). subst conv'.
    unfold Props.not_before in Hnow. rewrite forallb_forall in Hnow.
    apply List.Forall_forall. intros y Hy.
    apply list_elem_of_In, list_elem_of_filter in Hy as [Hconv Hy].
    apply list_elem_of_In in Hy. specialize (Hnow y Hy).
    rewrite Hconv, Z.eqb_refl in Hnow. cbn [negb orb] in Hnow.
    destruct (CostTracker.text_compare _ _); [discriminate | discriminate | discriminate].
  - rewrite bool_decide_eq_false_2 by exact E. rewrite !app_nil_r. reflexivity.
Qed.

(** X15. A message saved when the clock reads no earlier than the stamps
    of the messages of its conversation is read back as the last message of
    that conversation, with the role and content it was saved with, after the
    messages that were there; the history of every other conversation, and the
    executions table, are as before. *)
Theorem saved_message_is_read_back_last (d : Db.FlowmateDb) (conv other : Z)
    (role : Db.MessageRole) (content : jsstring) (slackTs : option jsstring)
    (executionId : option Z) (now : jsstring) :
  conv <> other ->
  Props.not_before now d conv = true ->
  let d' := ThreadStore.saveMessage now d conv role content slackTs executionId in
  ThreadManager.getConversationHistory d' conv
  = ThreadManager.getConversationHistory d conv
      ++ [{| Types.role := role; Types.content := content |}]
  /\ ThreadManager.getConversationHistory d' other
     = ThreadManager.getConversationHistory d other
  /\ Db.executions d' = Db.executions d.
Proof.
  intros Hne Hnow. cbv zeta.
  rewrite !history_after_save by (first [intros _; exact Hnow | intros E; contradiction]).
  rewrite bool_decide_eq_true_2 by reflexivity.
  rewrite bool_decide_eq_false_2 by exact Hne.
  rewrite app_nil_r. repeat split.
Qed.

Lemma saved_message_is_read_back_last_witness :
  ThreadManager.getConversationHistory
    (ThreadStore.saveMessage (Sample.minute 3) (Sample.history_db 2) 1 Db.RoleAssistant
                             (js "done") None (Some 4)) 1
  = ThreadManager.getConversationHistory (Sample.history_db 2) 1
      ++ [{| Types.role := Db.RoleAssistant; Types.content := js "done" |}].
Proof.
  destruct (saved_message_is_read_back_last (Sample.history_db 2) 1 2 Db.RoleAssistant
              (js "done") None (Some 4) (Sample.minute 3)) as [H _].
  - discriminate.
  - vm_compute. reflexivity.
  - exact H.
Defined.

(** The history is in the order of the stamps, not of the saving: a
    message saved after the clock was set back is read before the messages
    saved earlier. *)
Lemma message_saved_after_clock_set_back :
  map Types.content
      (ThreadManager.getConversationHistory
         (ThreadStore.saveMessage (Sample.minute 0) (Sample.history_db 2) 1 Db.RoleUser
                                  (js "new") None None) 1)
  = [js "new"; js "1"; js "2"].
Proof. vm_compute. reflexivity. Qed.





(** What [execute] hands to the backend. *)
Lemma execute_task_config config mcpEntryPath today clock params s s1 c :
  execute config mcpEntryPath today clock params s = (s1, inl c) ->
  exists tc,
    runner s1 = runner s ++ [CallRun tc]
    /\ TaskConfig.executionId tc = execution c
    /\ TaskConfig.prompt tc = prompt params
    /\ TaskConfig.conversationMessages tc
       = truncateHistory
           (ThreadManager.getConversationHistory (db s) (ThreadManager.id (conversation params)))
           (FlowmateConfig.maxHistoryMessages (FlowmateConfig.limits config))
    /\ TaskConfig.mcpServers tc
       = with_flowmate (FlowmateConfig.mcpServers config)
           {| command := js "node";
              args := [ArgText mcpEntryPath;
                       ArgText (js "--db"); ArgText (FlowmateConfig.database_path config);
                       ArgText (js "--budget");
                       ArgAmount (FlowmateConfig.dailyBudgetLimit (FlowmateConfig.limits config));
                       ArgText (js "--timezone"); ArgText (FlowmateConfig.timezone config)] |}.
Proof.
  unfold execute. destruct (negb _); [discriminate|].
  unfold CostTracker.reserve, Db.insert_execution. cbv zeta.
  intros [= <- <-]. eexists. split; [reflexivity|]. repeat split.
Qed.



(** When the clock was set back before the save, the saved message is
    not the last of the history: the worker leaves out the message that is,
    and shows the request twice. *)
Lemma prompt_after_clock_set_back :
  let saved :=
    with_db (ThreadStore.saveMessage (Sample.minute 0) (Sample.history_db 2) 1 Db.RoleUser
               (js "hello") None None)
            (Sample.service (Sample.history_db 2) CostTracker.new) in
  option_map RunnerProcess.buildContextPrompt
    (match runner (fst (execute Sample.config (js "/app/mcp.js") Sample.today (Sample.clock 0)
                          Sample.params saved)) with
     | [CallRun tc] => Some tc
     | _ => None
     end)
  = Some (js "Previous conversation:" ++ [10%N] ++ js "User: hello" ++ [10; 10]%N
            ++ js "User: 1" ++ [10; 10]%N ++ js "---" ++ [10%N]
            ++ js "Current request:" ++ [10%N] ++ js "hello").
Proof. cbv zeta. vm_compute. reflexivity. Qed.



(** *** The command line of the built-in MCP server *)

Lemma slice_literal_prefix (p s : jsstring) (k : Z) :
  k = Z.of_nat (length p) -> slice k (p ++ s) = s.
Proof. intros ->. apply slice_prefix. Qed.

Lemma parseArgs_from_command_line settings : forall acc,
  McpServer.parseArgs_from (Props.command_line settings) acc
  = fold_left (fun a kv => McpServer.set_arg a (fst kv) (snd kv)) settings acc.
Proof.
  induction settings as [|[k v] settings IH]; intros acc; [reflexivity|].
  unfold Props.command_line in *. cbn [map concat fst snd app McpServer.parseArgs_from fold_left].
  rewrite startsWith_app, (slice_literal_prefix (js "--") k 2) by reflexivity.
  apply IH.
Qed.

Lemma parseArgs_from_lone_flag settings flag : forall acc,
  McpServer.parseArgs_from (Props.command_line settings ++ [flag]) acc
  = McpServer.parseArgs_from (Props.command_line settings) acc.
Proof.
  induction settings as [|[k v] settings IH]; intros acc; [reflexivity|].
  unfold Props.command_line in *. cbn [map concat fst snd app McpServer.parseArgs_from].
  rewrite startsWith_app. apply IH.
Qed.

Lemma assign_new args k v :
  ~ In k (map fst args) -> McpServer.assign args k v = args ++ [(k, v)].
Proof.
  induction args as [|[k' v'] args IH]; intros Hk; [reflexivity|].
  cbn [McpServer.assign app]. unfold jsstring_eqb.
  rewrite bool_decide_eq_false_2 by (intros ->; apply Hk; left; reflexivity).
  rewrite IH; [reflexivity|]. intros Hin. apply Hk. right. exact Hin.
Qed.

Lemma fold_set_arg settings : forall acc,
  List.NoDup (map fst acc ++ map fst settings) ->
  ~ In (js "__proto__") (map fst settings) ->
  fold_left (fun a kv => McpServer.set_arg a (fst kv) (snd kv)) settings acc
  = acc ++ settings.
Proof.
  induction settings as [|[k v] settings IH]; intros acc Hnd Hproto;
    [symmetry; apply app_nil_r|].
  cbn [fold_left fst snd map] in *. unfold McpServer.set_arg, jsstring_eqb.
  rewrite bool_decide_eq_false_2 by (intros ->; apply Hproto; left; reflexivity).
  rewrite assign_new.
  - rewrite IH.
    + rewrite <- app_assoc. reflexivity.
    + rewrite map_app. cbn [map fst]. rewrite <- app_assoc. exact Hnd.
    + intros Hin. apply Hproto. right. exact Hin.
  - intros Hin. apply List.NoDup_remove_2 in Hnd. apply Hnd.
    apply in_or_app. left. exact Hin.
Qed.

(** X18. [parseArgs] reads back a command line of [--key value] pairs
    with distinct keys: it returns an object with exactly these keys, each
    with its value, whatever the values are (a value that itself begins with
    two dashes is still a value), and a last flag without a value is
    ignored. *)
Theorem parseArgs_reads_command_line (settings : list (jsstring * jsstring))
    (flag : jsstring) :
  List.NoDup (map fst settings) ->
  ~ In (js "__proto__") (map fst settings) ->
  McpServer.parseArgs (Props.command_line settings) = settings
  /\ McpServer.parseArgs (Props.command_line settings ++ [flag]) = settings.
Proof.
  intros Hnd Hproto. unfold McpServer.parseArgs.
  rewrite parseArgs_from_lone_flag, parseArgs_from_command_line.
  rewrite (fold_set_arg settings [] Hnd Hproto). split; reflexivity.
Qed.

Lemma parseArgs_reads_command_line_witness :
  McpServer.parseArgs [js "--db"; js "--data--"; js "--budget"; js "50"; js "--verbose"]
  = [(js "db", js "--data--"); (js "budget", js "50")].
Proof.
  refine (proj2 (parseArgs_reads_command_line
                   [(js "db", js "--data--"); (js "budget", js "50")] (js "--verbose") _ _)).
  - repeat constructor; cbn; intuition discriminate.
  - cbn. intuition discriminate.
Defined.

Lemma find_server_with_flowmate servers entry :
  McpServer.find_server (js "flowmate") (with_flowmate servers entry) = Some entry.
Proof.
  induction servers as [|[k v] servers IH]; [reflexivity|].
  cbn [with_flowmate]. destruct (jsstring_eqb k (js "flowmate")) eqn:E;
    cbn [McpServer.find_server]; rewrite E; [reflexivity | exact IH].
Qed.

(** X19. The built-in MCP server that [execute] adds to the task
    configuration reads from its command line exactly the settings of the
    orchestrator: the database path, the daily budget limit as text and the
    time zone; whatever servers the configuration lists, also one that is
    itself called [flowmate], the entry under that name is the built-in
    one. ([show] is the text of a number; the server sees the arguments after
    the script path.) *)
Theorem flowmate_server_reads_orchestrator_settings (config : FlowmateConfig.t)
    (mcpEntryPath : jsstring) (today : jsstring * jsstring) (clock : Clock)
    (params : Params) (s s1 : Service) (c : Closure) (show : float -> jsstring) :
  execute config mcpEntryPath today clock params s = (s1, inl c) ->
  exists tc entry,
    runner s1 = runner s ++ [CallRun tc]
    /\ McpServer.find_server (js "flowmate") (TaskConfig.mcpServers tc) = Some entry
    /\ McpServer.parseArgs (McpServer.server_argv show entry)
       = [(js "db", FlowmateConfig.database_path config);
          (js "budget",
           show (FlowmateConfig.dailyBudgetLimit (FlowmateConfig.limits config)));
          (js "timezone", FlowmateConfig.timezone config)]
    /\ McpServer.arg (js "db") (McpServer.parseArgs (McpServer.server_argv show entry))
       = Some (FlowmateConfig.database_path config).
Proof.
  intros Hexec.
  destruct (execute_task_config _ _ _ _ _ _ _ _ Hexec) as (tc & Hrun & _ & _ & _ & Hmcp).
  eexists tc, _. split; [exact Hrun|]. split.
  { rewrite Hmcp. apply find_server_with_flowmate. }
  assert (H : McpServer.parseArgs
                (McpServer.server_argv show
                   {| command := js "node";
                      args := [ArgText mcpEntryPath;
                               ArgText (js "--db"); ArgText (FlowmateConfig.database_path config);
                               ArgText (js "--budget");
                               ArgAmount (FlowmateConfig.dailyBudgetLimit
                                            (FlowmateConfig.limits config));
                               ArgText (js "--timezone");
                               ArgText (FlowmateConfig.timezone config)] |})
              = [(js "db", FlowmateConfig.database_path config);
                 (js "budget",
                  show (FlowmateConfig.dailyBudgetLimit (FlowmateConfig.limits config)));
                 (js "timezone", FlowmateConfig.timezone config)]).
  { change (McpServer.server_argv show _)
      with (Props.command_line
              [(js "db", FlowmateConfig.database_path config);
               (js "budget",
                show (FlowmateConfig.dailyBudgetLimit (FlowmateConfig.limits config)));
               (js "timezone", FlowmateConfig.timezone config)]).
    unfold McpServer.parseArgs. rewrite parseArgs_from_command_line.
    apply (fold_set_arg _ []).
    - repeat constructor; cbn; intuition discriminate.
    - cbn. intuition discriminate. }
  rewrite H. split; reflexivity.
Qed.

Lemma flowmate_server_reads_orchestrator_settings_witness :
  exists s1 c tc entry,
    execute Sample.config (js "/app/mcp.js") Sample.today (Sample.clock 0) Sample.params
            (Sample.service Sample.empty_db CostTracker.new) = (s1, inl c)
    /\ runner s1 = [CallRun tc]
    /\ McpServer.find_server (js "flowmate") (TaskConfig.mcpServers tc) = Some entry
    /\ McpServer.arg (js "db")
         (McpServer.parseArgs (McpServer.server_argv Double.toString entry))
       = Some (js "/data/flowmate.db").
Proof.
  destruct (flowmate_server_reads_orchestrator_settings Sample.config (js "/app/mcp.js")
              Sample.today (Sample.clock 0) Sample.params
              (Sample.service Sample.empty_db CostTracker.new) _ _ Double.toString eq_refl)
    as (tc & entry & Hrun & Hfind & _ & Harg).
  eexists _, _, tc, entry. split; [reflexivity|].
  split; [exact Hrun|]. split; [exact Hfind | exact Harg].
Defined.

(** *** Conversations *)

Lemma same_thread_refl r : ThreadStore.same_thread (ThreadStore.channelId r) (ThreadStore.threadTs r) r = true.
Proof.
  unfold ThreadStore.same_thread, jsstring_eqb.
  rewrite !bool_decide_eq_true_2 by reflexivity. reflexivity.
Qed.

Lemma same_thread_sym r r' :
  ThreadStore.same_thread (ThreadStore.channelId r) (ThreadStore.threadTs r) r'
  = ThreadStore.same_thread (ThreadStore.channelId r') (ThreadStore.threadTs r') r.
Proof.
  unfold ThreadStore.same_thread, jsstring_eqb.
  destruct (decide (ThreadStore.channelId r' = ThreadStore.channelId r)) as [E|E];
    destruct (decide (ThreadStore.threadTs r' = ThreadStore.threadTs r)) as [E'|E'].
  - rewrite !bool_decide_eq_true_2 by congruence. reflexivity.
  - rewrite (bool_decide_eq_false_2 (ThreadStore.threadTs r' = _)) by congruence.
    rewrite (bool_decide_eq_false_2 (ThreadStore.threadTs r = _)) by congruence.
    rewrite !andb_false_r. reflexivity.
  - rewrite (bool_decide_eq_false_2 (ThreadStore.channelId r' = _)) by congruence.
    rewrite (bool_decide_eq_false_2 (ThreadStore.channelId r = _)) by congruence.
    reflexivity.
  - rewrite (bool_decide_eq_false_2 (ThreadStore.channelId r' = _)) by congruence.
    rewrite (bool_decide_eq_false_2 (ThreadStore.channelId r = _)) by congruence.
    reflexivity.
Qed.

Lemma find_none_existsb {A} (f : A -> bool) l : List.find f l = None -> existsb f l = false.
Proof.
  induction l as [|x l IH]; [reflexivity|]. cbn [List.find existsb].
  destruct (f x); [discriminate | exact IH].
Qed.

Lemma find_app_new {A} (f : A -> bool) l x :
  List.find f l = None -> f x = true -> List.find f (l ++ [x]) = Some x.
Proof.
  induction l as [|y l IH]; cbn [List.find app]; intros Hl Hx.
  - rewrite Hx. reflexivity.
  - destruct (f y); [discriminate | exact (IH Hl Hx)].
Qed.

Lemma unique_threads_app table r :
  ThreadStore.unique_threads table = true ->
  existsb (ThreadStore.same_thread (ThreadStore.channelId r) (ThreadStore.threadTs r)) table
  = false ->
  ThreadStore.unique_threads (table ++ [r]) = true.
Proof.
  induction table as [|x table IH]; intros Hu Hr; [reflexivity|].
  cbn [ThreadStore.unique_threads existsb app] in *.
  apply andb_true_iff in Hu as [Hx Hu]. apply orb_false_iff in Hr as [Hrx Hr].
  rewrite (IH Hu Hr), andb_true_r, existsb_app. cbn [existsb].
  apply negb_true_iff in Hx. rewrite Hx, orb_false_r, same_thread_sym, Hrx. reflexivity.
Qed.

(** X20. [getOrCreateConversation] is idempotent on a thread: a second
    call for the same channel and thread returns the conversation the first
    call returned and adds no row, whichever user makes it (a thread stays
    with the user who opened it); the first call leaves every existing row in
    place and adds at most one; and a table without two rows for one thread
    stays so. *)
Theorem getOrCreateConversation_is_idempotent (table : list ThreadStore.ConversationRow)
    (now now' channel thread user user' : jsstring) :
  let first := ThreadStore.getOrCreateConversation table now channel thread user in
  let second := ThreadStore.getOrCreateConversation (fst first) now' channel thread user' in
  second = first
  /\ ThreadManager.channelId (snd first) = channel
  /\ ThreadManager.threadTs (snd first) = thread
  /\ (fst first = table \/ exists row, fst first = table ++ [row])
  /\ (ThreadStore.unique_threads table = true ->
      ThreadStore.unique_threads (fst first) = true).
Proof.
  cbv zeta. unfold ThreadStore.getOrCreateConversation.
  destruct (List.find (ThreadStore.same_thread channel thread) table) as [existing|] eqn:E.
  - cbn [fst snd]. rewrite E. split; [reflexivity|].
    apply find_some in E as [_ E]. unfold ThreadStore.same_thread, jsstring_eqb in E.
    apply andb_true_iff in E as [E1 E2].
    apply bool_decide_eq_true in E1, E2.
    split; [exact E1|]. split; [exact E2|]. split; [left; reflexivity|]. intros H. exact H.
  - cbn [fst snd ThreadStore.conversation_of ThreadStore.channelId ThreadStore.threadTs
         ThreadManager.channelId ThreadManager.threadTs].
    set (row := {| ThreadStore.id := _ |}).
    assert (Hrow : ThreadStore.same_thread channel thread row = true)
      by exact (same_thread_refl row).
    rewrite (find_app_new _ table row E Hrow).
    split; [reflexivity|]. split; [reflexivity|]. split; [reflexivity|].
    split; [right; exists row; reflexivity|].
    intros Hu. apply (unique_threads_app table row Hu). exact (find_none_existsb _ _ E).
Qed.

Lemma getOrCreateConversation_is_idempotent_witness :
  let first := ThreadStore.getOrCreateConversation [] (js "2026-01-01 00:00:00") (js "dev-cli")
                 (js "1.0") (js "U1") in
  ThreadStore.unique_threads (fst first) = true.
Proof.
  cbv zeta.
  destruct (getOrCreateConversation_is_idempotent [] (js "2026-01-01 00:00:00")
              (js "2026-01-02 00:00:00") (js "dev-cli") (js "1.0") (js "U1") (js "U2"))
    as (_ & _ & _ & _ & H).
  apply H. reflexivity.
Defined.

(** *** Shutdown *)

Lemma insert_by_id_In e l x : In x (Shutdown.insert_by_id e l) <-> x = e \/ In x l.
Proof.
  induction l as [|y l IH]; cbn [Shutdown.insert_by_id].
  - cbn. intuition.
  - destruct (_ <=? _); cbn [In]; [intuition|]. rewrite IH. intuition.
Qed.

Lemma in_flight_In s e : In e (Shutdown.in_flight s) <-> activeExecutions s !! fst e = Some (snd e).
Proof.
  unfold Shutdown.in_flight. destruct e as [i v]. cbn [fst snd].
  rewrite <- elem_of_map_to_list, list_elem_of_In.
  induction (map_to_list (activeExecutions s)) as [|x l IH]; [reflexivity|].
  cbn [fold_right]. rewrite insert_by_id_In, IH. cbn [In]. intuition.
Qed.

Lemma fold_kill kills : forall s,
  fold_left (fun acc r => with_runner_call (CallKill r) acc) kills s
  = {| db := db s; costTracker := costTracker s; activeExecutions := activeExecutions s;
       runner := runner s ++ map CallKill kills |}.
Proof.
  induction kills as [|k kills IH]; intros s.
  - cbn [fold_left map]. rewrite app_nil_r. destruct s; reflexivity.
  - cbn [fold_left map]. rewrite IH. cbn [db costTracker activeExecutions runner with_runner_call].
    rewrite <- app_assoc. reflexivity.
Qed.

(** X21. [drain] does nothing when no execution is in flight, and
    nothing of its own when the executions finish before its timer. When the
    timer wins, it asks the backend to kill the runner of every entry then in
    flight that holds a runner id, and of no other: an execution whose worker
    has not yet reported its id is not killed. It changes nothing else: the
    entries stay in the map and no row is written. *)
Theorem drain_kills_in_flight_runners (s s' : Service) :
  (Shutdown.activeCount s = 0%nat ->
   forall race, Shutdown.drain s race = s)
  /\ (Shutdown.activeCount s <> 0%nat ->
      Shutdown.drain s (Shutdown.AllSettled s') = s'
      /\ exists kills,
           Shutdown.drain s (Shutdown.TimedOut s')
           = {| db := db s'; costTracker := costTracker s';
                activeExecutions := activeExecutions s';
                runner := runner s' ++ map CallKill kills |}
           /\ forall r, In r kills
                        <-> r <> [] /\ exists i, activeExecutions s' !! i = Some (Some r)).
Proof.
  split.
  - intros H race. unfold Shutdown.drain. rewrite bool_decide_eq_true_2 by exact H.
    reflexivity.
  - intros H. unfold Shutdown.drain. rewrite bool_decide_eq_false_2 by exact H.
    split; [reflexivity|].
    exists (omap Shutdown.runner_of (Shutdown.in_flight s')). split.
    + unfold Shutdown.drain_timed_out. apply fold_kill.
    + intros r. rewrite <- list_elem_of_In, list_elem_of_omap. split.
      * intros ([i v] & Hin & Hr). apply list_elem_of_In, in_flight_In in Hin.
        cbn [fst snd] in Hin. unfold Shutdown.runner_of in Hr. cbn [snd] in Hr.
        destruct v as [[|u t]|]; try discriminate. injection Hr as <-.
        split; [discriminate|]. exists i. exact Hin.
      * intros (Hne & i & Hi). exists (i, Some r). split.
        -- apply list_elem_of_In, in_flight_In. exact Hi.
        -- unfold Shutdown.runner_of. cbn [snd]. destruct r; [contradiction|reflexivity].
Qed.

(** *** The age of a container *)
Import ContainerCleanup.

Lemma match_here_not_digit w s :
  match s with [] => True | c :: _ => is_digit c = false end -> match_here w s = None.
Proof.
  intros H. unfold match_here. destruct s as [|c rest]; [reflexivity|].
  cbn [span_digits]. rewrite H. reflexivity.
Qed.

Lemma match_unit_no_digit w s : Props.no_digit s = true -> match_unit w s = None.
Proof.
  unfold Props.no_digit. induction s as [|c s IH]; [reflexivity|].
  cbn [forallb match_unit]. intros H. apply andb_true_iff in H as [Hc Hs].
  apply negb_true_iff in Hc.
  rewrite (match_here_not_digit w (c :: s)) by exact Hc. exact (IH Hs).
Qed.

Lemma occurs_tail w c s : Props.occurs w (c :: s) = false -> Props.occurs w s = false.
Proof. cbn [Props.occurs]. intros H. apply orb_false_iff in H as [_ H]. exact H. Qed.

Lemma occurs_head w s : Props.occurs w s = false -> startsWith w s = false.
Proof. destruct s; cbn [Props.occurs]; intros H; apply orb_false_iff in H as [H _]; exact H. Qed.

Lemma occurs_trimStart w s : Props.occurs w s = false -> Props.occurs w (trimStart s) = false.
Proof.
  induction s as [|c s IH]; [intros H; exact H|]. intros H. cbn [trimStart].
  destruct (is_trim_space c); [exact (IH (occurs_tail _ _ _ H)) | exact H].
Qed.

Lemma occurs_span_digits w s :
  Props.occurs w s = false -> Props.occurs w (snd (span_digits s)) = false.
Proof.
  induction s as [|c s IH]; [intros H; exact H|]. intros H. cbn [span_digits].
  destruct (is_digit c); [|exact H].
  specialize (IH (occurs_tail _ _ _ H)). destruct (span_digits s). exact IH.
Qed.

Lemma match_unit_no_word w s : Props.occurs w s = false -> match_unit w s = None.
Proof.
  induction s as [|c s IH]; [reflexivity|]. intros H. cbn [match_unit].
  rewrite (IH (occurs_tail _ _ _ H)).
  unfold match_here.
  pose proof (occurs_span_digits w (c :: s) H) as Hrest.
  destruct (span_digits (c :: s)) as [[|d ds] rest]; [reflexivity|]. cbn [snd] in Hrest.
  rewrite (occurs_head _ _ (occurs_trimStart _ _ Hrest)). reflexivity.
Qed.

(** *** The listing *)

Lemma split_no_sep sep s : forallb (fun c => negb (c =? sep)%N) s = true -> split sep s = [s].
Proof.
  induction s as [|c s IH]; [reflexivity|]. cbn [forallb split]. intros H.
  apply andb_true_iff in H as [Hc Hs]. apply negb_true_iff in Hc.
  rewrite Hc, (IH Hs). reflexivity.
Qed.

Lemma split_app sep a b :
  forallb (fun c => negb (c =? sep)%N) a = true ->
  split sep (a ++ sep :: b) = a :: split sep b.
Proof.
  induction a as [|c a IH]; cbn [forallb split app]; intros H.
  - rewrite N.eqb_refl. reflexivity.
  - apply andb_true_iff in H as [Hc Ha]. apply negb_true_iff in Hc.
    rewrite Hc, (IH Ha). reflexivity.
Qed.

Lemma clean_field_parts f :
  Props.clean_field f = true ->
  (exists c t, f = c :: t /\ is_trim_space c = false)
  /\ (exists t d, f = t ++ [d] /\ is_trim_space d = false)
  /\ forallb (fun c => negb (c =? 9)%N) f = true
  /\ forallb (fun c => negb (c =? 10)%N) f = true.
Proof.
  unfold Props.clean_field. intros H.
  apply andb_true_iff in H as [H Hall]. apply andb_true_iff in H as [Hhead Hlast].
  destruct f as [|c t]; [discriminate|].
  apply negb_true_iff in Hhead, Hlast.
  split; [exists c, t; split; [reflexivity | exact Hhead]|]. split.
  - destruct (exists_last (l := c :: t)) as (t' & d & E); [discriminate|].
    exists t', d. split; [exact E|]. rewrite E, last_last in Hlast. exact Hlast.
  - rewrite forallb_forall in Hall. split; apply forallb_forall; intros x Hx;
      specialize (Hall x Hx); apply andb_true_iff in Hall as [H9 H10]; assumption.
Qed.

Lemma split_listing_line id name age :
  Props.clean_field id = true -> Props.clean_field name = true ->
  Props.clean_field age = true ->
  split 9 (listing_line id name age) = [id; name; age].
Proof.
  intros Hid Hname Hage.
  destruct (clean_field_parts _ Hid) as (_ & _ & Hid9 & _).
  destruct (clean_field_parts _ Hname) as (_ & _ & Hname9 & _).
  destruct (clean_field_parts _ Hage) as (_ & _ & Hage9 & _).
  unfold listing_line. cbn [app].
  rewrite (split_app 9 id _ Hid9), (split_app 9 name _ Hname9), (split_no_sep 9 age Hage9).
  reflexivity.
Qed.

Lemma stale_container_line maxAgeMs r :
  Props.clean_row r = true ->
  stale_container maxAgeMs (Props.line_of r)
  = if maxAgeMs <? Z.of_N (parseRunningFor (Props.listed_age r))
    then Some (Props.listed_name r) else None.
Proof.
  unfold Props.clean_row. intros H.
  apply andb_true_iff in H as [H Hage]. apply andb_true_iff in H as [Hid Hname].
  unfold stale_container, Props.line_of. rewrite (split_listing_line _ _ _ Hid Hname Hage).
  destruct (clean_field_parts _ Hid) as ((c & t & E & _) & _).
  rewrite E. reflexivity.
Qed.

Lemma listing_join l ls :
  concat (map (fun x : jsstring => x ++ [10%N]) (l :: ls)) = Props.join_lines (l :: ls) ++ [10%N].
Proof.
  revert l. induction ls as [|l' ls IH]; intros l.
  - cbn [map concat Props.join_lines]. rewrite !app_nil_r. reflexivity.
  - change (concat (map (fun x : jsstring => x ++ [10%N]) (l :: l' :: ls)))
      with ((l ++ [10%N]) ++ concat (map (fun x : jsstring => x ++ [10%N]) (l' :: ls))).
    rewrite IH. cbn [Props.join_lines map concat]. rewrite <- !app_assoc. reflexivity.
Qed.

Lemma split_join l ls :
  Forall (fun x => forallb (fun c => negb (c =? 10)%N) x = true) (l :: ls) ->
  split 10 (Props.join_lines (l :: ls)) = l :: ls.
Proof.
  revert l. induction ls as [|l' ls IH]; intros l H.
  - cbn [Props.join_lines map concat]. rewrite app_nil_r. apply split_no_sep.
    apply List.Forall_inv in H. exact H.
  - change (Props.join_lines (l :: l' :: ls)) with (l ++ 10%N :: Props.join_lines (l' :: ls)).
    rewrite split_app by (apply List.Forall_inv in H; exact H).
    rewrite IH by (apply List.Forall_inv_tail in H; exact H). reflexivity.
Qed.

Lemma last_cons_default {A} (l : list A) : forall x d, List.last (x :: l) d = List.last l x.
Proof.
  induction l as [|y l IH]; intros x d; [reflexivity|].
  change (List.last (x :: y :: l) d) with (List.last (y :: l) d).
  rewrite !IH. reflexivity.
Qed.

Lemma last_map {A B} (f : A -> B) (l : list A) : forall d,
  List.last (map f l) (f d) = f (List.last l d).
Proof.
  induction l as [|y l IH]; intros d; [reflexivity|].
  cbn [map]. rewrite !last_cons_default. apply IH.
Qed.

Lemma join_last l ls d t :
  List.last ls l = t ++ [d] -> exists t', Props.join_lines (l :: ls) = t' ++ [d].
Proof.
  revert l. induction ls as [|l' ls IH]; intros l H.
  - cbn [List.last] in H. exists t. cbn [Props.join_lines map concat].
    rewrite app_nil_r. exact H.
  - rewrite last_cons_default in H.
    destruct (IH l' H) as (t' & E).
    exists (l ++ 10%N :: t').
    change (Props.join_lines (l :: l' :: ls)) with (l ++ 10%N :: Props.join_lines (l' :: ls)).
    rewrite E, <- app_assoc. reflexivity.
Qed.

Lemma trim_clean c t t' d ws :
  c :: t = t' ++ [d] -> is_trim_space c = false -> is_trim_space d = false ->
  forallb is_trim_space ws = true ->
  trim ((c :: t) ++ ws) = c :: t.
Proof.
  intros E Hc Hd Hws.
  rewrite <- (trim_spaces [] ((c :: t) ++ ws) [] eq_refl eq_refl).
  cbn [app]. rewrite app_nil_r.
  change (c :: t ++ ws) with ([] ++ (c :: t) ++ ws).
  rewrite (trim_spaces [] (c :: t) ws eq_refl Hws).
  unfold trim. rewrite trimStart_head by exact Hc.
  rewrite E, rev_app_distr. cbn [rev app]. rewrite trimStart_head by exact Hd.
  change (d :: rev t') with (rev [d] ++ rev t'). rewrite <- rev_app_distr, rev_involutive.
  reflexivity.
Qed.

Lemma line_of_clean r :
  Props.clean_row r = true ->
  forallb (fun c => negb (c =? 10)%N) (Props.line_of r) = true
  /\ (exists c t, Props.line_of r = c :: t /\ is_trim_space c = false)
  /\ (exists t d, Props.line_of r = t ++ [d] /\ is_trim_space d = false).
Proof.
  unfold Props.clean_row. intros H.
  apply andb_true_iff in H as [H Hage]. apply andb_true_iff in H as [Hid Hname].
  destruct (clean_field_parts _ Hid) as ((c & t & Eid & Hc) & _ & _ & Hid10).
  destruct (clean_field_parts _ Hname) as (_ & _ & _ & Hname10).
  destruct (clean_field_parts _ Hage) as (_ & (t' & d & Eage & Hd) & _ & Hage10).
  unfold Props.line_of, listing_line. split; [|split].
  - rewrite !forallb_app, Hid10, Hname10, Hage10. reflexivity.
  - rewrite Eid. exists c. eexists. split; [reflexivity | exact Hc].
  - rewrite Eage. exists (Props.listed_id r ++ [9%N] ++ Props.listed_name r ++ [9%N] ++ t'), d.
    split; [rewrite <- !app_assoc; reflexivity | exact Hd].
Qed.

Lemma lines_of_listing rows :
  forallb Props.clean_row rows = true ->
  rows <> [] ->
  split 10 (trim (Props.listing rows)) = map Props.line_of rows.
Proof.
  intros Hrows Hne. destruct rows as [|r rs]; [contradiction|].
  unfold Props.listing. rewrite <- (map_map Props.line_of (fun x => x ++ [10%N])).
  change (map Props.line_of (r :: rs)) with (Props.line_of r :: map Props.line_of rs).
  rewrite listing_join.
  assert (Hall : Forall (fun x => forallb (fun c => negb (c =? 10)%N) x = true)
                        (Props.line_of r :: map Props.line_of rs)).
  { change (Props.line_of r :: map Props.line_of rs) with (map Props.line_of (r :: rs)).
    apply List.Forall_forall. intros x Hx. apply in_map_iff in Hx as (y & <- & Hy).
    rewrite forallb_forall in Hrows. exact (proj1 (line_of_clean y (Hrows y Hy))). }
  assert (Hhead : exists c t, Props.join_lines (Props.line_of r :: map Props.line_of rs) = c :: t
                              /\ is_trim_space c = false).
  { cbn [forallb] in Hrows. apply andb_true_iff in Hrows as [Hr _].
    destruct (line_of_clean r Hr) as (_ & (c & t & E & Hc) & _).
    exists c. eexists. cbn [Props.join_lines]. rewrite E. cbn [app].
    split; [reflexivity | exact Hc]. }
  assert (Hlast : exists t d, Props.join_lines (Props.line_of r :: map Props.line_of rs) = t ++ [d]
                              /\ is_trim_space d = false).
  { assert (Hin : In (List.last (r :: rs) r) (r :: rs)).
    { destruct (exists_last (l := r :: rs)) as (l' & x & E); [discriminate|].
      rewrite E, last_last. apply in_or_app. right. left. reflexivity. }
    rewrite forallb_forall in Hrows.
    destruct (line_of_clean _ (Hrows _ Hin)) as (_ & _ & (t & d & E & Hd)).
    destruct (join_last (Props.line_of r) (map Props.line_of rs) d t) as (t' & E').
    - rewrite <- E, last_cons_default. apply last_map.
    - exists t', d. split; [exact E' | exact Hd]. }
  destruct Hhead as (c & t & E & Hc). destruct Hlast as (t' & d & E' & Hd).
  change (map Props.line_of (r :: rs)) with (Props.line_of r :: map Props.line_of rs).
  etransitivity; [|exact (split_join _ _ Hall)]. f_equal.
  rewrite E in E'. etransitivity; [|symmetry; exact E].
  rewrite E. apply (trim_clean c t t' d [10%N] E' Hc Hd). reflexivity.
Qed.

Lemma omap_stale timeoutMs rows :
  forallb Props.clean_row rows = true ->
  omap (stale_container (timeoutMs * 2)) (map Props.line_of rows)
  = map Props.listed_name (List.filter (Props.stale timeoutMs) rows).
Proof.
  induction rows as [|r rows IH]; [reflexivity|]. cbn [forallb map List.filter].
  intros H. apply andb_true_iff in H as [Hr Hrows].
  rewrite omap_cons_match, (stale_container_line _ r Hr), (IH Hrows).
  unfold Props.stale. destruct (_ <? _); reflexivity.
Qed.

Lemma cleanup_listing timeoutMs rows :
  forallb Props.clean_row rows = true ->
  cleanup timeoutMs (Some (Props.listing rows))
  = map Props.listed_name (List.filter (Props.stale timeoutMs) rows).
Proof.
  intros Hrows. destruct rows as [|r rs]; [reflexivity|].
  unfold cleanup. rewrite (lines_of_listing _ Hrows) by discriminate.
  apply omap_stale, Hrows.
Qed.

Lemma parseRunningFor_unreadable age :
  Props.unreadable age = true -> parseRunningFor age = 0%N.
Proof.
  unfold Props.unreadable, parseRunningFor. intros H.
  apply orb_true_iff in H as [H|H].
  - rewrite !match_unit_no_digit by exact H. reflexivity.
  - apply andb_true_iff in H as [H Hs]. apply andb_true_iff in H as [H Hm].
    apply andb_true_iff in H as [Hd Hh].
    apply negb_true_iff in Hd, Hh, Hm, Hs.
    rewrite !match_unit_no_word by assumption. reflexivity.
Qed.

(** X22. An age in which no digit occurs, or none of the words [day],
    [hour], [minute], [second], counts as zero milliseconds; so a container
    whose age the listing prints without a number (an age of about a minute or
    about an hour) or in another unit (weeks, months, years) is never taken for
    an orphan, whatever the timeout: a listing of such containers leads to no
    kill. *)
Theorem unreadable_age_is_never_stale (rows : list Props.ListedContainer) (timeoutMs : Z) :
  0 <= timeoutMs ->
  forallb Props.clean_row rows = true ->
  forallb (fun r => Props.unreadable (Props.listed_age r)) rows = true ->
  Forall (fun r => parseRunningFor (Props.listed_age r) = 0%N) rows
  /\ cleanup timeoutMs (Some (Props.listing rows)) = [].
Proof.
  intros Htime Hclean Hrows.
  assert (H0 : Forall (fun r => parseRunningFor (Props.listed_age r) = 0%N) rows).
  { apply List.Forall_forall. intros r Hr. rewrite forallb_forall in Hrows.
    apply parseRunningFor_unreadable, Hrows, Hr. }
  split; [exact H0|].
  rewrite (cleanup_listing timeoutMs rows Hclean).
  clear Hclean Hrows. induction H0 as [|r rows Hr _ IH]; [reflexivity|].
  cbn [List.filter]. unfold Props.stale at 1. rewrite Hr.
  destruct (Z.ltb_spec (timeoutMs * 2) (Z.of_N 0)) as [H|_]; [cbn in H; lia | exact IH].
Qed.

Lemma unreadable_age_is_never_stale_witness :
  cleanup 0
    (Some (Props.listing
             [{| Props.listed_id := js "4f1a"; Props.listed_name := js "flowmate-7";
                 Props.listed_age := js "About an hour ago" |};
              {| Props.listed_id := js "9c2e"; Props.listed_name := js "flowmate-3";
                 Props.listed_age := js "3 weeks ago" |}]))
  = [].
Proof.
  refine (proj2 (unreadable_age_is_never_stale _ 0 _ _ _)).
  - lia.
  - vm_compute. reflexivity.
  - vm_compute. reflexivity.
Defined.

Lemma space_not_digit c : is_trim_space c = true -> is_digit c = false.
Proof.
  unfold is_trim_space, is_digit. intros H.
  destruct (N.leb_spec 48 c) as [H1|H1]; [|reflexivity].
  destruct (N.leb_spec c 57) as [H2|H2]; [|reflexivity]. exfalso.
  repeat match type of H with
         | (_ || _)%bool = true => apply orb_true_iff in H as [H|H]
         | (_ && _)%bool = true => apply andb_true_iff in H as [? ?]
         end;
    repeat match goal with
           | E : (_ <=? _)%N = true |- _ => apply N.leb_le in E
           | E : (_ =? _)%N = true |- _ => apply N.eqb_eq in E
           end; lia.
Qed.

Lemma match_here_decimal w (u : uint) rest :
  match rest with [] => True | c :: _ => is_digit c = false end ->
  u <> Nil ->
  match_here w (chars_of_uint u ++ rest)
  = if startsWith w (trimStart rest) then Some (N.of_uint u) else None.
Proof.
  intros Hrest Hu. unfold match_here.
  destruct (span_digits_uint u rest Hrest) as (ds & -> & <- & Hds).
  destruct ds as [|d ds]; [exfalso; exact (Hds Hu eq_refl)|]. reflexivity.
Qed.

Lemma chars_of_uint_tail u :
  u = Nil \/ exists c u', chars_of_uint u = c :: chars_of_uint u'.
Proof. destruct u; [left; reflexivity|..]; right; eexists _, _; reflexivity. Qed.

Lemma match_unit_decimal_other w (u : uint) rest :
  match rest with [] => True | c :: _ => is_digit c = false end ->
  startsWith w (trimStart rest) = false ->
  match_unit w (chars_of_uint u ++ rest) = match_unit w rest.
Proof.
  intros Hrest Hw. induction u as [|u IH|u IH|u IH|u IH|u IH|u IH|u IH|u IH|u IH|u IH];
    [reflexivity|..];
    match goal with
    | |- match_unit w (chars_of_uint ?v ++ rest) = _ =>
      pose proof (match_here_decimal w v rest Hrest ltac:(discriminate)) as Hhere;
      rewrite Hw in Hhere; cbn [chars_of_uint app] in *; cbn [match_unit];
      rewrite Hhere; exact IH
    end.
Qed.

Lemma match_unit_decimal w (u : uint) rest :
  match rest with [] => True | c :: _ => is_digit c = false end ->
  u <> Nil ->
  startsWith w (trimStart rest) = true ->
  match_unit w (chars_of_uint u ++ rest) = Some (N.of_uint u).
Proof.
  intros Hrest Hu Hw.
  pose proof (match_here_decimal w u rest Hrest Hu) as Hhere. rewrite Hw in Hhere.
  destruct (chars_of_uint_tail u) as [->|(c & u' & E)]; [contradiction|].
  rewrite E in *. cbn [app] in *. cbn [match_unit]. rewrite Hhere. reflexivity.
Qed.

Lemma parseRunningFor_printed (n : N) (u : Props.AgeUnit)
    (space rest : jsstring) :
  forallb is_trim_space space = true ->
  Props.no_digit rest = true ->
  parseRunningFor (decimal n ++ space ++ Props.unit_word u ++ rest)
  = (n * Props.unit_ms u)%N.
Proof.
  intros Hspace Hrest.
  set (after := space ++ Props.unit_word u ++ rest).
  assert (Hhead : match after with [] => True | c :: _ => is_digit c = false end).
  { unfold after. destruct space as [|c space].
    - destruct u; reflexivity.
    - cbn [forallb] in Hspace. apply andb_true_iff in Hspace as [Hc _].
      exact (space_not_digit c Hc). }
  assert (Htrim : trimStart after = Props.unit_word u ++ rest).
  { unfold after. rewrite (trimStart_spaces space _ Hspace). destruct u; reflexivity. }
  assert (Hnone : forall w, match_unit w after = None).
  { intros w. apply match_unit_no_digit. unfold after, Props.no_digit in *.
    rewrite !forallb_app, Hrest, andb_true_r. apply andb_true_iff. split.
    - apply forallb_forall. intros c Hc. rewrite forallb_forall in Hspace.
      rewrite (space_not_digit c (Hspace c Hc)). reflexivity.
    - destruct u; reflexivity. }
  assert (Hn : N.of_uint (N.to_uint n) = n) by apply DecimalN.Unsigned.of_to.
  unfold parseRunningFor, decimal.
  destruct u; cbn [Props.unit_word Props.unit_ms] in *.
  - rewrite (match_unit_decimal (js "day")) by
        (first [exact Hhead | apply N_to_uint_nonnil | rewrite Htrim; reflexivity]).
    rewrite !match_unit_decimal_other by
        (first [exact Hhead | rewrite Htrim; reflexivity]).
    rewrite !Hnone, Hn. cbn [or_zero]. lia.
  - rewrite (match_unit_decimal (js "hour")) by
        (first [exact Hhead | apply N_to_uint_nonnil | rewrite Htrim; reflexivity]).
    rewrite !match_unit_decimal_other by
        (first [exact Hhead | rewrite Htrim; reflexivity]).
    rewrite !Hnone, Hn. cbn [or_zero]. lia.
  - rewrite (match_unit_decimal (js "minute")) by
        (first [exact Hhead | apply N_to_uint_nonnil | rewrite Htrim; reflexivity]).
    rewrite !match_unit_decimal_other by
        (first [exact Hhead | rewrite Htrim; reflexivity]).
    rewrite !Hnone, Hn. cbn [or_zero]. lia.
  - rewrite (match_unit_decimal (js "second")) by
        (first [exact Hhead | apply N_to_uint_nonnil | rewrite Htrim; reflexivity]).
    rewrite !match_unit_decimal_other by
        (first [exact Hhead | rewrite Htrim; reflexivity]).
    rewrite !Hnone, Hn. cbn [or_zero]. lia.
Qed.

(** X24. An age printed as a number, optional white space, one of the
    words [day], [hour], [minute] or [second] and a rest without digits (the
    plural ending, [ago]) is read as that number of days, hours, minutes or
    seconds, in milliseconds. *)
Theorem parseRunningFor_reads_number_and_unit (n : N) (u : Props.AgeUnit)
    (space rest : jsstring) :
  forallb is_trim_space space = true ->
  Props.no_digit rest = true ->
  parseRunningFor (decimal n ++ space ++ Props.unit_word u ++ rest)
  = (n * Props.unit_ms u)%N.
Proof. apply parseRunningFor_printed. Qed.

Lemma parseRunningFor_reads_number_and_unit_witness :
  parseRunningFor (js "90 minutes ago") = 5400000%N.
Proof.
  exact (parseRunningFor_reads_number_and_unit 90 Props.Minutes (js " ") (js "s ago")
           eq_refl eq_refl).
Defined.

(** The line of a container whose age is printed as a count and a unit is
    read as that count of the unit. *)
Lemma listed_age_ms a :
  Props.no_digit (Props.aged_ending a) = true ->
  Z.of_N (parseRunningFor (Props.listed_age (Props.listed a))) = Props.age_ms a.
Proof.
  intros H. unfold Props.listed, Props.age_ms. cbn [Props.listed_age].
  rewrite (parseRunningFor_printed _ _ (js " ") _ eq_refl H). lia.
Qed.

(** X23. For a listing of well-formed lines (id, name and age separated
    by tabs, one container per line) whose ages are printed as a count of
    days, hours, minutes or seconds (the count, a space, the unit and an
    ending without digits, as in [5 minutes ago]), [cleanup] asks for the kill
    of exactly the containers whose printed age, count times unit, is above
    twice the task timeout, by name and in the order of the listing, and of no
    container at or below that age; when the listing command fails it does
    nothing. (An age printed otherwise, in weeks or with [About], is read as
    zero and its container is never killed.) *)
Theorem cleanup_kills_exactly_the_stale (rows : list Props.AgedContainer) (timeoutMs : Z) :
  forallb Props.clean_row (map Props.listed rows) = true ->
  forallb (fun a => Props.no_digit (Props.aged_ending a)) rows = true ->
  cleanup timeoutMs (Some (Props.listing (map Props.listed rows)))
  = map Props.aged_name (List.filter (fun a => timeoutMs * 2 <? Props.age_ms a) rows)
  /\ cleanup timeoutMs None = [].
Proof.
  intros Hclean Hages. split; [|reflexivity].
  rewrite (cleanup_listing timeoutMs _ Hclean). clear Hclean.
  induction rows as [|a rows IH]; [reflexivity|].
  cbn [forallb] in Hages. apply andb_true_iff in Hages as [Ha Hrows].
  cbn [map List.filter]. unfold Props.stale at 1. rewrite (listed_age_ms a Ha).
  destruct (timeoutMs * 2 <? Props.age_ms a); cbn [map]; rewrite (IH Hrows); reflexivity.
Qed.

Lemma cleanup_kills_exactly_the_stale_witness :
  cleanup 1800000
    (Some (Props.listing
             [{| Props.listed_id := js "4f1a"; Props.listed_name := js "flowmate-7";
                 Props.listed_age := js "2 hours ago" |};
              {| Props.listed_id := js "9c2e"; Props.listed_name := js "flowmate-8";
                 Props.listed_age := js "60 minutes ago" |};
              {| Props.listed_id := js "77b0"; Props.listed_name := js "flowmate-9";
                 Props.listed_age := js "3 days ago" |}]))
  = [js "flowmate-7"; js "flowmate-9"].
Proof.
  refine (eq_trans
            (proj1 (cleanup_kills_exactly_the_stale
                      [{| Props.aged_id := js "4f1a"; Props.aged_name := js "flowmate-7";
                          Props.aged_count := 2; Props.aged_unit := Props.Hours;
                          Props.aged_ending := js "s ago" |};
                       {| Props.aged_id := js "9c2e"; Props.aged_name := js "flowmate-8";
                          Props.aged_count := 60; Props.aged_unit := Props.Minutes;
                          Props.aged_ending := js "s ago" |};
                       {| Props.aged_id := js "77b0"; Props.aged_name := js "flowmate-9";
                          Props.aged_count := 3; Props.aged_unit := Props.Days;
                          Props.aged_ending := js "s ago" |}] 1800000 _ _)) _).
  - vm_compute. reflexivity.
  - vm_compute. reflexivity.
  - vm_compute. reflexivity.
Defined.

(** *** Shutdown while an execution runs *)
Import Types Execution.

Lemma in_flight_singleton s i v :
  activeExecutions s = {[ i := v ]} -> Shutdown.in_flight s = [(i, v)].
Proof.
  intros E. unfold Shutdown.in_flight. rewrite E, map_to_list_singleton. reflexivity.
Qed.

(** X25. [drain] called while an execution started on an otherwise idle
    service is in flight, when its timer wins: the backend is asked to kill the
    execution's runner exactly when the promise is still pending at that
    moment and the runner has reported its id; an execution that has settled
    in the meantime is left alone, and so is one whose worker is still being
    launched. *)
Theorem drain_kills_the_pending_execution (config : FlowmateConfig.t)
    (mcpEntryPath : jsstring) (today : jsstring * jsstring) (clock : Clock)
    (params : Params) (s s1 : Service) (c : Closure) (before during : list Event) :
  activeExecutions s = ∅ ->
  execute config mcpEntryPath today clock params s = (s1, inl c) ->
  existsb Props.ends before = false ->
  let called := fst (run_events (s1, c) before) in
  let s2 := fst (run_events (s1, c) (before ++ during)) in
  let c2 := snd (run_events (s1, c) (before ++ during)) in
  runner (Shutdown.drain called (Shutdown.TimedOut s2))
  = runner s2 ++ match settled c2, runnerId c2 with
                 | None, Some (u :: r) => [CallKill (u :: r)]
                 | _, _ => []
                 end.
Proof.
  intros Hidle Hexec Hbefore. cbv zeta.
  pose proof (execute_tracked _ _ _ _ _ _ _ _ Hexec) as H0.
  destruct (execute_pending _ _ _ _ _ _ _ _ Hexec) as [Hpending _].
  assert (Hcalled : Shutdown.activeCount (fst (run_events (s1, c) before)) <> 0%nat).
  { pose proof (run_events_tracked _ _ before _ H0) as H.
    pose proof (proj1 (run_events_no_end before s1 c Hbefore)) as Hset.
    rewrite Hpending in Hset.
    destruct (run_events (s1, c) before) as [s' c']. unfold Props.tracked in H.
    cbn [fst snd] in *. rewrite Hset in H. destruct H as (_ & _ & _ & _ & _ & _ & Hi).
    unfold Shutdown.activeCount. intros Hsize. apply map_size_empty_inv in Hsize.
    rewrite Hsize, lookup_empty in Hi. discriminate. }
  unfold Shutdown.drain. rewrite bool_decide_eq_false_2 by exact Hcalled.
  pose proof (run_events_tracked _ _ (before ++ during) _ H0) as H.
  destruct (run_events (s1, c) (before ++ during)) as [s2 c2]. unfold Props.tracked in H.
  cbn [fst snd] in *.
  destruct H as (_ & _ & _ & _ & Hothers & Hstate).
  unfold Shutdown.drain_timed_out.
  destruct (settled c2) as [o|].
  - destruct Hstate as [_ Hi].
    assert (E : activeExecutions s2 = ∅).
    { apply map_eq. intros j. rewrite lookup_empty.
      destruct (decide (j = Db.next_id (db s))) as [->|Hj]; [exact Hi|].
      rewrite (Hothers j Hj), Hidle. apply lookup_empty. }
    unfold Shutdown.in_flight. rewrite E, map_to_list_empty.
    symmetry. apply app_nil_r.
  - destruct Hstate as (_ & Hi).
    assert (E : activeExecutions s2 = {[ Db.next_id (db s) := runnerId c2 ]}).
    { apply map_eq. intros j.
      destruct (decide (j = Db.next_id (db s))) as [->|Hj].
      - rewrite lookup_singleton_eq. exact Hi.
      - rewrite lookup_singleton_ne by congruence.
        rewrite (Hothers j Hj), Hidle. apply lookup_empty. }
    rewrite (in_flight_singleton _ _ _ E).
    destruct (runnerId c2) as [[|u r]|];
      [symmetry; apply app_nil_r | reflexivity | symmetry; apply app_nil_r].
Qed.

Lemma drain_kills_the_pending_execution_witness :
  exists s1 c,
    execute Sample.config (js "/app/mcp.js") Sample.today (Sample.clock 0) Sample.params
            (Sample.service Sample.empty_db CostTracker.new) = (s1, inl c)
    /\ runner (Shutdown.drain s1
                 (Shutdown.TimedOut (fst (run_events (s1, c) [Spawned (js "flowmate-1")]))))
       = runner (fst (run_events (s1, c) [Spawned (js "flowmate-1")]))
           ++ [CallKill (js "flowmate-1")].
Proof.
  eexists _, _. split; [reflexivity|].
  exact (drain_kills_the_pending_execution Sample.config (js "/app/mcp.js") Sample.today
           (Sample.clock 0) Sample.params
           (Sample.service Sample.empty_db CostTracker.new) _ _
           [] [Spawned (js "flowmate-1")] eq_refl eq_refl eq_refl).
Defined.
